(** * Strigo: version resolution against a remote registry

    A shallow embedding of the version-resolution core of Strigo
    (package [repository/version]: [ExtractMajor], [CompareVersions],
    [Parser.ExtractVersion], [Parser.ExtractVersionByType]; package
    [repository]: [NexusClient.GetAvailableVersions]) together with the
    properties the design document states about them.

    Go strings are byte sequences and are modelled by [string]; Go's [int]
    is the 64-bit one and is modelled by [Z] with the range check of
    [strconv.Atoi] written out. *)

From Stdlib Require Import ZArith Lia Bool Ascii String DecimalString OrderedTypeEx.
From Stdlib Require Import DecimalPos.
From stdpp Require Import gmap strings list sorting.

Local Open Scope string_scope.
Local Open Scope list_scope.

(* ===================================================================== *)
(** ** The pieces of Go's [strings] and [strconv] the code calls          *)
(* ===================================================================== *)

Module GoStrings.

(** [s1 < s2] on Go strings: bytewise lexicographic order. *)
Definition str_lt (s1 s2 : string) : bool := String.ltb s1 s2.

(** [strings.HasPrefix(s, prefix)]. *)
Definition HasPrefix (s pre : string) : bool := String.prefix pre s.

(** [strings.HasSuffix(s, suffix)]. *)
Definition HasSuffix (s suf : string) : bool :=
  let n := String.length s in
  let k := String.length suf in
  (k <=? n)%nat && String.eqb (String.substring (n - k) k s) suf.

(** [strings.TrimPrefix(s, prefix)]. *)
Definition TrimPrefix (s pre : string) : string :=
  if HasPrefix s pre
  then String.substring (String.length pre) (String.length s - String.length pre) s
  else s.

(** Membership of a byte in a cutset. *)
Fixpoint in_cutset (c : ascii) (cutset : string) : bool :=
  match cutset with
  | EmptyString => false
  | String d rest => Ascii.eqb c d || in_cutset c rest
  end.

(** [strings.TrimLeft(s, cutset)] for an ASCII cutset. *)
Fixpoint TrimLeft (s cutset : string) : string :=
  match s with
  | EmptyString => EmptyString
  | String c rest => if in_cutset c cutset then TrimLeft rest cutset else s
  end.

(** [strings.Contains(s, substr)]. *)
Fixpoint Contains (s substr : string) : bool :=
  String.prefix substr s ||
  match s with
  | EmptyString => false
  | String _ rest => Contains rest substr
  end.

(** [strings.Split(s, sep)] for a one-byte separator: the pieces between
    the separators, always at least one piece. *)
Fixpoint Split (s : string) (sep : ascii) : list string :=
  match s with
  | EmptyString => [EmptyString]
  | String c rest =>
      if Ascii.eqb c sep then EmptyString :: Split rest sep
      else match Split rest sep with
           | [] => [String c EmptyString]
           | piece :: pieces => String c piece :: pieces
           end
  end.

(** [strings.Replace(s, old, new, -1)] for one-byte [old] and [new]. *)
Fixpoint Replace (s : string) (old new : ascii) : string :=
  match s with
  | EmptyString => EmptyString
  | String c rest =>
      String (if Ascii.eqb c old then new else c) (Replace rest old new)
  end.

(** [strings.ReplaceAll(s, old, new)] for a non-empty [old]: occurrences
    are found left to right and do not overlap.  [skip] counts the bytes
    of an occurrence already replaced that are still to be dropped. *)
Fixpoint replace_all_from (s old new : string) (skip : nat) : string :=
  match s with
  | EmptyString => EmptyString
  | String c rest =>
      match skip with
      | S k => replace_all_from rest old new k
      | O =>
          if String.prefix old s
          then new +:+ replace_all_from rest old new (String.length old - 1)
          else String c (replace_all_from rest old new 0)
      end
  end.

Definition ReplaceAll (s old new : string) : string :=
  replace_all_from s old new 0.

Definition is_digit (c : ascii) : bool :=
  let n := N_of_ascii c in (48 <=? n)%N && (n <=? 57)%N.

(** The longest prefix whose bytes all satisfy [f], and what follows. *)
Fixpoint take_while (f : ascii -> bool) (s : string) : string :=
  match s with
  | String c rest => if f c then String c (take_while f rest) else EmptyString
  | EmptyString => EmptyString
  end.

Fixpoint drop_while (f : ascii -> bool) (s : string) : string :=
  match s with
  | String c rest => if f c then drop_while f rest else s
  | EmptyString => EmptyString
  end.

Definition digit_value (c : ascii) : Z := Z.of_N (N_of_ascii c) - 48.

(** The value of a run of decimal digits, [None] at the first byte that
    is not a digit. *)
Fixpoint digits_value (s : string) (acc : Z) : option Z :=
  match s with
  | EmptyString => Some acc
  | String c rest =>
      if is_digit c then digits_value rest (acc * 10 + digit_value c)%Z
      else None
  end.

Definition min_int : Z := (- 2 ^ 63)%Z.
Definition max_int : Z := (2 ^ 63 - 1)%Z.

(** [strconv.Atoi(s)] on a 64-bit platform: an optional sign, at least
    one decimal digit, nothing else, and a value that fits [int].
    [None] stands for a non-nil error. *)
Definition Atoi (s : string) : option Z :=
  let '(neg, body) :=
    match s with
    | String "-"%char rest => (true, rest)
    | String "+"%char rest => (false, rest)
    | _ => (false, s)
    end in
  match body with
  | EmptyString => None
  | _ =>
      match digits_value body 0 with
      | None => None
      | Some n =>
          let v := if neg then (- n)%Z else n in
          if (min_int <=? v)%Z && (v <=? max_int)%Z then Some v else None
      end
  end.

End GoStrings.

(* ===================================================================== *)
(** ** A model of Go's [regexp] on a fragment of its syntax               *)
(* ===================================================================== *)

(** What the extraction code needs from a regular-expression library:
    compiling a pattern (which may fail) and [FindStringSubmatch], which
    returns [nil] (here [[]]) when the pattern does not match and
    otherwise the whole match followed by one string per capture group,
    the empty string for a group that took no part in the match. *)
Class RegexpEngine := {
  Regexp : Type;
  Compile : string -> option Regexp;
  FindStringSubmatch : Regexp -> string -> list string
}.

(** A backtracking matcher with Go's leftmost-first, greedy semantics for
    the fragment: literal ASCII bytes, [.], [\d], [\w], [\s], escaped
    punctuation, [^], [$], capture groups, [(?:...)] groups, [|], the
    greedy postfix operators [*], [+], [?], and the flag [(?i)] at the
    start of the pattern.  Bracket classes, counted repetition, other
    flags, non-greedy operators and starred sub-patterns that can match
    the empty string lie outside the fragment and [compile] refuses them.
    The text is matched byte by byte, which is what Go does on ASCII
    text; the examples below are ASCII, and the two patterns of
    [ExtractMajor] capture digits only, so that their first group is the
    same on any text. *)
Module GoRegexp.

Inductive CharClass :=
| CByte (c : ascii)
| CFold (c : ascii)
| CDigit
| CWord
| CSpace
| CAnyNotNL.

Definition is_word (c : ascii) : bool :=
  let n := N_of_ascii c in
  GoStrings.is_digit c
  || ((65 <=? n)%N && (n <=? 90)%N)
  || ((97 <=? n)%N && (n <=? 122)%N)
  || (n =? 95)%N.

Definition is_space (c : ascii) : bool :=
  let n := N_of_ascii c in
  (n =? 9)%N || (n =? 10)%N || (n =? 12)%N || (n =? 13)%N || (n =? 32)%N.

(** ASCII case folding, for a literal under [(?i)]. *)
Definition to_lower (c : ascii) : ascii :=
  let n := N_of_ascii c in
  if (65 <=? n)%N && (n <=? 90)%N then ascii_of_N (n + 32) else c.

Definition class_matches (cls : CharClass) (c : ascii) : bool :=
  match cls with
  | CByte d => Ascii.eqb c d
  | CFold d => Ascii.eqb (to_lower c) (to_lower d)
  | CDigit => GoStrings.is_digit c
  | CWord => is_word c
  | CSpace => is_space c
  | CAnyNotNL => negb (N_of_ascii c =? 10)%N
  end.

Inductive Syntax :=
| EmptyMatch
| Byte (cls : CharClass)
| BeginText
| EndText
| Concat (r1 r2 : Syntax)
| Alternate (r1 r2 : Syntax)
| Quest (r : Syntax)
| Star (r : Syntax)
| Capture (index : nat) (r : Syntax).

(** Whether a pattern can match the empty string. *)
Fixpoint nullable (r : Syntax) : bool :=
  match r with
  | EmptyMatch | BeginText | EndText | Quest _ | Star _ => true
  | Byte _ => false
  | Concat r1 r2 => nullable r1 && nullable r2
  | Alternate r1 r2 => nullable r1 || nullable r2
  | Capture _ r => nullable r
  end.

Definition is_alnum (c : ascii) : bool :=
  is_word c && negb (N_of_ascii c =? 95)%N.

(** The atom after a backslash. *)
Definition parse_escape (c : ascii) : option Syntax :=
  if Ascii.eqb c "d" then Some (Byte CDigit)
  else if Ascii.eqb c "w" then Some (Byte CWord)
  else if Ascii.eqb c "s" then Some (Byte CSpace)
  else if is_alnum c then None
  else if (N_of_ascii c <? 128)%N then Some (Byte (CByte c))
  else None.

Definition is_repeat_op (c : ascii) : bool :=
  Ascii.eqb c "*" || Ascii.eqb c "+" || Ascii.eqb c "?".

Definition starts_with_repeat_op (s : string) : bool :=
  match s with
  | String c _ => is_repeat_op c
  | EmptyString => false
  end.

(** Apply a postfix operator; [x+] is [x] followed by [x*]. *)
Definition apply_repeat (op : ascii) (r : Syntax) : option Syntax :=
  if Ascii.eqb op "?" then Some (Quest r)
  else if nullable r then None
  else if Ascii.eqb op "*" then Some (Star r)
  else Some (Concat r (Star r)).

(** Recursive descent; [fold] says whether [(?i)] is in force and [n] is
    the index of the next capture group.  Each function returns the
    parsed pattern, the unread input and the next free group index. *)
Fixpoint parse_alternate (fold : bool) (fuel : nat) (s : string) (n : nat)
  : option (Syntax * string * nat) :=
  match fuel with
  | O => None
  | S f =>
      match parse_concat fold f s n with
      | None => None
      | Some (r1, rest, n1) =>
          match rest with
          | String "|" rest' =>
              match parse_alternate fold f rest' n1 with
              | Some (r2, rest'', n2) => Some (Alternate r1 r2, rest'', n2)
              | None => None
              end
          | _ => Some (r1, rest, n1)
          end
      end
  end
with parse_concat (fold : bool) (fuel : nat) (s : string) (n : nat)
  : option (Syntax * string * nat) :=
  match fuel with
  | O => None
  | S f =>
      match s with
      | EmptyString => Some (EmptyMatch, s, n)
      | String c _ =>
          if Ascii.eqb c "|" || Ascii.eqb c ")" then Some (EmptyMatch, s, n)
          else
            match parse_repeat fold f s n with
            | None => None
            | Some (r1, rest, n1) =>
                match parse_concat fold f rest n1 with
                | Some (r2, rest', n2) => Some (Concat r1 r2, rest', n2)
                | None => None
                end
            end
      end
  end
with parse_repeat (fold : bool) (fuel : nat) (s : string) (n : nat)
  : option (Syntax * string * nat) :=
  match fuel with
  | O => None
  | S f =>
      match parse_atom fold f s n with
      | None => None
      | Some (r, rest, n1) =>
          match rest with
          | String op rest' =>
              if is_repeat_op op then
                if starts_with_repeat_op rest' then None
                else
                  match apply_repeat op r with
                  | Some r' => Some (r', rest', n1)
                  | None => None
                  end
              else Some (r, rest, n1)
          | EmptyString => Some (r, rest, n1)
          end
      end
  end
with parse_atom (fold : bool) (fuel : nat) (s : string) (n : nat)
  : option (Syntax * string * nat) :=
  match fuel with
  | O => None
  | S f =>
      match s with
      | EmptyString => None
      | String c rest =>
          if Ascii.eqb c "(" then
            match rest with
            | String "?" (String ":" rest') =>
                match parse_alternate fold f rest' n with
                | Some (r, String ")" rest'', n1) => Some (r, rest'', n1)
                | _ => None
                end
            | String "?" _ => None
            | _ =>
                match parse_alternate fold f rest (S n) with
                | Some (r, String ")" rest', n1) => Some (Capture n r, rest', n1)
                | _ => None
                end
            end
          else if Ascii.eqb c "\" then
            match rest with
            | String e rest' =>
                match parse_escape e with
                | Some r => Some (r, rest', n)
                | None => None
                end
            | EmptyString => None
            end
          else if Ascii.eqb c "." then Some (Byte CAnyNotNL, rest, n)
          else if Ascii.eqb c "^" then Some (BeginText, rest, n)
          else if Ascii.eqb c "$" then Some (EndText, rest, n)
          else if is_repeat_op c || Ascii.eqb c ")" || Ascii.eqb c "|"
                  || Ascii.eqb c "[" || Ascii.eqb c "{" then None
          else if (N_of_ascii c <? 128)%N
               then Some (Byte (if fold then CFold c else CByte c), rest, n)
          else None
      end
  end.

(** A compiled pattern: its syntax tree and its number of groups. *)
Record Prog := { prog_syntax : Syntax; NumSubexp : nat }.

Definition compile (pattern : string) : option Prog :=
  let fold := String.prefix "(?i)" pattern in
  let body :=
    if fold then String.substring 4 (String.length pattern - 4) pattern
    else pattern in
  match parse_alternate fold (4 * String.length body + 4) body 1 with
  | Some (r, EmptyString, n) => Some {| prog_syntax := r; NumSubexp := n - 1 |}
  | _ => None
  end.

(** The text captured so far, newest first. *)
Definition Caps := list (nat * string).

(** A thread of the matcher ends at a position with its captures. *)
Definition Cont := nat -> string -> Caps -> option (nat * Caps).

(** The greedy loop of a star: [step] matches the starred pattern once;
    an iteration that consumes nothing is abandoned.  [fuel] bounds the
    number of iterations by the length of the unread text. *)
Fixpoint iterate (step : nat -> string -> Caps -> Cont -> option (nat * Caps))
  (k : Cont) (fuel : nat) (pos : nat) (rest : string) (caps : Caps)
  : option (nat * Caps) :=
  match fuel with
  | O => k pos rest caps
  | S f =>
      match step pos rest caps
              (fun p s c => if (pos <? p)%nat then iterate step k f p s c else None)
      with
      | Some res => Some res
      | None => k pos rest caps
      end
  end.

(** [run r pos rest caps k]: match [r] against [rest], which starts at
    offset [pos] of the text, then continue with [k]; alternatives are
    tried in order and the first thread to succeed wins. *)
Fixpoint run (r : Syntax) (pos : nat) (rest : string) (caps : Caps) (k : Cont)
  : option (nat * Caps) :=
  match r with
  | EmptyMatch => k pos rest caps
  | Byte cls =>
      match rest with
      | String c rest' =>
          if class_matches cls c then k (S pos) rest' caps else None
      | EmptyString => None
      end
  | BeginText => if (pos =? 0)%nat then k pos rest caps else None
  | EndText =>
      match rest with
      | EmptyString => k pos rest caps
      | String _ _ => None
      end
  | Concat r1 r2 => run r1 pos rest caps (fun p s c => run r2 p s c k)
  | Alternate r1 r2 =>
      match run r1 pos rest caps k with
      | Some res => Some res
      | None => run r2 pos rest caps k
      end
  | Quest r1 =>
      match run r1 pos rest caps k with
      | Some res => Some res
      | None => k pos rest caps
      end
  | Star r1 => iterate (run r1) k (String.length rest) pos rest caps
  | Capture i r1 =>
      run r1 pos rest caps
        (fun p s c => k p s ((i, String.substring 0 (p - pos) rest) :: c))
  end.

(** [step] matches exactly one byte of the class [cls]. *)
Definition byte_step (cls : CharClass)
  (step : nat -> string -> Caps -> Cont -> option (nat * Caps)) : Prop :=
  forall p r c k0,
    step p r c k0
    = match r with
      | EmptyString => None
      | String c1 r' => if class_matches cls c1 then k0 (S p) r' c else None
      end.

Definition accept : Cont := fun p _ c => Some (p, c).

(** The leftmost match: the first start offset at which a thread
    succeeds.  Returns the text from that offset, the length of the
    match and the captures. *)
Fixpoint search (r : Syntax) (pos : nat) (rest : string)
  : option (string * nat * Caps) :=
  match run r pos rest [] accept with
  | Some (e, caps) => Some (rest, e - pos, caps)
  | None =>
      match rest with
      | EmptyString => None
      | String _ rest' => search r (S pos) rest'
      end
  end.

Fixpoint cap_lookup (i : nat) (caps : Caps) : string :=
  match caps with
  | [] => EmptyString
  | (j, text) :: caps' => if (i =? j)%nat then text else cap_lookup i caps'
  end.

Definition find_string_submatch (re : Prog) (s : string) : list string :=
  match search (prog_syntax re) 0 s with
  | None => []
  | Some (from, len, caps) =>
      String.substring 0 len from
        :: map (fun i => cap_lookup i caps) (seq 1 (NumSubexp re))
  end.

#[export] Instance engine : RegexpEngine := {|
  Regexp := Prog;
  Compile := compile;
  FindStringSubmatch := find_string_submatch
|}.

End GoRegexp.

Import GoStrings.

(** Errors are carried as their message; [fmt.Errorf] with [%s] and [%v]
    verbs is string concatenation. *)
Inductive Outcome (A : Type) :=
| Ok (a : A)
| Err (msg : string).
Arguments Ok {A} a.
Arguments Err {A} msg.

(* ===================================================================== *)
(** ** Package [version]: the comparator                                  *)
(* ===================================================================== *)

Module Version.

(** The two patterns of [ExtractMajor]'s fast path. *)
Definition patterns : list string := ["^(\d+)\..*"; "^(\d+)u.*"].

Definition letters_dash_underscore : string :=
  "abcdefghijklmnopqrstuvwxyzABCDEFGHIJKLMNOPQRSTUVWXYZ-_".

(** The loop over [patterns]: [Some (Some m)] when it returns
    [matches[1]], [Some None] when it falls through, [None] when
    [regexp.MustCompile] panics. *)
Fixpoint first_submatch (pats : list string) (version : string)
  : option (option string) :=
  match pats with
  | [] => Some None
  | pattern :: rest =>
      match GoRegexp.compile pattern with
      | None => None
      | Some re =>
          match GoRegexp.find_string_submatch re version with
          | _ :: m1 :: _ => Some (Some m1)
          | _ => first_submatch rest version
          end
      end
  end.

(** [ExtractMajor]; [None] stands for a run-time panic. *)
Definition ExtractMajor (version : string) : option string :=
  if String.eqb version "" then Some ""
  else
    match first_submatch patterns version with
    | None => None
    | Some (Some m1) => Some m1
    | Some None =>
        let cleanVersion := TrimLeft version letters_dash_underscore in
        if negb (Contains cleanVersion ".") && negb (Contains cleanVersion "u")
        then Some ""
        else
          match Split cleanVersion "." with
          | part0 :: _ =>
              match Split part0 "u" with
              | majorPart :: _ =>
                  match Atoi majorPart with
                  | Some _ => Some majorPart
                  | None => Some ""
                  end
              | [] => None
              end
          | [] => Some ""
          end
    end.

(** What the two patterns parse to: [^], a group of one digit and more
    digits, the separator byte, then any run of non-newline bytes. *)
Definition pattern_syntax (sep : ascii) : GoRegexp.Syntax :=
  GoRegexp.Concat GoRegexp.BeginText
    (GoRegexp.Concat
       (GoRegexp.Capture 1
          (GoRegexp.Concat
             (GoRegexp.Concat (GoRegexp.Byte GoRegexp.CDigit)
                (GoRegexp.Star (GoRegexp.Byte GoRegexp.CDigit)))
             GoRegexp.EmptyMatch))
       (GoRegexp.Concat (GoRegexp.Byte (GoRegexp.CByte sep))
          (GoRegexp.Concat (GoRegexp.Star (GoRegexp.Byte GoRegexp.CAnyNotNL))
             GoRegexp.EmptyMatch))).

(** The normalisation of [CompareVersions]: two replacement passes, then
    a split on dots. *)
Definition version_parts (v : string) : list string :=
  Split (Replace (Replace v "u" ".") "_" ".") ".".

(** The loop [for i := 0; i < minLen; i++] followed by the final
    [return]; [remaining] is [minLen - i].  An index out of range is a
    panic, [None]. *)
Fixpoint compare_loop (v1Parts v2Parts : list string) (i remaining : nat)
  : option bool :=
  match remaining with
  | O => Some (length v1Parts <? length v2Parts)%nat
  | S remaining' =>
      match v1Parts !! i, v2Parts !! i with
      | Some p1, Some p2 =>
          match Atoi p1, Atoi p2 with
          | Some n1, Some n2 =>
              if (n1 <? n2)%Z then Some true
              else if (n1 >? n2)%Z then Some false
              else compare_loop v1Parts v2Parts (S i) remaining'
          | _, _ =>
              if str_lt p1 p2 then Some true
              else if str_lt p2 p1 then Some false
              else compare_loop v1Parts v2Parts (S i) remaining'
          end
      | _, _ => None
      end
  end.

(** [CompareVersions(v1, v2)]: [Some true] when [v1] is older. *)
Definition CompareVersions (v1 v2 : string) : option bool :=
  let v1Parts := version_parts v1 in
  let v2Parts := version_parts v2 in
  let minLen :=
    if (length v2Parts <? length v1Parts)%nat then length v2Parts
    else length v1Parts in
  compare_loop v1Parts v2Parts 0 minLen.

End Version.

(* ===================================================================== *)
(** ** Package [version]: the pattern table and the extractor             *)
(* ===================================================================== *)

(** [Pattern]: a named, type-tagged, ordered list of regex sources. *)
Record Pattern := {
  Name : string;
  Type_ : string;
  Description : string;
  Patterns : list string
}.

(** [Parser]: the loaded table, in file order. *)
Record Parser := { patterns : list Pattern }.

Section Extractor.
Context `{RegexpEngine}.

(** The inner loop over one [Pattern]'s regexes: a regex that does not
    compile is skipped; the first whose submatch slice has more than one
    element returns [matches[1]] with the pattern's name. *)
Fixpoint try_regexes (name : string) (regexes : list string) (path : string)
  : option (string * string) :=
  match regexes with
  | [] => None
  | regexStr :: rest =>
      match Compile regexStr with
      | None => try_regexes name rest path
      | Some re =>
          match FindStringSubmatch re path with
          | _ :: version :: _ => Some (version, name)
          | _ => try_regexes name rest path
          end
      end
  end.

(** The outer loop, shared by the three extraction methods: [keep] is
    the test a [Pattern] must pass not to be skipped. *)
Fixpoint try_patterns (keep : Pattern -> bool) (table : list Pattern)
  (path : string) : option (string * string) :=
  match table with
  | [] => None
  | pattern :: rest =>
      if keep pattern then
        match try_regexes (Name pattern) (Patterns pattern) path with
        | Some found => Some found
        | None => try_patterns keep rest path
        end
      else try_patterns keep rest path
  end.

(** [Parser.ExtractVersion]. *)
Definition ExtractVersion (p : Parser) (path : string)
  : Outcome (string * string) :=
  match try_patterns (fun _ => true) (patterns p) path with
  | Some found => Ok found
  | None => Err ("no pattern matched for path: " +:+ path)
  end.

(** The type test of [ExtractVersionByType]: a [Pattern] is skipped when
    its type differs from the requested one and is not ["*"]. *)
Definition type_applies (sdkType : string) (pattern : Pattern) : bool :=
  negb (negb (String.eqb (Type_ pattern) sdkType)
        && negb (String.eqb (Type_ pattern) "*")).

(** [Parser.ExtractVersionByType]. *)
Definition ExtractVersionByType (p : Parser) (path sdkType : string)
  : Outcome (string * string) :=
  match try_patterns (type_applies sdkType) (patterns p) path with
  | Some found => Ok found
  | None =>
      Err ("no pattern matched for path: " +:+ path +:+ " (type: "
           +:+ sdkType +:+ ")")
  end.

(** [Parser.ExtractVersionByDistribution]. *)
Definition ExtractVersionByDistribution (p : Parser) (path distribution : string)
  : Outcome (string * string) :=
  match try_patterns (fun pattern => String.eqb (Name pattern) distribution)
          (patterns p) path with
  | Some found => Ok found
  | None =>
      Err ("no pattern matched for path: " +:+ path +:+ " (distribution: "
           +:+ distribution +:+ ")")
  end.

End Extractor.

(* ===================================================================== *)
(** ** Package [config] and package [repository]                          *)
(* ===================================================================== *)

Module Registry.
Record t := {
  Type_ : string;
  APIURL : string;
  Username : string;
  Password : string
}.
End Registry.

Module SDKRepository.
Record t := {
  Type_ : string;
  Registry : string;
  Repository : string;
  Path : string
}.
End SDKRepository.

(** [SDKAsset]: an available version of an SDK. *)
Module SDKAsset.
Record t := {
  Version : string;
  DownloadUrl : string;
  Filename : string;
  Size : Z
}.
End SDKAsset.

(** [NexusAsset]: an item of a listing page. *)
Module NexusAsset.
Record t := {
  Path : string;
  DownloadUrl : string;
  Checksum : gmap string string
}.
End NexusAsset.

Module Nexus.

(** [%d] of a status code. *)
Definition itoa (n : Z) : string :=
  DecimalString.NilZero.string_of_int (Z.to_int n).

Definition hex_digit (n : N) : ascii :=
  ascii_of_N (if (n <? 10)%N then 48 + n else 55 + n).

Definition unreserved (c : ascii) : bool :=
  GoRegexp.is_word c || Ascii.eqb c "-" || Ascii.eqb c "." || Ascii.eqb c "~".

(** [url.QueryEscape]: unreserved bytes stay, a space becomes [+], every
    other byte becomes [%XX] in upper-case hexadecimal. *)
Fixpoint QueryEscape (s : string) : string :=
  match s with
  | EmptyString => EmptyString
  | String c rest =>
      if unreserved c then String c (QueryEscape rest)
      else if Ascii.eqb c " " then String "+" (QueryEscape rest)
      else
        let n := N_of_ascii c in
        String "%" (String (hex_digit (n / 16)) (String (hex_digit (n mod 16))
          (QueryEscape rest)))
  end.

(** A request handed to [client.Do]: its URL and, when both a user name
    and a password are configured, the Basic-Auth credentials. *)
Record Request := {
  RequestURL : string;
  BasicAuth : option (string * string)
}.

(** The decoded body of a reply: either what the JSON decoder rejects
    (with its error) or a listing page with its continuation token, the
    empty string when the field is absent. *)
Inductive Body :=
| Malformed (err : string)
| Listing (Items : list NexusAsset.t) (ContinuationToken : string).

(** What the outside world does with one iteration of the pagination
    loop: the request cannot be built, the transport fails, or a reply
    with a status code arrives. *)
Inductive Exchange :=
| RequestInvalid (err : string)
| TransportFailure (err : string)
| Reply (StatusCode : Z) (body : Body).

Definition StatusOK : Z := 200.

(** How the pagination loop ends: with every item collected, with an
    error, or never (the world stopped answering).  [sent] lists the
    requests issued, oldest first; [unread] is what the world still had
    to say. *)
Inductive Fetch :=
| Fetched (allItems : list NexusAsset.t) (sent : list Request) (unread : list Exchange)
| FetchFailed (msg : string) (sent : list Request) (unread : list Exchange)
| Unanswered (sent : list Request).

Definition build_request (registry : Registry.t) (apiURL continuationToken : string)
  : Request :=
  {| RequestURL :=
       if negb (String.eqb continuationToken "")
       then apiURL +:+ "&continuationToken=" +:+ QueryEscape continuationToken
       else apiURL;
     BasicAuth :=
       if negb (String.eqb (Registry.Username registry) "")
          && negb (String.eqb (Registry.Password registry) "")
       then Some (Registry.Username registry, Registry.Password registry)
       else None |}.

(** The [for { ... }] loop of [GetAvailableVersions]: one iteration per
    exchange with the world. *)
Fixpoint fetch_pages (registry : Registry.t) (repoPath apiURL : string)
  (world : list Exchange) (continuationToken : string)
  (allItems : list NexusAsset.t) (sent : list Request) : Fetch :=
  match world with
  | [] => Unanswered sent
  | exchange :: world' =>
      let req := build_request registry apiURL continuationToken in
      match exchange with
      | RequestInvalid err =>
          FetchFailed ("failed to create HTTP request: " +:+ err) sent world'
      | TransportFailure err =>
          FetchFailed ("failed to query Nexus API: " +:+ err) (sent ++ [req]) world'
      | Reply status body =>
          if negb (status =? StatusOK)%Z then
            FetchFailed ("nexus API returned " +:+ itoa status
                         +:+ ": Check if the path " +:+ repoPath
                         +:+ " exists in Nexus") (sent ++ [req]) world'
          else
            match body with
            | Malformed err =>
                FetchFailed ("failed to decode JSON response: " +:+ err)
                  (sent ++ [req]) world'
            | Listing items token =>
                let allItems' := allItems ++ items in
                if negb (String.eqb token "")
                then fetch_pages registry repoPath apiURL world' token allItems'
                       (sent ++ [req])
                else Fetched allItems' (sent ++ [req]) world'
            end
      end
  end.

(** The normalised path prefix. *)
Definition path_prefix (distributionPath : string) : string :=
  let pathPrefix := "/" +:+ TrimPrefix distributionPath "/" in
  if negb (HasSuffix pathPrefix "/") then pathPrefix +:+ "/" else pathPrefix.

(** The variables the item loop updates. *)
Record Scan := {
  sdkAssets : list SDKAsset.t;
  ignoredFiles : list string;
  seenVersions : gmap string bool
}.

Definition scan_start : Scan :=
  {| sdkAssets := []; ignoredFiles := []; seenVersions := ∅ |}.

(** [seenVersions[v]]: a missing key reads as [false]. *)
Definition seen (m : gmap string bool) (v : string) : bool :=
  default false (m !! v).

Definition ignore_file (st : Scan) (path : string) : Scan :=
  {| sdkAssets := sdkAssets st;
     ignoredFiles := ignoredFiles st ++ [path];
     seenVersions := seenVersions st |}.

(** The test that sends an item to [ignoredFiles] before extraction. *)
Definition outside_prefix (distributionPath pathPrefix : string)
  (item : NexusAsset.t) : bool :=
  negb (String.eqb distributionPath "")
  && negb (HasPrefix (NexusAsset.Path item) pathPrefix).

Section Client.
Context `{RegexpEngine}.

(** [NexusClient]. *)
Record NexusClient := { parser : Parser }.

(** The body of [for _, item := range allItems]. *)
Definition scan_item (c : NexusClient) (repo : SDKRepository.t)
  (pathPrefix : string) (st : Scan) (item : NexusAsset.t) : Scan :=
  if outside_prefix (SDKRepository.Path repo) pathPrefix item
  then ignore_file st (NexusAsset.Path item)
  else
    match ExtractVersionByType (parser c) (NexusAsset.Path item)
            (SDKRepository.Type_ repo) with
    | Err _ => ignore_file st (NexusAsset.Path item)
    | Ok (versionName, patternName) =>
        if negb (seen (seenVersions st) versionName) then
          {| sdkAssets :=
               sdkAssets st ++
               [ {| SDKAsset.Version := versionName;
                    SDKAsset.DownloadUrl := NexusAsset.DownloadUrl item;
                    SDKAsset.Filename := versionName;
                    SDKAsset.Size := 0 |} ];
             ignoredFiles := ignoredFiles st;
             seenVersions := <[versionName := true]> (seenVersions st) |}
        else st
    end.

Definition scan_items (c : NexusClient) (repo : SDKRepository.t)
  (allItems : list NexusAsset.t) : Scan :=
  fold_left (scan_item c repo (path_prefix (SDKRepository.Path repo)))
    allItems scan_start.

(** The optional version filter. *)
Definition filter_versions (versionFilter : string) (assets : list SDKAsset.t)
  : list SDKAsset.t :=
  if negb (String.eqb versionFilter "")
  then List.filter (fun asset => Contains (SDKAsset.Version asset) versionFilter)
         assets
  else assets.

(** [sort.Slice] as an insertion sort; [less a b] says that [a] goes
    before [b].  The library's algorithm is not stable, but the versions
    sorted here are pairwise distinct, and then every sorting procedure
    returns the same list. *)
Fixpoint sort_insert {A} (less : A -> A -> bool) (x : A) (l : list A) : list A :=
  match l with
  | [] => [x]
  | y :: l' => if less y x then y :: sort_insert less x l' else x :: l
  end.

Definition sort_slice {A} (less : A -> A -> bool) (l : list A) : list A :=
  fold_right (sort_insert less) [] l.

(** [sdkAssets[i].Version > sdkAssets[j].Version]. *)
Definition version_desc (a b : SDKAsset.t) : bool :=
  str_lt (SDKAsset.Version b) (SDKAsset.Version a).

(** Everything after the pagination loop. *)
Definition resolve (c : NexusClient) (repo : SDKRepository.t)
  (versionFilter : string) (allItems : list NexusAsset.t)
  : Outcome (list SDKAsset.t) :=
  let assets := filter_versions versionFilter (sdkAssets (scan_items c repo allItems)) in
  if (length assets =? 0)%nat then
    if negb (String.eqb versionFilter "")
    then Err ("no version " +:+ versionFilter +:+ " found for "
              +:+ SDKRepository.Path repo)
    else Err ("no versions found for " +:+ SDKRepository.Path repo)
  else Ok (sort_slice version_desc assets).

(** The pagination loop as [GetAvailableVersions] starts it. *)
Definition fetch_all (repo : SDKRepository.t) (registry : Registry.t)
  (world : list Exchange) : Fetch :=
  fetch_pages registry (SDKRepository.Path repo)
    (ReplaceAll (Registry.APIURL registry) "{repository}"
       (SDKRepository.Repository repo))
    world "" [] [].

(** [NexusClient.GetAvailableVersions] against a world that answers the
    successive requests with [world]; [None] when the call never
    returns. *)
Definition GetAvailableVersions (c : NexusClient) (repo : SDKRepository.t)
  (registry : Registry.t) (versionFilter : string) (world : list Exchange)
  : option (Outcome (list SDKAsset.t)) :=
  match fetch_all repo registry world with
  | Fetched allItems _ _ => Some (resolve c repo versionFilter allItems)
  | FetchFailed msg _ _ => Some (Err msg)
  | Unanswered _ => None
  end.

End Client.

End Nexus.

(* ===================================================================== *)
(** ** The design document's wording, as definitions                      *)
(* ===================================================================== *)

(** These follow the prose of the design document, not the code; the
    theorems below compare them with the code. *)
Module Design.

(** *** The comparator *)

(** "rewriting [u] and [_] separators to [.]" *)
Fixpoint rewrite_separators (v : string) : string :=
  match v with
  | EmptyString => EmptyString
  | String c rest =>
      String (if Ascii.eqb c "u" || Ascii.eqb c "_" then "."%char else c)
        (rewrite_separators rest)
  end.

Definition parts (v : string) : list string := Split (rewrite_separators v) ".".

(** "numeric parts compare numerically, non-numeric parts compare
    lexicographically (mixed comparisons fall back to lexicographic)";
    a part is numeric when [strconv.Atoi] accepts it. *)
Definition compare_part (p1 p2 : string) : comparison :=
  match Atoi p1, Atoi p2 with
  | Some n1, Some n2 => Z.compare n1 n2
  | _, _ => String.compare p1 p2
  end.

(** "The first part where the two differ determines the result." *)
Fixpoint first_difference (ps1 ps2 : list string) : comparison :=
  match ps1, ps2 with
  | p1 :: ps1', p2 :: ps2' =>
      match compare_part p1 p2 with
      | Eq => first_difference ps1' ps2'
      | decided => decided
      end
  | _, _ => Eq
  end.

(** "If all compared parts are equal and one version has fewer parts
    than the other, the shorter one is considered older."  [verdict]
    takes the part counts apart from the parts still to compare. *)
Definition verdict (ps1 ps2 : list string) (len1 len2 : nat) : bool :=
  match first_difference ps1 ps2 with
  | Lt => true
  | Gt => false
  | Eq => (len1 <? len2)%nat
  end.

Definition CompareVersions (v1 v2 : string) : bool :=
  verdict (parts v1) (parts v2) (length (parts v1)) (length (parts v2)).

(** *** The major version *)

(** A non-empty run of leading digits followed by the byte [sep]. *)
Definition digits_before (sep : ascii) (s : string) : option string :=
  match take_while is_digit s, drop_while is_digit s with
  | String _ _ as digits, String c _ => if Ascii.eqb c sep then Some digits else None
  | _, _ => None
  end.

(** "a leading integer followed by a dot-separated continuation" or
    "followed by a [u] separator": the two separator checks, in order. *)
Definition leading_integer (s : string) : option string :=
  match digits_before "." s with
  | Some digits => Some digits
  | None => digits_before "u" s
  end.

Definition is_separator (c : ascii) : bool := Ascii.eqb c "." || Ascii.eqb c "u".

(** "strip any purely alphabetic/[-]/[_] prefix" *)
Definition strip_prefix (s : string) : string :=
  TrimLeft s Version.letters_dash_underscore.

(** "If neither matches, strip ... and retry the same two separator
    checks on the remainder." *)
Definition ExtractMajor_retry (version : string) : string :=
  match leading_integer version with
  | Some digits => digits
  | None =>
      match leading_integer (strip_prefix version) with
      | Some digits => digits
      | None => EmptyString
      end
  end.

Fixpoint has_separator (s : string) : bool :=
  match s with
  | String c rest => is_separator c || has_separator rest
  | EmptyString => false
  end.

(** The text before the first [.] or [u]. *)
Fixpoint before_separator (s : string) : string :=
  match s with
  | String c rest => if is_separator c then EmptyString else String c (before_separator rest)
  | EmptyString => EmptyString
  end.

(** What the fallback does with the stripped remainder: nothing without
    a separator, otherwise the text before the first separator provided
    [strconv.Atoi] accepts it. *)
Definition major_of_remainder (clean : string) : string :=
  if has_separator clean then
    match Atoi (before_separator clean) with
    | Some _ => before_separator clean
    | None => EmptyString
    end
  else EmptyString.

(** *** First match wins *)

Fixpoint first_some {A B} (f : A -> option B) (l : list A) : option B :=
  match l with
  | [] => None
  | x :: l' => match f x with Some y => Some y | None => first_some f l' end
  end.

(** The (pattern name, regex) pairs of a table, "in the stored order",
    restricted to the PatternSets that pass [keep]. *)
Definition regex_pairs (keep : Pattern -> bool) (table : list Pattern)
  : list (string * string) :=
  flat_map (fun p => if keep p then map (fun r => (Name p, r)) (Patterns p) else [])
    table.

Section FirstMatch.
Context `{RegexpEngine}.

(** The first capture group of a regex that compiles and matches. *)
Definition first_capture (path : string) (pr : string * string)
  : option (string * string) :=
  match Compile pr.2 with
  | Some re =>
      match FindStringSubmatch re path with
      | _ :: version :: _ => Some (version, pr.1)
      | _ => None
      end
  | None => None
  end.

(** "produces a non-empty first capture group" *)
Definition nonempty_first_capture (path : string) (pr : string * string)
  : option (string * string) :=
  match first_capture path pr with
  | Some (version, name) =>
      if String.eqb version "" then None else Some (version, name)
  | None => None
  end.

(** "The first regex across the first matching PatternSet that produces
    a non-empty first capture group wins." *)
Definition first_nonempty_match (keep : Pattern -> bool) (table : list Pattern)
  (path : string) : option (string * string) :=
  first_some (nonempty_first_capture path) (regex_pairs keep table).

(** The same without the demand that the capture be non-empty. *)
Definition first_match (keep : Pattern -> bool) (table : list Pattern)
  (path : string) : option (string * string) :=
  first_some (first_capture path) (regex_pairs keep table).

(** Whether one PatternSet matches a path, and with what. *)
Definition pattern_match (path : string) (p : Pattern) : option (string * string) :=
  first_some (first_capture path) (map (fun r => (Name p, r)) (Patterns p)).

(** A table "with the malformed regex removed". *)
Definition compiles (regexStr : string) : bool :=
  match Compile regexStr with Some _ => true | None => false end.

Definition drop_malformed (p : Pattern) : Pattern :=
  {| Name := Name p; Type_ := Type_ p; Description := Description p;
     Patterns := List.filter compiles (Patterns p) |}.

(** A PatternSet with its regex list replaced. *)
Definition with_regexes (p : Pattern) (regexes : list string) : Pattern :=
  {| Name := Name p; Type_ := Type_ p; Description := Description p;
     Patterns := regexes |}.

End FirstMatch.

(** *** Example tables *)

Definition jdk_pattern (name : string) (regexes : list string) : Pattern :=
  {| Name := name; Type_ := "jdk"; Description := ""; Patterns := regexes |}.

(** A PatternSet whose group may capture nothing, before one whose
    group cannot. *)
Definition loose_then_strict : Parser :=
  {| patterns := [ jdk_pattern "loose" ["jdk-(\d*)"];
                   jdk_pattern "strict" ["jdk-(\w+)"] ] |}.

(** Three PatternSets that all match a Temurin file name. *)
Definition three_matching : Parser :=
  {| patterns := [ jdk_pattern "major" ["jdk-(\d+)"];
                   jdk_pattern "full" ["jdk-(\d+\.\d+\.\d+_\d+)"];
                   jdk_pattern "minor" ["jdk-(\d+\.\d+)"] ] |}.

(** The patterns the repository falls back on when no patterns file is
    found ([getMinimalDefaultPatterns]). *)
Definition minimal_default_patterns : Parser :=
  {| patterns :=
       [ {| Name := "temurin"; Type_ := "jdk";
            Description := "Eclipse Temurin (AdoptOpenJDK)";
            Patterns :=
              [ "(?i)jdk-(\d+\.\d+\.\d+_\d+)";
                "(?i)OpenJDK\d+U-jdk_x64_linux_hotspot_(\d+\.\d+\.\d+_\d+)" ] |};
         {| Name := "corretto"; Type_ := "jdk";
            Description := "Amazon Corretto";
            Patterns :=
              [ "(?i)corretto-(\d+\.\d+\.\d+\.\d+(?:\.\d+)?)";
                "(?i)amazon-corretto-(\d+\.\d+\.\d+\.\d+(?:\.\d+)?)" ] |};
         {| Name := "generic-version"; Type_ := "*";
            Description := "Generic semantic versioning";
            Patterns := [ "(\d+\.\d+\.\d+)" ] |} ] |}.

(** A Node.js PatternSet before a JDK one. *)
Definition node_then_jdk : Parser :=
  {| patterns := [ {| Name := "nodejs"; Type_ := "node"; Description := "";
                      Patterns := ["node-v(\d+\.\d+\.\d+)"] |};
                   jdk_pattern "t" ["jdk-(\d+\.\d+\.\d+_\d+)"] ] |}.

(** Scenario A's table, and the same with a regex that does not compile
    put first. *)
Definition scenario_a : Parser :=
  {| patterns := [ jdk_pattern "t" ["jdk-(\d+\.\d+\.\d+_\d+)"] ] |}.

Definition scenario_a_malformed : Parser :=
  {| patterns := [ jdk_pattern "t" ["jdk-(\d+"; "jdk-(\d+\.\d+\.\d+_\d+)"] ] |}.

(** *** The path prefix *)

(** "normalize [pathPrefix] to start with [/] and end with [/]" *)
Definition normalize_prefix (path : string) : string :=
  let lead := if HasPrefix path "/" then path else "/" +:+ path in
  if HasSuffix lead "/" then lead else lead +:+ "/".

(** *** Pagination *)

(** A listing page: its items and its continuation token. *)
Definition Page : Type := list NexusAsset.t * string.

(** The world answering with a page: status 200 and a body that
    decodes. *)
Definition page_reply (pg : Page) : Nexus.Exchange :=
  Nexus.Reply Nexus.StatusOK (Nexus.Listing pg.1 pg.2).

(** "starting with no continuation token": the first request, then one
    request per page that carried a token, with that token. *)
Definition page_requests (registry : Registry.t) (apiURL : string)
  (pages : list Page) : list Nexus.Request :=
  Nexus.build_request registry apiURL ""
    :: map (fun pg : Page => Nexus.build_request registry apiURL pg.2) pages.

(** "accumulate every item from every page" *)
Definition all_items (pages : list Page) (last : list NexusAsset.t)
  : list NexusAsset.t :=
  concat (map fst pages) ++ last.

(** *** Deduplication *)

Section Resolver.
Context `{RegexpEngine}.

(** The version an item yields, if it passes the prefix filter and the
    extractor finds one. *)
Definition extracted_version (c : Nexus.NexusClient) (repo : SDKRepository.t)
  (item : NexusAsset.t) : option string :=
  if Nexus.outside_prefix (SDKRepository.Path repo)
       (Nexus.path_prefix (SDKRepository.Path repo)) item
  then None
  else
    match ExtractVersionByType (Nexus.parser c) (NexusAsset.Path item)
            (SDKRepository.Type_ repo) with
    | Ok (versionName, _) => Some versionName
    | Err _ => None
    end.

Definition yields (c : Nexus.NexusClient) (repo : SDKRepository.t)
  (v : string) (item : NexusAsset.t) : bool :=
  match extracted_version c repo item with
  | Some v' => String.eqb v' v
  | None => false
  end.

(** "the first item to produce a given version string" *)
Definition first_source (c : Nexus.NexusClient) (repo : SDKRepository.t)
  (allItems : list NexusAsset.t) (v : string) : option NexusAsset.t :=
  List.find (yields c repo v) allItems.

(** What holds of the loop variables once [items] have been scanned:
    the seen set is the set of asset versions, no version occurs twice,
    every asset was built from the first item that yields its version,
    and every version some item yields has its asset. *)
Record scan_inv (c : Nexus.NexusClient) (repo : SDKRepository.t)
  (items : list NexusAsset.t) (st : Nexus.Scan) : Prop := {
  inv_seen : forall v,
    Nexus.seen (Nexus.seenVersions st) v = true
    <-> v ∈ SDKAsset.Version <$> Nexus.sdkAssets st;
  inv_nodup : NoDup (SDKAsset.Version <$> Nexus.sdkAssets st);
  inv_source : forall a, a ∈ Nexus.sdkAssets st ->
    exists item,
      first_source c repo items (SDKAsset.Version a) = Some item
      /\ a = {| SDKAsset.Version := SDKAsset.Version a;
                SDKAsset.DownloadUrl := NexusAsset.DownloadUrl item;
                SDKAsset.Filename := SDKAsset.Version a;
                SDKAsset.Size := 0 |};
  inv_all : forall item v, item ∈ items ->
    extracted_version c repo item = Some v ->
    v ∈ SDKAsset.Version <$> Nexus.sdkAssets st
}.

End Resolver.

(** Two states of the item loop that differ at most in [ignoredFiles]. *)
Definition same_assets (st1 st2 : Nexus.Scan) : Prop :=
  Nexus.sdkAssets st1 = Nexus.sdkAssets st2
  /\ Nexus.seenVersions st1 = Nexus.seenVersions st2.

(** The order [sort.Slice] is asked for: an asset goes before another
    when its version is the greater string. *)
Definition goes_before (a b : SDKAsset.t) : Prop := Nexus.version_desc a b = true.

(** "retain only items whose path has this exact normalized prefix" *)
Definition has_prefix (pathPrefix : string) (item : NexusAsset.t) : bool :=
  HasPrefix (NexusAsset.Path item) pathPrefix.

(** The asset built for a version from the item that produced it. *)
Definition asset_of (v : string) (item : NexusAsset.t) : SDKAsset.t :=
  {| SDKAsset.Version := v;
     SDKAsset.DownloadUrl := NexusAsset.DownloadUrl item;
     SDKAsset.Filename := v;
     SDKAsset.Size := 0 |}.

(** *** Example listings *)

Definition item (path : string) : NexusAsset.t :=
  {| NexusAsset.Path := path;
     NexusAsset.DownloadUrl := "http://nexus.example.com/repository/raw" +:+ path;
     NexusAsset.Checksum := ∅ |}.

Definition temurin_repo : SDKRepository.t :=
  {| SDKRepository.Type_ := "jdk"; SDKRepository.Registry := "nexus";
     SDKRepository.Repository := "raw"; SDKRepository.Path := "jdk/temurin" |}.

Definition nexus_registry : Registry.t :=
  {| Registry.Type_ := "nexus";
     Registry.APIURL := "http://nexus.example.com/service/rest/v1/assets?repository={repository}";
     Registry.Username := ""; Registry.Password := "" |}.

Definition temurin_client : Nexus.NexusClient :=
  {| Nexus.parser := scenario_a |}.

(** Scenario F: a first page with a continuation token, a second one
    without.  The listing also holds a checksum file that yields the
    version of the archive before it (scenario D) and an item of a
    sibling distribution (scenario E). *)
Definition page_one : Page :=
  ([ item "/jdk/temurin/jdk-11.0.24_8-linux.tar.gz";
     item "/jdk/temurin/jdk-11.0.24_8-linux.tar.gz.sha256";
     item "/jdk/temurin-nightly/jdk-23.0.1_1-linux.tar.gz" ],
   "token 1").

Definition page_two : list NexusAsset.t :=
  [ item "/jdk/temurin/jdk-17.0.15_6-linux.tar.gz";
    item "/jdk/temurin/README.txt" ].

Definition two_pages : list Nexus.Exchange :=
  [ page_reply page_one; Nexus.Reply Nexus.StatusOK (Nexus.Listing page_two "") ].

(** What [GetAvailableVersions] returns for [two_pages] without a
    version filter. *)
Definition two_pages_assets : list SDKAsset.t :=
  [ asset_of "17.0.15_6" (item "/jdk/temurin/jdk-17.0.15_6-linux.tar.gz");
    asset_of "11.0.24_8" (item "/jdk/temurin/jdk-11.0.24_8-linux.tar.gz") ].

(** "no versions found for <prefix>" or "no version <filter> found" *)
Definition empty_result_message (versionFilter path : string) : string :=
  if negb (String.eqb versionFilter "")
  then "no version " +:+ versionFilter +:+ " found for " +:+ path
  else "no versions found for " +:+ path.

End Design.

(* ===================================================================== *)
(** ** The rest of package [version]: the table's other operations       *)
(* ===================================================================== *)

(** [Parser.GetPatternsByType]: the PatternSets of a type, wildcard
    ones included, in table order. *)
Definition GetPatternsByType (p : Parser) (sdkType : string) : list Pattern :=
  List.filter
    (fun pattern => String.eqb (Type_ pattern) sdkType || String.eqb (Type_ pattern) "*")
    (patterns p).

(** [Parser.GetPatternByName]: the first PatternSet of that name, [None]
    for the nil pointer. *)
Definition GetPatternByName (p : Parser) (name : string) : option Pattern :=
  List.find (fun pattern => String.eqb (Name pattern) name) (patterns p).

(** [Parser.ListAllPatterns]. *)
Definition ListAllPatterns (p : Parser) : list Pattern := patterns p.

(** Loading a table.  The file system and the TOML decoder are outside
    the program: [ReadFile] is [os.ReadFile] and [Unmarshal] is
    [toml.Unmarshal] into a [PatternConfig], both with their error. *)
Section Loader.
Variable ReadFile : string -> Outcome string.
Variable Unmarshal : string -> Outcome (list Pattern).

(** [NewParser]. *)
Definition NewParser (patternsPath : string) : Outcome Parser :=
  if String.eqb patternsPath "" then
    Err "patterns file path not configured. Please set 'patterns_file' in strigo.toml, use --patterns flag, or set STRIGO_PATTERNS_PATH environment variable"
  else
    match ReadFile patternsPath with
    | Err err =>
        Err ("failed to read patterns file " +:+ patternsPath +:+ ": " +:+ err
             +:+ String (ascii_of_N 10)
                   "💡 Hint: Create this file with patterns from the documentation or copy strigopatterns.toml from the Strigo repository")
    | Ok file =>
        match Unmarshal file with
        | Err err => Err ("failed to parse patterns file: " +:+ err)
        | Ok loaded => Ok {| patterns := loaded |}
        end
    end.

(** [NewParserWithCustomPatterns]: the custom PatternSets are put before
    the loaded ones. *)
Definition NewParserWithCustomPatterns (patternsPath : string)
  (customPatterns : list Pattern) : Outcome Parser :=
  match NewParser patternsPath with
  | Err err => Err err
  | Ok parser => Ok {| patterns := customPatterns ++ patterns parser |}
  end.

End Loader.

(* ===================================================================== *)
(** ** The rest of package [repository]: the client and the fetcher      *)
(* ===================================================================== *)

(** Package [logging] as the code uses it: a call
    [logging.LogOutput(format, args...)] or
    [logging.LogError(format, args...)] is recorded with its format and
    its arguments, an [error] argument by its message.  The calls of
    [LogOutput] and those of [LogError] are kept in lists of their own;
    calls of [LogDebug] and [LogInfo] are not recorded. *)
Module Logging.

Inductive Arg :=
| AString (s : string)
| AInt (n : Z).

Record Call := {
  format : string;
  args : list Arg
}.

Definition LogOutput (format : string) (args : list Arg) : Call :=
  {| format := format; args := args |}.

Definition LogError (format : string) (args : list Arg) : Call :=
  {| format := format; args := args |}.

End Logging.

(** An optional argument of [FetchAvailableVersions], whose parameter is
    [opts ...interface{}]: a bool, a string, or a value of another type. *)
Inductive Opt :=
| OptBool (b : bool)
| OptString (s : string)
| OptOther.

Module Repository.

Section Fetcher.
Context `{RegexpEngine}.
Variable ReadFile : string -> Outcome string.
Variable Unmarshal : string -> Outcome (list Pattern).

(** [NewNexusClientWithConfig]. *)
Definition NewNexusClientWithConfig (patternsFilePath : string)
  : Outcome Nexus.NexusClient :=
  match NewParser ReadFile Unmarshal patternsFilePath with
  | Err err => Err ("failed to initialize version parser: " +:+ err)
  | Ok parser => Ok {| Nexus.parser := parser |}
  end.

(** [NewNexusClient]. *)
Definition NewNexusClient : Outcome Nexus.NexusClient :=
  NewNexusClientWithConfig "".

(** What a call of [FetchAvailableVersions] does: the value it returns
    and, when it calls [displayVersions], the assets it displays. *)
Record Fetched := {
  returned : Outcome (list SDKAsset.t);
  displayed : option (list SDKAsset.t)
}.

(** [opts[0].(bool)] when present and a bool, else [false]. *)
Definition json_output (opts : list Opt) : bool :=
  match opts with
  | OptBool b :: _ => b
  | _ => false
  end.

(** [opts[1].(string)] when present and a string, else [""]. *)
Definition patterns_file_path (opts : list Opt) : string :=
  match opts with
  | _ :: OptString s :: _ => s
  | _ => ""
  end.

(** [FetchAvailableVersions]; [None] when the call never returns. *)
Definition FetchAvailableVersions (repo : SDKRepository.t) (registry : Registry.t)
  (versionFilter : string) (opts : list Opt) (world : list Nexus.Exchange)
  : option Fetched :=
  let jsonOutput := json_output opts in
  let patternsFilePath := patterns_file_path opts in
  if String.eqb (Registry.Type_ registry) "nexus" then
    match NewNexusClientWithConfig patternsFilePath with
    | Err err =>
        Some {| returned := Err ("failed to initialize Nexus client: " +:+ err);
                displayed := None |}
    | Ok client =>
        match Nexus.GetAvailableVersions client repo registry versionFilter world with
        | None => None
        | Some (Err err) => Some {| returned := Err err; displayed := None |}
        | Some (Ok assets) =>
            Some {| returned := Ok assets;
                    displayed := if negb jsonOutput then Some assets else None |}
        end
    end
  else
    Some {| returned := Err ("unsupported repository type: "
                             +:+ Registry.Type_ registry);
            displayed := None |}.

(** The calls of [LogError] a call of [FetchAvailableVersions] makes:
    one when the client cannot be built, one when the registry type is
    not supported; [GetAvailableVersions] makes none. *)
Definition FetchAvailableVersions_errors (registry : Registry.t) (opts : list Opt)
  : list Logging.Call :=
  if String.eqb (Registry.Type_ registry) "nexus" then
    match NewNexusClientWithConfig (patterns_file_path opts) with
    | Err err =>
        [ Logging.LogError "❌ Failed to initialize Nexus client: %v"
            [Logging.AString err] ]
    | Ok _ => []
    end
  else
    [ Logging.LogError "❌ Unsupported repository type: %s"
        [Logging.AString (Registry.Type_ registry)] ].

End Fetcher.

(** [ExtractMajorVersion] of package [repository]: ["unknown"] stands
    for an empty major version. *)
Definition ExtractMajorVersion (versionStr : string) : option string :=
  match Version.ExtractMajor versionStr with
  | None => None
  | Some result => if String.eqb result "" then Some "unknown" else Some result
  end.

(** [CompareVersions] of package [repository]. *)
Definition CompareVersions (v1 v2 : string) : option bool :=
  Version.CompareVersions v1 v2.

(** *** [displayVersions]

    [sortSlice] is [sort.Slice] of the standard library, given the
    [less] of the call on the elements; [None] stands for a panic. *)
Section Display.
Variable sortSlice : forall A : Type, (A -> A -> option bool) -> list A -> option (list A).

(** The loop [for _, asset := range assets]: every version is appended
    to the group of its major version. *)
Fixpoint group_versions (assets : list SDKAsset.t)
  (versionGroups : gmap string (list string)) : option (gmap string (list string)) :=
  match assets with
  | [] => Some versionGroups
  | asset :: rest =>
      match ExtractMajorVersion (SDKAsset.Version asset) with
      | None => None
      | Some majorVersion =>
          group_versions rest
            (<[majorVersion := default [] (versionGroups !! majorVersion)
                               ++ [SDKAsset.Version asset]]> versionGroups)
      end
  end.

(** The loop [for major := range versionGroups] followed by
    [sort.Ints]: the keys [strconv.Atoi] accepts, as numbers in
    ascending order.  The order in which the keys are visited does not
    show in the sorted slice. *)
Definition sorted_majors (majors : list string) : list Z :=
  Nexus.sort_slice Z.ltb (omap Atoi majors).

(** The loop [for _, majorNum := range majorVersions], with the call
    that prints the heading of a group and the calls that follow its
    versions.  [sort.Slice] sorts the slice the map holds, in place. *)
Fixpoint display_groups (heading : Z -> Logging.Call) (footer : list Logging.Call)
  (majorVersions : list Z) (versionGroups : gmap string (list string))
  : option (list Logging.Call) :=
  match majorVersions with
  | [] => Some []
  | majorNum :: rest =>
      let major := Nexus.itoa majorNum in
      let versions := default [] (versionGroups !! major) in
      match sortSlice string CompareVersions versions with
      | None => None
      | Some versions =>
          match display_groups heading footer rest
                  (alter (fun _ => versions) major versionGroups) with
          | None => None
          | Some calls =>
              Some (heading majorNum
                    :: map (fun version =>
                              Logging.LogOutput "    ✅ %s" [Logging.AString version])
                         versions
                    ++ footer ++ calls)
          end
      end
  end.

(** [displayVersions]: the calls of [LogOutput] it makes. *)
Definition displayVersions (assets : list SDKAsset.t) : option (list Logging.Call) :=
  match group_versions assets ∅ with
  | None => None
  | Some versionGroups =>
      let majorVersions := sorted_majors (map fst (map_to_list versionGroups)) in
      match display_groups
              (fun majorNum =>
                 Logging.LogOutput "  - %s:" [Logging.AString (Nexus.itoa majorNum)])
              [] majorVersions versionGroups with
      | None => None
      | Some calls =>
          Some (Logging.LogOutput "🔹 Available versions:" []
                :: calls
                ++ [ Logging.LogOutput
                       (String (ascii_of_N 10) "💡 To install a specific version:") [];
                     Logging.LogOutput "   strigo install jdk [distribution] [version]" [] ])
      end
  end.

(** The calls of [LogOutput] a call of [FetchAvailableVersions] makes. *)
Definition printed (fetched : Fetched) : option (list Logging.Call) :=
  match displayed fetched with
  | Some assets => displayVersions assets
  | None => Some []
  end.

End Display.

End Repository.

(* ===================================================================== *)
(** ** Predicates the further properties are stated with                  *)
(* ===================================================================== *)

Module Props.

(** Two parts no comparison tells apart: the same text, or two texts
    [strconv.Atoi] reads as the same number. *)
Definition same_part (p1 p2 : string) : Prop :=
  p1 = p2 \/ exists n, Atoi p1 = Some n /\ Atoi p2 = Some n.

(** Two versions neither of which is older: as many parts, pairwise
    indistinguishable. *)
Definition same_age (v1 v2 : string) : Prop :=
  Forall2 same_part (Version.version_parts v1) (Version.version_parts v2).

(** A version all of whose parts [strconv.Atoi] accepts. *)
Definition numeric (v : string) : bool :=
  forallb (fun part => match Atoi part with Some _ => true | None => false end)
    (Version.version_parts v).

Fixpoint all_bytes (f : ascii -> bool) (s : string) : bool :=
  match s with
  | EmptyString => true
  | String c rest => f c && all_bytes f rest
  end.

(** A non-empty run of decimal digits. *)
Definition digit_string (s : string) : Prop :=
  s <> "" /\ all_bytes is_digit s = true.

(** The bytes [url.QueryEscape] lets through or produces. *)
Definition query_safe (c : ascii) : bool :=
  Nexus.unreserved c || Ascii.eqb c "+" || Ascii.eqb c "%".

(** An exchange after which the pagination loop goes on: a reply with
    status 200 whose body decodes and carries a continuation token. *)
Definition more_pages (exchange : Nexus.Exchange) : bool :=
  match exchange with
  | Nexus.Reply status (Nexus.Listing _ token) =>
      (status =? Nexus.StatusOK)%Z && negb (String.eqb token "")
  | _ => false
  end.

(** The error a failing exchange makes [GetAvailableVersions] return;
    [None] for an exchange that is a page. *)
Definition exchange_error (repoPath : string) (exchange : Nexus.Exchange)
  : option string :=
  match exchange with
  | Nexus.RequestInvalid err => Some ("failed to create HTTP request: " +:+ err)
  | Nexus.TransportFailure err => Some ("failed to query Nexus API: " +:+ err)
  | Nexus.Reply status body =>
      if negb (status =? Nexus.StatusOK)%Z then
        Some ("nexus API returned " +:+ Nexus.itoa status +:+ ": Check if the path "
              +:+ repoPath +:+ " exists in Nexus")
      else
        match body with
        | Nexus.Malformed err => Some ("failed to decode JSON response: " +:+ err)
        | Nexus.Listing _ _ => None
        end
  end.

(** The requests a run of the pagination loop issued. *)
Definition requests_of (f : Nexus.Fetch) : list Nexus.Request :=
  match f with
  | Nexus.Fetched _ sent _ => sent
  | Nexus.FetchFailed _ sent _ => sent
  | Nexus.Unanswered sent => sent
  end.


End Props.

(* ===================================================================== *)
(** ** Package [cmd]: choosing the asset to install                       *)
(* ===================================================================== *)

Module SDKType.
Record t := {
  Type_ : string;
  InstallDir : string
}.
End SDKType.

(** [Config]: the three tables the command handlers look things up in
    ([General] holds paths and switches of the file-system steps). *)
Module Config.
Record t := {
  Registries : gmap string Registry.t;
  SDKTypes : gmap string SDKType.t;
  SDKRepositories : gmap string SDKRepository.t
}.
End Config.

Module Cmd.

Section Install.
Context `{RegexpEngine}.
Variable ReadFile : string -> Outcome string.
Variable Unmarshal : string -> Outcome (list Pattern).

(** The loop [for i := range assets] of [handleInstall]: the first asset
    whose version is exactly the one asked for. *)
Definition matched_asset (assets : list SDKAsset.t) (version : string)
  : option SDKAsset.t :=
  List.find (fun asset => String.eqb (SDKAsset.Version asset) version) assets.

(** [handleInstall] up to the choice of the asset to download; what
    follows in the source works on the file system.  [patternsFilePath]
    is the patterns path the handler passes on, [None] stands for a call
    that never returns. *)
Definition handleInstall_asset (cfg : Config.t) (patternsFilePath : string)
  (sdkType distribution version : string) (world : list Nexus.Exchange)
  : option (Outcome SDKAsset.t) :=
  match Config.SDKTypes cfg !! sdkType with
  | None => Some (Err ("SDK type " +:+ sdkType +:+ " not found"))
  | Some sdkTypeConfig =>
      match Config.SDKRepositories cfg !! distribution with
      | None => Some (Err ("distribution " +:+ distribution +:+ " not found"))
      | Some sdkRepo =>
          if negb (String.eqb (SDKRepository.Type_ sdkRepo)
                     (SDKType.Type_ sdkTypeConfig))
          then Some (Err ("distribution " +:+ distribution +:+ " is not of type "
                          +:+ sdkType))
          else
            match Config.Registries cfg !! SDKRepository.Registry sdkRepo with
            | None =>
                Some (Err ("registry " +:+ SDKRepository.Registry sdkRepo
                           +:+ " not found"))
            | Some registry =>
                match Repository.FetchAvailableVersions ReadFile Unmarshal
                        sdkRepo registry version
                        [OptBool true; OptString patternsFilePath] world with
                | None => None
                | Some fetched =>
                    match Repository.returned fetched with
                    | Err err => Some (Err ("failed to fetch versions: " +:+ err))
                    | Ok assets =>
                        match matched_asset assets version with
                        | None => Some (Err ("version " +:+ version +:+ " not found"))
                        | Some asset => Some (Ok asset)
                        end
                    end
                end
            end
      end
  end.

End Install.

(** *** [strigo available]

    [cfg] is the package's configuration, [nil] before it is loaded. *)

(** [AvailableOutput]. *)
Record AvailableOutput := {
  Types : list string;
  Distributions : list string;
  Versions : list SDKAsset.t;
  Error : string
}.

(** [getValidSDKTypes]: the keys of [cfg.SDKTypes] after
    [sort.Strings]. *)
Definition getValidSDKTypes (cfg : option Config.t) : list string :=
  match cfg with
  | None => []
  | Some cfg => Nexus.sort_slice str_lt (map fst (map_to_list (Config.SDKTypes cfg)))
  end.

(** [getValidDistributions]: the names of the repositories of the type,
    after [sort.Strings]. *)
Definition getValidDistributions (cfg : option Config.t) (sdkType : string)
  : list string :=
  match cfg with
  | None => []
  | Some cfg =>
      Nexus.sort_slice str_lt
        (map fst
           (List.filter
              (fun entry : string * SDKRepository.t =>
                 String.eqb (SDKRepository.Type_ entry.2) sdkType)
              (map_to_list (Config.SDKRepositories cfg))))
  end.

(** [contains]. *)
Fixpoint contains (slice : list string) (str : string) : bool :=
  match slice with
  | [] => false
  | s :: rest => if String.eqb s str then true else contains rest str
  end.

(** [ExtractMajorVersion] of package [cmd]: the result of
    [version.ExtractMajor]. *)
Definition ExtractMajorVersion (versionStr : string) : option string :=
  Version.ExtractMajor versionStr.

(** [GetPatternsFilePath]: the [--patterns] flag, else the environment
    variable [STRIGO_PATTERNS_PATH], else [patterns_file] of the
    configuration. *)
Definition GetPatternsFilePath (patternsFile envPath configured : string) : string :=
  if negb (String.eqb patternsFile "") then patternsFile
  else if negb (String.eqb envPath "") then envPath
  else configured.

(** [joinInts]. *)
Definition joinInts (numbers : list Z) : string :=
  String.concat ", " (map Nexus.itoa numbers).

Section Available.
Context `{RegexpEngine}.
Variable ReadFile : string -> Outcome string.
Variable Unmarshal : string -> Outcome (list Pattern).
Variable sortSlice : forall A : Type, (A -> A -> option bool) -> list A -> option (list A).

(** The first loop of [displayVersions]: a version with a major version
    is appended to the group of that major version, which is recorded. *)
Fixpoint group_versions (versions : list SDKAsset.t)
  (versionGroups : gmap string (list string)) (allMajorVersions : gset string)
  : option (gmap string (list string) * gset string) :=
  match versions with
  | [] => Some (versionGroups, allMajorVersions)
  | asset :: rest =>
      match ExtractMajorVersion (SDKAsset.Version asset) with
      | None => None
      | Some majorVersion =>
          if negb (String.eqb majorVersion "") then
            group_versions rest
              (<[majorVersion := default [] (versionGroups !! majorVersion)
                                 ++ [SDKAsset.Version asset]]> versionGroups)
              ({[ majorVersion ]} ∪ allMajorVersions)
          else group_versions rest versionGroups allMajorVersions
      end
  end.

(** [displayVersions] of package [cmd]: the calls of [LogOutput] it
    makes. *)
Definition displayVersions (versions : list SDKAsset.t) (sdkType distribution : string)
  : option (list Logging.Call) :=
  match group_versions versions ∅ ∅ with
  | None => None
  | Some (versionGroups, allMajorVersions) =>
      let majorVersions :=
        Repository.sorted_majors (map fst (map_to_list versionGroups)) in
      let opening :=
        [ Logging.LogOutput "🔹 Available versions:" [];
          Logging.LogOutput "─────────────────────────" [] ] in
      if (length majorVersions =? 0)%nat then
        let availableMajors := Repository.sorted_majors (elements allMajorVersions) in
        let majorStrings := map Nexus.itoa availableMajors in
        Some (opening
              ++ [ Logging.LogOutput "❌ No major version found matching your criteria" [];
                   Logging.LogOutput "" [];
                   Logging.LogOutput "💡 Available major versions are: %s"
                     [Logging.AString (String.concat ", " majorStrings)] ])
      else
        match Repository.display_groups sortSlice
                (fun majorNum => Logging.LogOutput "-%d :" [Logging.AInt majorNum])
                [Logging.LogOutput "" []] majorVersions versionGroups with
        | None => None
        | Some calls =>
            Some (opening ++ calls
                  ++ [ Logging.LogOutput "💡 To install a specific version:" [];
                       Logging.LogOutput
                         ("   strigo install " +:+ sdkType +:+ " " +:+ distribution
                          +:+ " [version]") [] ])
        end
  end.

(** The loop of [handleFullCommand] that collects the major versions. *)
Fixpoint collect_majors (versions : list SDKAsset.t) (allMajorVersions : gset string)
  : option (gset string) :=
  match versions with
  | [] => Some allMajorVersions
  | v :: rest =>
      match ExtractMajorVersion (SDKAsset.Version v) with
      | None => None
      | Some majorVersion =>
          collect_majors rest
            (if negb (String.eqb majorVersion "")
             then {[ majorVersion ]} ∪ allMajorVersions
             else allMajorVersions)
      end
  end.

(** The loop of [handleFullCommand] that keeps the versions whose major
    version is the filter. *)
Fixpoint filter_major (versions : list SDKAsset.t) (versionFilter : string)
  : option (list SDKAsset.t) :=
  match versions with
  | [] => Some []
  | v :: rest =>
      match ExtractMajorVersion (SDKAsset.Version v) with
      | None => None
      | Some majorVersion =>
          match filter_major rest versionFilter with
          | None => None
          | Some filteredVersions =>
              Some (if String.eqb majorVersion versionFilter
                    then v :: filteredVersions else filteredVersions)
          end
      end
  end.

(** What a call of [handleFullCommand] leaves: the output record and
    the calls of [LogOutput] made (those of [LogError] are
    [handleFullCommand_errors]).  The value returned is [nil] on every
    path. *)
Record Ran := {
  output : AvailableOutput;
  printed : list Logging.Call
}.

(** [handleFullCommand]; [patternsFilePath] is what
    [GetPatternsFilePath()] returns, [None] stands for a panic or a call
    that never returns. *)
Definition handleFullCommand (cfg : Config.t) (patternsFilePath : string)
  (sdkType distribution versionFilter : string) (out : AvailableOutput)
  (world : list Nexus.Exchange) : option Ran :=
  match Config.SDKRepositories cfg !! distribution with
  | None => Some {| output := out; printed := [] |}
  | Some sdkRepo =>
      match Config.Registries cfg !! SDKRepository.Registry sdkRepo with
      | None => Some {| output := out; printed := [] |}
      | Some registry =>
          match Repository.FetchAvailableVersions ReadFile Unmarshal sdkRepo registry ""
                  [OptBool true; OptString patternsFilePath] world with
          | None => None
          | Some fetched =>
              match Repository.printed sortSlice fetched with
              | None => None
              | Some shown =>
                  match Repository.returned fetched with
                  | Err _ => Some {| output := out; printed := shown |}
                  | Ok versions =>
                      match collect_majors versions ∅ with
                      | None => None
                      | Some allMajorVersions =>
                          let availableMajors :=
                            Repository.sorted_majors (elements allMajorVersions) in
                          let filtered :=
                            if negb (String.eqb versionFilter "")
                            then filter_major versions versionFilter
                            else Some versions in
                          match filtered with
                          | None => None
                          | Some versions =>
                              if negb (String.eqb versionFilter "")
                                 && (length versions =? 0)%nat
                              then
                                Some {| output := out;
                                        printed :=
                                          shown
                                          ++ [ Logging.LogOutput
                                                 "❌ No version found matching major version %s"
                                                 [Logging.AString versionFilter];
                                               Logging.LogOutput "" [];
                                               Logging.LogOutput
                                                 "💡 Available major versions are: %s"
                                                 [Logging.AString (joinInts availableMajors)] ] |}
                              else
                                match sortSlice SDKAsset.t
                                        (fun a b =>
                                           Repository.CompareVersions (SDKAsset.Version a)
                                             (SDKAsset.Version b))
                                        versions with
                                | None => None
                                | Some versions =>
                                    match displayVersions versions sdkType distribution with
                                    | None => None
                                    | Some calls =>
                                        Some {| output :=
                                                  {| Types := Types out;
                                                     Distributions := Distributions out;
                                                     Versions := versions;
                                                     Error := Error out |};
                                                printed := shown ++ calls |}
                                    end
                                end
                          end
                      end
                  end
              end
          end
      end
  end.

(** The calls of [LogError] a call of [handleFullCommand] makes, those
    of [FetchAvailableVersions] included: each of the three early
    returns logs its error, and nothing after them calls [LogError].
    [None] when [FetchAvailableVersions] never returns. *)
Definition handleFullCommand_errors (cfg : Config.t) (patternsFilePath : string)
  (distribution : string) (world : list Nexus.Exchange) : option (list Logging.Call) :=
  match Config.SDKRepositories cfg !! distribution with
  | None =>
      Some [ Logging.LogError "❌ %v"
               [Logging.AString ("distribution " +:+ distribution
                                 +:+ " not found in configuration")] ]
  | Some sdkRepo =>
      match Config.Registries cfg !! SDKRepository.Registry sdkRepo with
      | None =>
          Some [ Logging.LogError "❌ %v"
                   [Logging.AString ("registry " +:+ SDKRepository.Registry sdkRepo
                                     +:+ " not found in configuration")] ]
      | Some registry =>
          let opts := [OptBool true; OptString patternsFilePath] in
          match Repository.FetchAvailableVersions ReadFile Unmarshal sdkRepo registry ""
                  opts world with
          | None => None
          | Some fetched =>
              Some (Repository.FetchAvailableVersions_errors ReadFile Unmarshal
                      registry opts
                    ++ match Repository.returned fetched with
                       | Err err => [Logging.LogError "❌ %v" [Logging.AString err]]
                       | Ok _ => []
                       end)
          end
      end
  end.

End Available.

End Cmd.

(** *** What a listing shows *)

Module Listing.

(** The call that prints a version of a group. *)
Definition entry (version : string) : Logging.Call :=
  Logging.LogOutput "    ✅ %s" [Logging.AString version].

(** The call that announces the major versions there are. *)
Definition announcement (majors : string) : Logging.Call :=
  Logging.LogOutput "💡 Available major versions are: %s" [Logging.AString majors].

(** A version whose major version, as [major_of] finds it, is the text
    [strconv.Itoa] writes for some [int]. *)
Definition canonical_major (major_of : string -> option string) (version : string)
  : Prop :=
  exists n, (min_int <= n <= max_int)%Z /\ major_of version = Some (Nexus.itoa n).

(** An asset whose major version is [major]. *)
Definition has_major (major : string) (asset : SDKAsset.t) : bool :=
  match Cmd.ExtractMajorVersion (SDKAsset.Version asset) with
  | Some majorVersion => String.eqb majorVersion major
  | None => false
  end.

(** The numbers [strconv.Atoi] reads from the major versions of a list
    of assets. *)
Definition major_number (versions : list SDKAsset.t) (n : Z) : Prop :=
  exists asset major,
    asset ∈ versions
    /\ Cmd.ExtractMajorVersion (SDKAsset.Version asset) = Some major
    /\ Atoi major = Some n.

(** What [sort.Slice] guarantees whatever [less] is: it returns the
    elements it was given, and it panics only when [less] does. *)
Definition sorts (sortSlice : forall A : Type,
                    (A -> A -> option bool) -> list A -> option (list A)) : Prop :=
  (forall A less l sorted, sortSlice A less l = Some sorted -> sorted ≡ₚ l)
  /\ (forall A (less : A -> A -> option bool) l,
        (forall a b, a ∈ l -> b ∈ l -> is_Some (less a b)) ->
        is_Some (sortSlice A less l)).

End Listing.

(** *** Example configuration *)

Module Examples.

(** A file system with one patterns file, and a decoder that reads it as
    the repository's fallback patterns. *)
Definition read_file (path : string) : Outcome string :=
  if String.eqb path "strigopatterns.toml" then Ok "[[patterns]]"
  else Err ("open " +:+ path +:+ ": no such file or directory").

Definition unmarshal (file : string) : Outcome (list Pattern) :=
  if String.eqb file "[[patterns]]" then Ok (patterns Design.minimal_default_patterns)
  else Err "toml: cannot parse".

Definition config : Config.t :=
  {| Config.Registries := {[ "nexus" := Design.nexus_registry ]};
     Config.SDKTypes := {[ "jdk" := {| SDKType.Type_ := "jdk"; SDKType.InstallDir := "jdks" |} ]};
     Config.SDKRepositories := {[ "temurin" := Design.temurin_repo ]} |}.

(** A custom PatternSet for early-access builds. *)
Definition custom_patterns : list Pattern :=
  [ Design.jdk_pattern "early-access" ["jdk-(\d+)-ea"] ].

(** A table of two PatternSets with different names and types. *)
Definition named_table : Parser :=
  {| patterns := [ Design.jdk_pattern "t" ["jdk-(\d+\.\d+\.\d+_\d+)"];
                   {| Name := "nodejs"; Type_ := "node"; Description := "";
                      Patterns := ["node-v(\d+\.\d+\.\d+)"] |} ] |}.

(** A repository without a path: nothing is filtered by prefix. *)
Definition whole_repo : SDKRepository.t :=
  {| SDKRepository.Type_ := "jdk"; SDKRepository.Registry := "nexus";
     SDKRepository.Repository := "raw"; SDKRepository.Path := "" |}.

(** The client the fetcher builds from the example patterns file. *)
Definition client : Nexus.NexusClient :=
  {| Nexus.parser := Design.minimal_default_patterns |}.

(** [sort.Slice] as an insertion sort that stops at the first
    comparison that panics. *)
Fixpoint insert_sorted {A : Type} (less : A -> A -> option bool) (x : A) (l : list A)
  : option (list A) :=
  match l with
  | [] => Some [x]
  | y :: l' =>
      match less y x with
      | None => None
      | Some true =>
          match insert_sorted less x l' with
          | None => None
          | Some inserted => Some (y :: inserted)
          end
      | Some false => Some (x :: l)
      end
  end.

Fixpoint insertion_sort (A : Type) (less : A -> A -> option bool) (l : list A)
  : option (list A) :=
  match l with
  | [] => Some []
  | x :: l' =>
      match insertion_sort A less l' with
      | None => None
      | Some sorted => insert_sorted less x sorted
      end
  end.

(** A listing with a build that has no separator, hence no major
    version, and one whose major version carries a sign. *)
Definition mixed_assets : list SDKAsset.t :=
  [ Design.asset_of "21.0.6_7" (Design.item "/jdk/temurin/jdk-21.0.6_7.tar.gz");
    Design.asset_of "21" (Design.item "/jdk/temurin/jdk-21.tar.gz");
    Design.asset_of "11.0.26_4" (Design.item "/jdk/temurin/jdk-11.0.26_4.tar.gz");
    Design.asset_of "+17.0.1" (Design.item "/jdk/temurin/jdk-+17.0.1.tar.gz");
    Design.asset_of "21.0.5_11" (Design.item "/jdk/temurin/jdk-21.0.5_11.tar.gz") ].

End Examples.

(* ===================================================================== *)
(** ** Facts about the string functions                                   *)
(* ===================================================================== *)

Section StringFacts.

Lemma append_String (c : ascii) (s t : string) :
  String c s +:+ t = String c (s +:+ t).
Proof. reflexivity. Qed.

Lemma append_nil_l (s : string) : "" +:+ s = s.
Proof. reflexivity. Qed.

Lemma append_nil_r (s : string) : s +:+ "" = s.
Proof.
  induction s as [|c s IH]; [reflexivity |].
  now rewrite append_String, IH.
Qed.

Lemma append_assoc (s1 s2 s3 : string) : (s1 +:+ s2) +:+ s3 = s1 +:+ s2 +:+ s3.
Proof.
  induction s1 as [|c s1 IH]; [reflexivity |].
  now rewrite !append_String, IH.
Qed.

Lemma length_append (s1 s2 : string) :
  String.length (s1 +:+ s2) = (String.length s1 + String.length s2)%nat.
Proof.
  induction s1 as [|c s1 IH]; [reflexivity |].
  rewrite append_String; simpl; now rewrite IH.
Qed.

Lemma prefix_append (p s : string) : String.prefix p (p +:+ s) = true.
Proof.
  induction p as [|c p IH].
  - now destruct s.
  - rewrite append_String; simpl.
    destruct (ascii_dec c c); [exact IH | contradiction].
Qed.

Lemma prefix_true_inv (p s : string) :
  String.prefix p s = true -> exists t, s = p +:+ t.
Proof.
  revert s; induction p as [|c p IH]; intros s Hp.
  - exists s; reflexivity.
  - destruct s as [|d s]; simpl in Hp; [discriminate |].
    destruct (ascii_dec c d) as [->|]; [| discriminate].
    destruct (IH _ Hp) as [t ->]. exists t; reflexivity.
Qed.

Lemma substring_all (s : string) : String.substring 0 (String.length s) s = s.
Proof. induction s as [|c s IH]; simpl; [reflexivity | now rewrite IH]. Qed.

Lemma substring_prefix (s t : string) :
  String.substring 0 (String.length s) (s +:+ t) = s.
Proof.
  induction s as [|c s IH].
  - now destruct t.
  - rewrite append_String; simpl; now rewrite IH.
Qed.

End StringFacts.

(* ===================================================================== *)
(** ** The comparator against the design document                         *)
(* ===================================================================== *)

Section ComparatorFacts.

Lemma replace_twice_is_rewrite (v : string) :
  Replace (Replace v "u" ".") "_" "." = Design.rewrite_separators v.
Proof.
  induction v as [|c v IH]; simpl; [reflexivity |].
  rewrite IH. f_equal.
  destruct (Ascii.eqb_spec c "u") as [->|Hu]; [reflexivity |].
  simpl. reflexivity.
Qed.

Lemma version_parts_design (v : string) : Version.version_parts v = Design.parts v.
Proof. unfold Version.version_parts, Design.parts. now rewrite replace_twice_is_rewrite. Qed.

Lemma Split_nonempty (s : string) (sep : ascii) : Split s sep <> [].
Proof.
  destruct s as [|c s]; simpl; [discriminate |].
  destruct (Ascii.eqb c sep); [discriminate |].
  destruct (Split s sep); discriminate.
Qed.

Lemma str_lt_compare (p1 p2 : string) :
  str_lt p1 p2 = match String.compare p1 p2 with Lt => true | _ => false end.
Proof. reflexivity. Qed.

Lemma str_lt_compare_flip (p1 p2 : string) :
  str_lt p2 p1 = match String.compare p1 p2 with Gt => true | _ => false end.
Proof.
  rewrite str_lt_compare, (String.compare_antisym p1 p2).
  now destruct (String.compare p2 p1).
Qed.

Lemma first_difference_nil_r (ps : list string) : Design.first_difference ps [] = Eq.
Proof. now destruct ps. Qed.

(** The index loop visits the positions the design's recursion visits. *)
Lemma compare_loop_design (l1 l2 : list string) (remaining i : nat) :
  (i + remaining)%nat = Nat.min (length l1) (length l2) ->
  Version.compare_loop l1 l2 i remaining
  = Some (Design.verdict (drop i l1) (drop i l2) (length l1) (length l2)).
Proof.
  revert i; induction remaining as [|n IH]; intros i Hi; simpl.
  - unfold Design.verdict.
    assert (Hend : drop i l1 = [] \/ drop i l2 = []).
    { destruct (Nat.min_spec (length l1) (length l2)) as [[_ Hm]|[_ Hm]];
        [left | right]; apply drop_ge; lia. }
    destruct Hend as [-> | ->]; [reflexivity |].
    now rewrite first_difference_nil_r.
  - destruct (lookup_lt_is_Some_2 l1 i) as [p1 Hp1]; [lia |].
    destruct (lookup_lt_is_Some_2 l2 i) as [p2 Hp2]; [lia |].
    rewrite Hp1, Hp2.
    rewrite (drop_S _ _ _ Hp1), (drop_S _ _ _ Hp2).
    unfold Design.verdict; simpl. unfold Design.compare_part.
    specialize (IH (S i) ltac:(lia)). unfold Design.verdict in IH.
    destruct (Atoi p1) as [n1|]; [destruct (Atoi p2) as [n2|] |].
    + unfold Z.ltb, Z.gtb. destruct (n1 ?= n2)%Z; [exact IH | reflexivity | reflexivity].
    + rewrite str_lt_compare, str_lt_compare_flip.
      destruct (String.compare p1 p2); [exact IH | reflexivity | reflexivity].
    + rewrite str_lt_compare, str_lt_compare_flip.
      destruct (String.compare p1 p2); [exact IH | reflexivity | reflexivity].
Qed.

Lemma CompareVersions_design (v1 v2 : string) :
  Version.CompareVersions v1 v2 = Some (Design.CompareVersions v1 v2).
Proof.
  unfold Version.CompareVersions, Design.CompareVersions.
  rewrite !version_parts_design.
  rewrite compare_loop_design.
  - reflexivity.
  - destruct (Nat.ltb_spec (length (Design.parts v2)) (length (Design.parts v1))); lia.
Qed.

Lemma compare_part_antisym (p1 p2 : string) :
  Design.compare_part p1 p2 = CompOpp (Design.compare_part p2 p1).
Proof.
  unfold Design.compare_part.
  destruct (Atoi p1), (Atoi p2);
    first [apply Z.compare_antisym | apply String.compare_antisym].
Qed.

Lemma first_difference_antisym (ps1 ps2 : list string) :
  Design.first_difference ps1 ps2 = CompOpp (Design.first_difference ps2 ps1).
Proof.
  revert ps2; induction ps1 as [|p1 ps1 IH]; intros [|p2 ps2]; simpl; try reflexivity.
  rewrite (compare_part_antisym p1 p2).
  destruct (Design.compare_part p2 p1); simpl; [apply IH | reflexivity | reflexivity].
Qed.

Lemma Design_CompareVersions_asym (x y : string) :
  Design.CompareVersions x y = true -> Design.CompareVersions y x = false.
Proof.
  unfold Design.CompareVersions, Design.verdict.
  rewrite (first_difference_antisym (Design.parts y) (Design.parts x)).
  destruct (Design.first_difference (Design.parts x) (Design.parts y)); simpl;
    try congruence.
  intros Hlt%Nat.ltb_lt. apply Nat.ltb_ge. lia.
Qed.

End ComparatorFacts.


(** C6. For distinct version strings [x] and [y], [CompareVersions x y]
    and [CompareVersions y x] are not both true. *)
Theorem C6_CompareVersions_asymmetric (x y : string) :
  x <> y ->
  ~ (Version.CompareVersions x y = Some true
     /\ Version.CompareVersions y x = Some true).
Proof.
  intros _ [Hxy Hyx].
  rewrite CompareVersions_design in Hxy, Hyx.
  injection Hxy as Hxy. injection Hyx as Hyx.
  apply Design_CompareVersions_asym in Hxy. congruence.
Qed.

Lemma C6_CompareVersions_asymmetric_witness :
  "21.0.6" <> "21.0.6_7"
  /\ ~ (Version.CompareVersions "21.0.6" "21.0.6_7" = Some true
        /\ Version.CompareVersions "21.0.6_7" "21.0.6" = Some true).
Proof.
  split; [discriminate |].
  apply (C6_CompareVersions_asymmetric "21.0.6" "21.0.6_7"). discriminate.
Defined.

(* ===================================================================== *)
(** ** The matcher on the two patterns of [ExtractMajor]                  *)
(* ===================================================================== *)

Section MajorPatternFacts.
Import GoRegexp.


(** A greedy star over a byte class, followed by something that cannot
    start with a byte of the class, takes the whole run. *)
Lemma iterate_greedy (cls : CharClass) step (k : Cont) :
  byte_step cls step ->
  (forall p c0 s c, class_matches cls c0 = true -> k p (String c0 s) c = None) ->
  forall rest fuel pos caps,
    (String.length rest <= fuel)%nat ->
    iterate step k fuel pos rest caps
    = k (pos + String.length (take_while (class_matches cls) rest))%nat
        (drop_while (class_matches cls) rest) caps.
Proof.
  intros Hstep Hk rest; induction rest as [|c0 rest IH]; intros fuel pos caps Hfuel.
  - cbn [take_while drop_while String.length]. rewrite Nat.add_0_r.
    destruct fuel; cbn [iterate]; [reflexivity |]. now rewrite Hstep.
  - destruct fuel as [|fuel]; [simpl in Hfuel; lia |].
    cbn [iterate take_while drop_while]. rewrite Hstep.
    destruct (class_matches cls c0) eqn:Hc.
    + assert (Hlt : (pos <? S pos)%nat = true) by (apply Nat.ltb_lt; lia).
      rewrite Hlt, IH by (simpl in Hfuel; lia).
      rewrite (Hk pos c0 rest caps Hc).
      cbn [String.length].
      replace (pos + S (String.length (take_while (class_matches cls) rest)))%nat
        with (S pos + String.length (take_while (class_matches cls) rest))%nat by lia.
      now destruct (k _ _ _).
    + cbn [String.length]. now rewrite Nat.add_0_r.
Qed.

(** A star over a byte class followed by acceptance always succeeds and
    leaves the captures alone. *)
Lemma iterate_accepts (cls : CharClass) step (k : Cont) :
  byte_step cls step ->
  (forall p s c, k p s c = Some (p, c)) ->
  forall fuel pos rest caps,
    exists e, iterate step k fuel pos rest caps = Some (e, caps).
Proof.
  intros Hstep Hk fuel; induction fuel as [|fuel IH]; intros pos rest caps; cbn [iterate].
  - rewrite Hk. eauto.
  - rewrite Hstep.
    destruct rest as [|c0 rest]; [rewrite Hk; eauto |].
    destruct (class_matches cls c0); [| rewrite Hk; eauto].
    assert (Hlt : (pos <? S pos)%nat = true) by (apply Nat.ltb_lt; lia).
    rewrite Hlt. destruct (IH (S pos) rest caps) as [e ->]. eauto.
Qed.

Lemma digit_is_not (sep c0 : ascii) :
  is_digit sep = false -> is_digit c0 = true -> Ascii.eqb c0 sep = false.
Proof.
  intros Hsep Hc0. destruct (Ascii.eqb_spec c0 sep) as [->|]; congruence.
Qed.

Lemma take_drop_while (f : ascii -> bool) (s : string) :
  take_while f s +:+ drop_while f s = s.
Proof.
  induction s as [|c s IH]; [reflexivity |]; simpl.
  destruct (f c); [| reflexivity].
  now rewrite append_String, IH.
Qed.

Lemma substring_take_while (f : ascii -> bool) (s : string) :
  String.substring 0 (String.length (take_while f s)) s = take_while f s.
Proof.
  rewrite <- (take_drop_while f s) at 2. apply substring_prefix.
Qed.

Lemma run_pattern_syntax (sep : ascii) (v : string) :
  is_digit sep = false ->
  match Design.digits_before sep v with
  | Some digits =>
      exists e, run (Version.pattern_syntax sep) 0 v [] accept = Some (e, [(1%nat, digits)])
  | None => run (Version.pattern_syntax sep) 0 v [] accept = None
  end.
Proof.
  intros Hsep. unfold Design.digits_before.
  destruct v as [|c0 v]; [reflexivity |].
  cbn [take_while drop_while].
  destruct (is_digit c0) eqn:Hc0; cbn [run Version.pattern_syntax Nat.eqb class_matches];
    rewrite Hc0; [| reflexivity].
  rewrite (iterate_greedy CDigit); [| intros p r c k0; reflexivity | | lia].
  2:{ intros p c1 s c Hc1. cbn [class_matches] in Hc1.
      now rewrite (digit_is_not sep c1 Hsep Hc1). }
  change (class_matches CDigit) with is_digit.
  rewrite Nat.sub_0_r. cbn [Nat.add String.substring]. rewrite substring_take_while.
  destruct (drop_while is_digit v) as [|c1 rest]; [reflexivity |].
  destruct (Ascii.eqb c1 sep); [| reflexivity].
  apply (iterate_accepts CAnyNotNL); [intros p r c k0 | intros p s c]; reflexivity.
Qed.

Lemma search_anchored (sep : ascii) (rest : string) (pos : nat) :
  (0 < pos)%nat -> search (Version.pattern_syntax sep) pos rest = None.
Proof.
  revert pos; induction rest as [|c rest IH]; intros pos Hpos;
    destruct pos as [|pos]; try lia; cbn; [reflexivity |].
  apply IH; lia.
Qed.

Lemma find_pattern_syntax (sep : ascii) (v : string) :
  is_digit sep = false ->
  match Design.digits_before sep v with
  | Some digits =>
      exists whole,
        find_string_submatch {| prog_syntax := Version.pattern_syntax sep; NumSubexp := 1 |} v
        = [whole; digits]
  | None =>
      find_string_submatch {| prog_syntax := Version.pattern_syntax sep; NumSubexp := 1 |} v
      = []
  end.
Proof.
  intros Hsep. pose proof (run_pattern_syntax sep v Hsep) as Hrun.
  unfold find_string_submatch. cbn [prog_syntax NumSubexp].
  destruct (Design.digits_before sep v) as [digits|].
  - destruct Hrun as [e He].
    destruct v as [|c v]; cbn [search]; rewrite He; eexists; cbn; reflexivity.
  - destruct v as [|c v]; cbn [search]; rewrite Hrun; [reflexivity |].
    now rewrite search_anchored by lia.
Qed.

Lemma patterns_compile :
  compile "^(\d+)\..*" = Some {| prog_syntax := Version.pattern_syntax "."; NumSubexp := 1 |}
  /\ compile "^(\d+)u.*" = Some {| prog_syntax := Version.pattern_syntax "u"; NumSubexp := 1 |}.
Proof. split; reflexivity. Qed.

Lemma first_submatch_patterns (v : string) :
  Version.first_submatch Version.patterns v = Some (Design.leading_integer v).
Proof.
  unfold Version.patterns, Design.leading_integer. cbn [Version.first_submatch].
  destruct patterns_compile as [-> ->].
  pose proof (find_pattern_syntax "." v eq_refl) as Hdot.
  pose proof (find_pattern_syntax "u" v eq_refl) as Hu.
  destruct (Design.digits_before "." v) as [d|].
  - destruct Hdot as [whole ->]. reflexivity.
  - rewrite Hdot. destruct (Design.digits_before "u" v) as [d|].
    + destruct Hu as [whole ->]. reflexivity.
    + now rewrite Hu.
Qed.

End MajorPatternFacts.

(* ===================================================================== *)
(** ** [ExtractMajor]                                                     *)
(* ===================================================================== *)

Section ExtractMajorFacts.

Lemma prefix_nil (s : string) : String.prefix "" s = true.
Proof. now destruct s. Qed.

Lemma Contains_byte_cons (c d : ascii) (s : string) :
  Contains (String d s) (String c "") = Ascii.eqb d c || Contains s (String c "").
Proof.
  cbn [Contains String.prefix].
  destruct (ascii_dec c d) as [->|Hne].
  - now rewrite prefix_nil, Ascii.eqb_refl.
  - destruct (Ascii.eqb_spec d c) as [->|]; [contradiction | reflexivity].
Qed.

Lemma no_separator_Contains (s : string) :
  negb (Contains s ".") && negb (Contains s "u") = negb (Design.has_separator s).
Proof.
  induction s as [|d s IH]; [reflexivity |].
  rewrite !Contains_byte_cons. cbn [Design.has_separator]. unfold Design.is_separator.
  rewrite !negb_orb, <- IH.
  destruct (Ascii.eqb d "."), (Ascii.eqb d "u"),
    (Contains s "."), (Contains s "u"); reflexivity.
Qed.

Lemma Split_head (s : string) (sep : ascii) :
  exists pieces,
    Split s sep = take_while (fun c => negb (Ascii.eqb c sep)) s :: pieces.
Proof.
  induction s as [|c s [pieces IH]]; cbn [Split take_while]; [eauto |].
  destruct (Ascii.eqb c sep); cbn [negb]; [eauto |].
  rewrite IH. eauto.
Qed.

Lemma take_before_separator (s : string) :
  take_while (fun c => negb (Ascii.eqb c "u"))
    (take_while (fun c => negb (Ascii.eqb c ".")) s)
  = Design.before_separator s.
Proof.
  induction s as [|c s IH]; [reflexivity |].
  cbn [take_while Design.before_separator]. unfold Design.is_separator.
  destruct (Ascii.eqb c "."); cbn [negb orb take_while]; [reflexivity |].
  destruct (Ascii.eqb c "u"); cbn [negb]; [reflexivity |].
  now rewrite IH.
Qed.

(** What [ExtractMajor] computes, for every input. *)
Lemma ExtractMajor_equation (v : string) :
  Version.ExtractMajor v
  = Some match Design.leading_integer v with
         | Some digits => digits
         | None => Design.major_of_remainder (Design.strip_prefix v)
         end.
Proof.
  unfold Version.ExtractMajor.
  destruct (String.eqb_spec v "") as [->|_]; [reflexivity |].
  rewrite first_submatch_patterns.
  destruct (Design.leading_integer v) as [digits|]; [reflexivity |].
  fold (Design.strip_prefix v).
  rewrite no_separator_Contains. unfold Design.major_of_remainder.
  destruct (Design.has_separator (Design.strip_prefix v)); cbn [negb]; [| reflexivity].
  destruct (Split_head (Design.strip_prefix v) ".") as [pieces ->].
  destruct (Split_head (take_while (fun c => negb (Ascii.eqb c ".")) (Design.strip_prefix v)) "u")
    as [pieces' ->].
  rewrite take_before_separator.
  now destruct (Atoi _).
Qed.

Lemma digits_before_shape (sep : ascii) (s digits : string) :
  Design.digits_before sep s = Some digits ->
  exists d ds rest,
    digits = String d ds /\ is_digit d = true
    /\ s = digits +:+ String sep rest
    /\ take_while is_digit s = digits.
Proof.
  unfold Design.digits_before. intros Hd.
  pose proof (take_drop_while is_digit s) as Hs.
  destruct (take_while is_digit s) as [|d ds] eqn:Htake; [discriminate |].
  destruct (drop_while is_digit s) as [|c rest]; [discriminate |].
  destruct (Ascii.eqb_spec c sep) as [->|]; [| discriminate].
  injection Hd as <-. exists d, ds, rest. repeat split; try (symmetry; assumption).
  destruct s as [|c0 s]; cbn [take_while] in Htake; [discriminate |].
  destruct (is_digit c0) eqn:Hc0; [| discriminate].
  now injection Htake as <- _.
Qed.

Lemma leading_integer_shape (s digits : string) :
  Design.leading_integer s = Some digits ->
  exists d ds sep rest,
    digits = String d ds /\ is_digit d = true /\ Design.is_separator sep = true
    /\ s = digits +:+ String sep rest
    /\ take_while is_digit s = digits.
Proof.
  unfold Design.leading_integer. intros H.
  destruct (Design.digits_before "." s) as [d0|] eqn:Hdot.
  - injection H as ->.
    destruct (digits_before_shape _ _ _ Hdot) as (d & ds & rest & H1 & H2 & H3 & H4).
    exists d, ds, "."%char, rest. now repeat split.
  - destruct (digits_before_shape _ _ _ H) as (d & ds & rest & H1 & H2 & H3 & H4).
    exists d, ds, "u"%char, rest. now repeat split.
Qed.

Lemma digit_not_stripped (d : ascii) (s : string) :
  is_digit d = true -> Design.strip_prefix (String d s) = String d s.
Proof.
  intros Hd. unfold Design.strip_prefix. cbn [TrimLeft].
  assert (Hcut : in_cutset d Version.letters_dash_underscore = false).
  { unfold is_digit in Hd. apply andb_true_iff in Hd as [Hlo Hhi].
    apply N.leb_le in Hlo. apply N.leb_le in Hhi.
    unfold Version.letters_dash_underscore. cbn [in_cutset].
    repeat match goal with
    | |- context [Ascii.eqb d ?c] =>
        destruct (Ascii.eqb_spec d c) as [->|_]; [cbv in Hlo, Hhi; congruence |]
    end.
    reflexivity. }
  now rewrite Hcut.
Qed.

Lemma take_while_digits_before_separator (s : string) (sep : ascii) (rest : string) :
  Design.is_separator sep = true ->
  take_while is_digit (s +:+ String sep rest) = s ->
  Design.before_separator (s +:+ String sep rest) = s
  /\ Design.has_separator (s +:+ String sep rest) = true.
Proof.
  intros Hsep. induction s as [|c s IH]; intros Htake.
  - rewrite append_nil_l. cbn [Design.before_separator Design.has_separator].
    now rewrite Hsep.
  - rewrite append_String in *. cbn [take_while] in Htake.
    destruct (is_digit c) eqn:Hc; [| discriminate].
    injection Htake as Htake. destruct (IH Htake) as [IH1 IH2].
    cbn [Design.before_separator Design.has_separator].
    assert (Hns : Design.is_separator c = false).
    { unfold Design.is_separator.
      destruct (Ascii.eqb_spec c ".") as [->|_]; [discriminate |].
      destruct (Ascii.eqb_spec c "u") as [->|_]; [discriminate | reflexivity]. }
    rewrite Hns, IH1, IH2. now split.
Qed.

(** The retry of the two separator checks on the stripped remainder
    gives what [ExtractMajor] returns whenever [strconv.Atoi] accepts
    the digits it finds. *)
Lemma ExtractMajor_retry_agrees (v digits : string) :
  Design.leading_integer (Design.strip_prefix v) = Some digits ->
  Atoi digits <> None ->
  Version.ExtractMajor v = Some digits.
Proof.
  intros Hclean Hatoi. rewrite ExtractMajor_equation.
  destruct (Design.leading_integer v) as [d0|] eqn:Hv.
  - destruct (leading_integer_shape _ _ Hv) as (d & ds & sep & rest & -> & Hd & _ & Hs & _).
    rewrite Hs, append_String, (digit_not_stripped d _ Hd), <- append_String, <- Hs in Hclean.
    congruence.
  - destruct (leading_integer_shape _ _ Hclean)
      as (d & ds & sep & rest & Hdig & Hd & Hsep & Hs & Htake).
    unfold Design.major_of_remainder. rewrite Hs in *. 
    destruct (take_while_digits_before_separator digits sep rest Hsep Htake) as [-> ->].
    now destruct (Atoi digits).
Qed.

Lemma ExtractMajor_no_separator (v : string) :
  Design.has_separator (Design.strip_prefix v) = false ->
  Version.ExtractMajor v = Some "".
Proof.
  intros Hno. rewrite ExtractMajor_equation.
  destruct (Design.leading_integer v) as [d0|] eqn:Hv.
  - destruct (leading_integer_shape _ _ Hv)
      as (d & ds & sep & rest & Hdig & Hd & Hsep & Hs & Htake).
    rewrite Hs in Htake.
    destruct (take_while_digits_before_separator d0 sep rest Hsep Htake) as [_ Hhas].
    rewrite <- Hs in Hhas. rewrite Hdig in Hs. rewrite Hs, append_String in Hno.
    rewrite (digit_not_stripped d _ Hd), <- append_String, <- Hs in Hno. congruence.
  - unfold Design.major_of_remainder. now rewrite Hno.
Qed.

End ExtractMajorFacts.

(** C5, as stated, fails: after stripping, the fallback does not retry
    the two separator checks.  It keeps the text before the first
    separator whenever [strconv.Atoi] accepts it, so a sign is kept and
    digits that overflow [int] are dropped. *)
Lemma C5_retry_counterexample :
  Version.ExtractMajor "+17.0" = Some "+17"
  /\ Design.ExtractMajor_retry "+17.0" = ""
  /\ Version.ExtractMajor "jdk-99999999999999999999.0" = Some ""
  /\ Design.ExtractMajor_retry "jdk-99999999999999999999.0" = "99999999999999999999".
Proof. repeat split; vm_compute; reflexivity. Qed.

(** C5, amended.  [ExtractMajor] never panics.  It returns the leading
    digits when the input starts with digits followed by [.] or by [u].
    Otherwise it strips the leading letters, [-] and [_]; it returns the
    empty string whenever the remainder contains neither [.] nor [u];
    else it returns the text of the remainder before its first [.] or
    [u] when [strconv.Atoi] accepts that text and the empty string when
    it does not.  That is the result of retrying the two checks on the
    remainder whenever the digits found fit [int].  Concretely
    ["8u442b06"] gives ["8"], ["21"] gives [""] and [""] gives [""]. *)
Theorem C5_ExtractMajor_amended :
  (forall v : string,
     Version.ExtractMajor v
     = Some match Design.leading_integer v with
            | Some digits => digits
            | None => Design.major_of_remainder (Design.strip_prefix v)
            end)
  /\ (forall v : string,
        Design.has_separator (Design.strip_prefix v) = false ->
        Version.ExtractMajor v = Some "")
  /\ (forall v digits : string,
        Design.leading_integer (Design.strip_prefix v) = Some digits ->
        Atoi digits <> None ->
        Version.ExtractMajor v = Some digits)
  /\ Version.ExtractMajor "8u442b06" = Some "8"
  /\ Version.ExtractMajor "21" = Some ""
  /\ Version.ExtractMajor "" = Some "".
Proof.
  split; [exact ExtractMajor_equation |].
  split; [exact ExtractMajor_no_separator |].
  split; [exact ExtractMajor_retry_agrees |].
  repeat split; vm_compute; reflexivity.
Qed.

Lemma C5_ExtractMajor_amended_witness :
  Version.ExtractMajor "jdk-17.0.11" = Some "17"
  /\ Version.ExtractMajor "invalid" = Some "".
Proof.
  destruct C5_ExtractMajor_amended as (_ & Hnone & Hretry & _).
  split.
  - apply (Hretry "jdk-17.0.11" "17"); [vm_compute; reflexivity | vm_compute; discriminate].
  - apply (Hnone "invalid"). vm_compute; reflexivity.
Defined.

(* ===================================================================== *)
(** ** The extractor                                                      *)
(* ===================================================================== *)

Section ExtractorFacts.
Context `{RegexpEngine}.

Lemma first_some_app {A B} (f : A -> option B) (l1 l2 : list A) :
  Design.first_some f (l1 ++ l2)
  = match Design.first_some f l1 with
    | Some y => Some y
    | None => Design.first_some f l2
    end.
Proof.
  induction l1 as [|x l1 IH]; [reflexivity |]; simpl.
  now destruct (f x).
Qed.

Lemma try_regexes_first_capture (name : string) (regexes : list string) (path : string) :
  try_regexes name regexes path
  = Design.first_some (Design.first_capture path) (map (fun r => (name, r)) regexes).
Proof.
  induction regexes as [|r regexes IH]; [reflexivity |].
  cbn [try_regexes map Design.first_some]. unfold Design.first_capture at 1. cbn [snd fst].
  destruct (Compile r) as [re|]; [| exact IH].
  destruct (FindStringSubmatch re path) as [|whole [|version groups]]; auto.
Qed.

Lemma try_regexes_pattern_match (p : Pattern) (path : string) :
  try_regexes (Name p) (Patterns p) path = Design.pattern_match path p.
Proof. apply try_regexes_first_capture. Qed.

(** The two nested loops visit the (name, regex) pairs in table order
    and stop at the first regex that matches with a capture group. *)
Lemma try_patterns_first_match (keep : Pattern -> bool) (table : list Pattern)
  (path : string) :
  try_patterns keep table path = Design.first_match keep table path.
Proof.
  unfold Design.first_match, Design.regex_pairs.
  induction table as [|p table IH]; [reflexivity |].
  cbn [try_patterns flat_map]. rewrite first_some_app.
  destruct (keep p); cbn [Design.first_some].
  - rewrite try_regexes_first_capture.
    now destruct (Design.first_some _ (map _ (Patterns p))).
  - exact IH.
Qed.

Lemma try_patterns_app (keep : Pattern -> bool) (t1 t2 : list Pattern) (path : string) :
  try_patterns keep (t1 ++ t2) path
  = match try_patterns keep t1 path with
    | Some found => Some found
    | None => try_patterns keep t2 path
    end.
Proof.
  induction t1 as [|p t1 IH]; [reflexivity |].
  cbn [app try_patterns]. destruct (keep p); [| exact IH].
  now destruct (try_regexes (Name p) (Patterns p) path).
Qed.

(** Nothing after a PatternSet that matches is consulted. *)
Lemma try_patterns_cut (keep : Pattern -> bool) (pre post : list Pattern)
  (p1 : Pattern) (path : string) (found : string * string) :
  keep p1 = true ->
  Design.pattern_match path p1 = Some found ->
  try_patterns keep (pre ++ p1 :: post) path = try_patterns keep (pre ++ [p1]) path.
Proof.
  intros Hkeep Hmatch. rewrite !try_patterns_app.
  destruct (try_patterns keep pre path); [reflexivity |].
  cbn [try_patterns]. now rewrite Hkeep, try_regexes_pattern_match, Hmatch.
Qed.

Lemma try_patterns_none (keep : Pattern -> bool) (pre : list Pattern) (path : string) :
  (forall p0, p0 ∈ pre -> keep p0 = true -> Design.pattern_match path p0 = None) ->
  try_patterns keep pre path = None.
Proof.
  induction pre as [|p pre IH]; intros Hpre; [reflexivity |].
  cbn [try_patterns]. destruct (keep p) eqn:Hk.
  - rewrite try_regexes_pattern_match, (Hpre p) by (auto; left).
    apply IH. intros p0 Hin. apply Hpre. now right.
  - apply IH. intros p0 Hin. apply Hpre. now right.
Qed.

(** The earliest PatternSet that passes the filter and matches wins. *)
Lemma try_patterns_earliest (keep : Pattern -> bool) (pre post : list Pattern)
  (p1 : Pattern) (path : string) (found : string * string) :
  (forall p0, p0 ∈ pre -> keep p0 = true -> Design.pattern_match path p0 = None) ->
  keep p1 = true ->
  Design.pattern_match path p1 = Some found ->
  try_patterns keep (pre ++ p1 :: post) path = Some found.
Proof.
  intros Hpre Hkeep Hmatch.
  rewrite try_patterns_app, (try_patterns_none keep pre path Hpre).
  cbn [try_patterns]. now rewrite Hkeep, try_regexes_pattern_match, Hmatch.
Qed.

(** A regex that does not compile is as good as absent. *)
Lemma try_regexes_skip (name : string) (r1 r2 : list string) (bad path : string) :
  Compile bad = None ->
  try_regexes name (r1 ++ bad :: r2) path = try_regexes name (r1 ++ r2) path.
Proof.
  intros Hbad. induction r1 as [|r r1 IH]; cbn [app try_regexes].
  - now rewrite Hbad.
  - destruct (Compile r) as [re|]; [| exact IH].
    destruct (FindStringSubmatch re path) as [|whole [|version groups]]; auto.
Qed.

Lemma try_regexes_compiles (name : string) (regexes : list string) (path : string) :
  try_regexes name (List.filter Design.compiles regexes) path
  = try_regexes name regexes path.
Proof.
  induction regexes as [|r regexes IH]; [reflexivity |].
  cbn [List.filter try_regexes]. unfold Design.compiles at 1.
  destruct (Compile r) as [re|] eqn:Hr; [| exact IH].
  cbn [try_regexes]. rewrite Hr.
  destruct (FindStringSubmatch re path) as [|whole [|version groups]]; auto.
Qed.

Lemma try_patterns_skip (keep : Pattern -> bool) (keep_name_type :
    forall p regexes, keep (Design.with_regexes p regexes) = keep p)
  (t1 t2 : list Pattern) (p : Pattern) (r1 r2 : list string) (bad path : string) :
  Compile bad = None ->
  Patterns p = r1 ++ bad :: r2 ->
  try_patterns keep (t1 ++ p :: t2) path
  = try_patterns keep (t1 ++ Design.with_regexes p (r1 ++ r2) :: t2) path.
Proof.
  intros Hbad Hp. rewrite !try_patterns_app. cbn [try_patterns].
  rewrite keep_name_type. cbn [Design.with_regexes Name Patterns].
  now rewrite Hp, (try_regexes_skip _ _ _ _ _ Hbad).
Qed.

Lemma try_patterns_drop_malformed (keep : Pattern -> bool) (keep_name_type :
    forall p, keep (Design.drop_malformed p) = keep p)
  (table : list Pattern) (path : string) :
  try_patterns keep (map Design.drop_malformed table) path
  = try_patterns keep table path.
Proof.
  induction table as [|p table IH]; [reflexivity |].
  cbn [map try_patterns]. rewrite keep_name_type, IH.
  cbn [Design.drop_malformed Name Patterns]. now rewrite try_regexes_compiles.
Qed.

End ExtractorFacts.

(** C1, as stated, fails on two counts.  A regex that matches with an
    empty first capture group wins over a later regex whose group is not
    empty: the code tests [len(matches) > 1], not [matches[1] != ""].
    And when three PatternSets match, the second and third both match
    yet the result is the first one's. *)
Lemma C1_nonempty_capture_counterexample :
  @ExtractVersion GoRegexp.engine Design.loose_then_strict "/jdk/t/jdk-ea.tar.gz"
    = Ok ("", "loose")
  /\ @ExtractVersionByType GoRegexp.engine Design.loose_then_strict
       "/jdk/t/jdk-ea.tar.gz" "jdk" = Ok ("", "loose")
  /\ @Design.first_nonempty_match GoRegexp.engine (fun _ => true)
       (patterns Design.loose_then_strict) "/jdk/t/jdk-ea.tar.gz"
     = Some ("ea", "strict")
  /\ @ExtractVersion GoRegexp.engine Design.three_matching
       "/jdk/t/jdk-11.0.24_8-linux.tar.gz" = Ok ("11", "major")
  /\ map (@Design.pattern_match GoRegexp.engine "/jdk/t/jdk-11.0.24_8-linux.tar.gz")
       (patterns Design.three_matching)
     = [Some ("11", "major"); Some ("11.0.24_8", "full"); Some ("11.0", "minor")].
Proof. repeat split; vm_compute; reflexivity. Qed.

Section ExtractorClaims.
Context `{RegexpEngine}.

(** C1, amended.  [ExtractVersion], and [ExtractVersionByType] over the
    PatternSets its type filter keeps, return the pair produced by the
    first regex, in table order and then list order, that compiles and
    matches the path with at least one capture group, whatever that
    group captured (possibly nothing); without such a regex they return
    the no-match error.  Hence the earliest PatternSet that matches
    wins: when no PatternSet before P1 matches and P1 does, the result
    is P1's match whatever follows P1 in the table. *)
Theorem C1_first_match_wins (p : Parser) (path sdkType : string) :
  ExtractVersion p path
  = match Design.first_match (fun _ => true) (patterns p) path with
    | Some found => Ok found
    | None => Err ("no pattern matched for path: " +:+ path)
    end
  /\ ExtractVersionByType p path sdkType
     = match Design.first_match (type_applies sdkType) (patterns p) path with
       | Some found => Ok found
       | None =>
           Err ("no pattern matched for path: " +:+ path +:+ " (type: "
                +:+ sdkType +:+ ")")
       end
  /\ (forall pre p1 post found,
        patterns p = pre ++ p1 :: post ->
        (forall p0, p0 ∈ pre -> Design.pattern_match path p0 = None) ->
        Design.pattern_match path p1 = Some found ->
        ExtractVersion p path = Ok found)
  /\ (forall pre p1 post found,
        patterns p = pre ++ p1 :: post ->
        (forall p0, p0 ∈ pre -> type_applies sdkType p0 = true ->
                    Design.pattern_match path p0 = None) ->
        type_applies sdkType p1 = true ->
        Design.pattern_match path p1 = Some found ->
        ExtractVersionByType p path sdkType = Ok found).
Proof.
  unfold ExtractVersion, ExtractVersionByType.
  rewrite <- !try_patterns_first_match. repeat split.
  - intros pre p1 post found -> Hpre Hmatch.
    rewrite (try_patterns_earliest _ pre post p1 path found); auto.
  - intros pre p1 post found -> Hpre Hkeep Hmatch.
    rewrite (try_patterns_earliest _ pre post p1 path found); auto.
Qed.

(** The result never comes from beyond a PatternSet that matches. *)
Lemma ExtractVersion_cut (pre post : list Pattern) (p1 : Pattern)
  (path : string) (found : string * string) :
  Design.pattern_match path p1 = Some found ->
  ExtractVersion {| patterns := pre ++ p1 :: post |} path
  = ExtractVersion {| patterns := pre ++ [p1] |} path.
Proof.
  intros Hmatch. unfold ExtractVersion. cbn [patterns].
  now rewrite (try_patterns_cut _ pre post p1 path found).
Qed.

(** A regex is reached when none before it in the list yields a
    capture, and then its capture is the result. *)
Lemma first_some_none {A B} (f : A -> option B) (l : list A) :
  (forall x, x ∈ l -> f x = None) -> Design.first_some f l = None.
Proof.
  induction l as [|x l IH]; intros Hl; [reflexivity |]. cbn [Design.first_some].
  rewrite (Hl x) by left. apply IH. intros y Hy. apply Hl. now right.
Qed.

Lemma try_regexes_none (name : string) (regexes : list string) (path : string) :
  (forall r, r ∈ regexes -> Design.first_capture path (name, r) = None) ->
  try_regexes name regexes path = None.
Proof.
  intros Hall. rewrite try_regexes_first_capture. apply first_some_none.
  intros pr (r & <- & Hr)%list_elem_of_In%in_map_iff. apply Hall.
  now apply list_elem_of_In.
Qed.

Lemma try_regexes_reached (name : string) (before after : list string)
  (good path : string) (re : Regexp) (whole version : string) (groups : list string) :
  (forall r, r ∈ before -> Design.first_capture path (name, r) = None) ->
  Compile good = Some re ->
  FindStringSubmatch re path = whole :: version :: groups ->
  try_regexes name (before ++ good :: after) path = Some (version, name).
Proof.
  intros Hbefore Hgood Hfind.
  rewrite try_regexes_first_capture, map_app, first_some_app.
  rewrite <- try_regexes_first_capture, (try_regexes_none name before path Hbefore).
  cbn [map Design.first_some]. unfold Design.first_capture. cbn [fst snd].
  now rewrite Hgood, Hfind.
Qed.

Lemma malformed_no_capture (name bad path : string) :
  Compile bad = None -> Design.first_capture path (name, bad) = None.
Proof. intros Hbad. unfold Design.first_capture. cbn [snd]. now rewrite Hbad. Qed.

(** C9.  When a regex of the table does not compile, [ExtractVersion]
    and [ExtractVersionByType] return what they return for the table
    without that regex.  The regexes after it in its PatternSet are
    still tried: when nothing before a later regex of the PatternSet
    yields a capture and that regex compiles and matches with a capture
    group, the call succeeds with this capture and the PatternSet's
    name.  The PatternSets after that one are still tried: when nothing
    up to a later PatternSet matches and that PatternSet does, the call
    succeeds with its match.  So the malformed regex alone never makes
    the call fail. *)
Theorem C9_malformed_regex_skipped (t1 t2 : list Pattern) (p : Pattern)
  (r1 r2 : list string) (bad path sdkType : string) :
  Compile bad = None ->
  Patterns p = r1 ++ bad :: r2 ->
  (ExtractVersion {| patterns := t1 ++ p :: t2 |} path
   = ExtractVersion {| patterns := t1 ++ Design.with_regexes p (r1 ++ r2) :: t2 |} path
   /\ ExtractVersionByType {| patterns := t1 ++ p :: t2 |} path sdkType
      = ExtractVersionByType
          {| patterns := t1 ++ Design.with_regexes p (r1 ++ r2) :: t2 |} path sdkType)
  /\ (forall between good after re whole version groups,
        r2 = between ++ good :: after ->
        (forall p0, p0 ∈ t1 -> Design.pattern_match path p0 = None) ->
        (forall r, r ∈ r1 ++ between ->
                   Design.first_capture path (Name p, r) = None) ->
        Compile good = Some re ->
        FindStringSubmatch re path = whole :: version :: groups ->
        ExtractVersion {| patterns := t1 ++ p :: t2 |} path = Ok (version, Name p)
        /\ (type_applies sdkType p = true ->
            ExtractVersionByType {| patterns := t1 ++ p :: t2 |} path sdkType
            = Ok (version, Name p)))
  /\ (forall between q after found,
        t2 = between ++ q :: after ->
        (forall p0, p0 ∈ t1 ++ between -> Design.pattern_match path p0 = None) ->
        (forall r, r ∈ r1 ++ r2 -> Design.first_capture path (Name p, r) = None) ->
        Design.pattern_match path q = Some found ->
        ExtractVersion {| patterns := t1 ++ p :: t2 |} path = Ok found
        /\ (type_applies sdkType q = true ->
            ExtractVersionByType {| patterns := t1 ++ p :: t2 |} path sdkType
            = Ok found)).
Proof.
  intros Hbad Hp. split; [| split].
  - unfold ExtractVersion, ExtractVersionByType. cbn [patterns].
    rewrite (try_patterns_skip (fun _ => true) (fun _ _ => eq_refl)
               t1 t2 p r1 r2 bad path Hbad Hp).
    now rewrite (try_patterns_skip (type_applies sdkType) (fun _ _ => eq_refl)
                   t1 t2 p r1 r2 bad path Hbad Hp).
  - intros between good after re whole version groups -> Ht1 Hr Hgood Hfind.
    assert (Hreached : try_regexes (Name p) (Patterns p) path = Some (version, Name p)).
    { rewrite Hp.
      replace (r1 ++ bad :: between ++ good :: after)
        with ((r1 ++ bad :: between) ++ good :: after)
        by (now rewrite <- app_assoc).
      apply (try_regexes_reached _ _ _ _ _ re whole version groups); auto.
      intros r [Hin | [-> | Hin]%elem_of_cons]%elem_of_app.
      - apply Hr, elem_of_app. now left.
      - now apply malformed_no_capture.
      - apply Hr, elem_of_app. now right. }
    unfold ExtractVersion, ExtractVersionByType. cbn [patterns].
    rewrite !try_patterns_app. split.
    + rewrite (try_patterns_none (fun _ => true) t1 path) by auto.
      cbn [try_patterns]. now rewrite Hreached.
    + intros Hkeep. rewrite (try_patterns_none (type_applies sdkType) t1 path) by auto.
      cbn [try_patterns]. now rewrite Hkeep, Hreached.
  - intros between q after found -> Hbefore Hr Hq.
    assert (Hnone : forall p0, p0 ∈ t1 ++ p :: between ->
                               Design.pattern_match path p0 = None).
    { intros p0 [Hin | [-> | Hin]%elem_of_cons]%elem_of_app.
      - apply Hbefore, elem_of_app. now left.
      - rewrite <- try_regexes_pattern_match, Hp. apply try_regexes_none.
        intros r [Hin | [-> | Hin]%elem_of_cons]%elem_of_app.
        + apply Hr, elem_of_app. now left.
        + now apply malformed_no_capture.
        + apply Hr, elem_of_app. now right.
      - apply Hbefore, elem_of_app. now right. }
    unfold ExtractVersion, ExtractVersionByType. cbn [patterns].
    replace (t1 ++ p :: between ++ q :: after)
      with ((t1 ++ p :: between) ++ q :: after) by (now rewrite <- app_assoc).
    split.
    + now rewrite (try_patterns_earliest (fun _ => true) _ after q path found) by auto.
    + intros Hkeep.
      now rewrite (try_patterns_earliest (type_applies sdkType) _ after q path found)
        by auto.
Qed.

(** The same for every malformed regex of the table at once. *)
Lemma ExtractVersion_drop_malformed (table : list Pattern) (path sdkType : string) :
  ExtractVersion {| patterns := map Design.drop_malformed table |} path
  = ExtractVersion {| patterns := table |} path
  /\ ExtractVersionByType {| patterns := map Design.drop_malformed table |} path sdkType
     = ExtractVersionByType {| patterns := table |} path sdkType.
Proof.
  unfold ExtractVersion, ExtractVersionByType. cbn [patterns].
  rewrite (try_patterns_drop_malformed (fun _ => true) (fun _ => eq_refl)).
  now rewrite (try_patterns_drop_malformed (type_applies sdkType) (fun _ => eq_refl)).
Qed.

End ExtractorClaims.

Lemma C1_first_match_wins_witness :
  @ExtractVersion GoRegexp.engine Design.node_then_jdk
    "/jdk/t/jdk-11.0.24_8-linux.tar.gz" = Ok ("11.0.24_8", "t")
  /\ @ExtractVersionByType GoRegexp.engine Design.node_then_jdk
       "/jdk/t/jdk-11.0.24_8-linux.tar.gz" "jdk" = Ok ("11.0.24_8", "t").
Proof.
  destruct (@C1_first_match_wins GoRegexp.engine Design.node_then_jdk
              "/jdk/t/jdk-11.0.24_8-linux.tar.gz" "jdk") as (_ & _ & Hany & Htyped).
  split.
  - apply (Hany [ {| Name := "nodejs"; Type_ := "node"; Description := "";
                     Patterns := ["node-v(\d+\.\d+\.\d+)"] |} ]
             (Design.jdk_pattern "t" ["jdk-(\d+\.\d+\.\d+_\d+)"]) []).
    + reflexivity.
    + intros p0 ->%list_elem_of_singleton. vm_compute; reflexivity.
    + vm_compute; reflexivity.
  - apply (Htyped [ {| Name := "nodejs"; Type_ := "node"; Description := "";
                       Patterns := ["node-v(\d+\.\d+\.\d+)"] |} ]
             (Design.jdk_pattern "t" ["jdk-(\d+\.\d+\.\d+_\d+)"]) []).
    + reflexivity.
    + intros p0 ->%list_elem_of_singleton. vm_compute; discriminate.
    + reflexivity.
    + vm_compute; reflexivity.
Defined.

Lemma C9_malformed_regex_skipped_witness :
  GoRegexp.compile "jdk-(\d+" = None
  /\ @ExtractVersion GoRegexp.engine Design.scenario_a_malformed
       "/jdk/t/jdk-11.0.24_8-linux.tar.gz" = Ok ("11.0.24_8", "t")
  /\ @ExtractVersionByType GoRegexp.engine Design.scenario_a_malformed
       "/jdk/t/jdk-11.0.24_8-linux.tar.gz" "jdk" = Ok ("11.0.24_8", "t")
  /\ @ExtractVersion GoRegexp.engine
       {| patterns := [ Design.jdk_pattern "broken" ["jdk-(\d+"; "jre-(\d+)"];
                        Design.jdk_pattern "t" ["jdk-(\d+\.\d+\.\d+_\d+)"] ] |}
       "/jdk/t/jdk-11.0.24_8-linux.tar.gz" = Ok ("11.0.24_8", "t").
Proof.
  split; [vm_compute; reflexivity |].
  destruct (@C9_malformed_regex_skipped GoRegexp.engine [] []
              (Design.jdk_pattern "t" ["jdk-(\d+"; "jdk-(\d+\.\d+\.\d+_\d+)"])
              [] ["jdk-(\d+\.\d+\.\d+_\d+)"] "jdk-(\d+"
              "/jdk/t/jdk-11.0.24_8-linux.tar.gz" "jdk"
              ltac:(vm_compute; reflexivity) eq_refl) as (_ & Hlater & _).
  destruct (@GoRegexp.compile "jdk-(\d+\.\d+\.\d+_\d+)") as [re|] eqn:Hre;
    [| vm_compute in Hre; discriminate].
  destruct (Hlater [] "jdk-(\d+\.\d+\.\d+_\d+)" [] re
              "jdk-11.0.24_8" "11.0.24_8" [] eq_refl) as [Hany Htyped].
  - intros p0 []%elem_of_nil.
  - intros r []%elem_of_nil.
  - exact Hre.
  - vm_compute in Hre. injection Hre as <-. vm_compute; reflexivity.
  - split; [exact Hany |]. split; [exact (Htyped eq_refl) |].
    destruct (@C9_malformed_regex_skipped GoRegexp.engine []
                [Design.jdk_pattern "t" ["jdk-(\d+\.\d+\.\d+_\d+)"]]
                (Design.jdk_pattern "broken" ["jdk-(\d+"; "jre-(\d+)"])
                [] ["jre-(\d+)"] "jdk-(\d+"
                "/jdk/t/jdk-11.0.24_8-linux.tar.gz" "jdk"
                ltac:(vm_compute; reflexivity) eq_refl) as (_ & _ & Hset).
    refine (proj1 (Hset [] (Design.jdk_pattern "t" ["jdk-(\d+\.\d+\.\d+_\d+)"]) []
                     ("11.0.24_8", "t") eq_refl _ _ _)).
    + intros p0 []%elem_of_nil.
    + intros r ->%list_elem_of_singleton. vm_compute; reflexivity.
    + vm_compute; reflexivity.
Defined.

(* ===================================================================== *)
(** ** The pagination loop                                                *)
(* ===================================================================== *)

Section PaginationFacts.

Lemma token_present (token : string) :
  token <> "" -> negb (String.eqb token "") = true.
Proof. intros Hne. now destruct (String.eqb_spec token ""). Qed.

(** From any state of the loop: the pages that carry a token are all
    fetched, each request after the first carrying the token of the
    page before it; the page without a token ends the loop and nothing
    further is read. *)
Lemma fetch_pages_run (registry : Registry.t) (repoPath apiURL : string)
  (pages : list Design.Page) (last : list NexusAsset.t)
  (extra : list Nexus.Exchange) :
  Forall (fun pg : Design.Page => pg.2 <> "") pages ->
  forall token allItems sent,
    Nexus.fetch_pages registry repoPath apiURL
      (map Design.page_reply pages
         ++ Nexus.Reply Nexus.StatusOK (Nexus.Listing last "") :: extra)
      token allItems sent
    = Nexus.Fetched (allItems ++ Design.all_items pages last)
        (sent ++ Nexus.build_request registry apiURL token
              :: map (fun pg : Design.Page => Nexus.build_request registry apiURL pg.2)
                   pages)
        extra.
Proof.
  induction 1 as [|[items tok] pages Htok _ IH]; intros token allItems sent.
  - reflexivity.
  - cbn [map app Design.page_reply fst snd Nexus.fetch_pages].
    change (negb (Nexus.StatusOK =? Nexus.StatusOK)%Z) with false. cbn iota.
    cbn [fst snd] in Htok. rewrite (token_present tok Htok), IH.
    unfold Design.all_items. cbn [map concat fst snd].
    now rewrite <- !app_assoc.
Qed.

End PaginationFacts.

Section PaginationClaims.
Context `{RegexpEngine}.

(** C7.  When every page but the last carries a continuation token,
    [GetAvailableVersions] issues one request per page, the first
    without a token and each later one with the token of the page before
    it; it reads nothing after the page without a token; and the items
    it then filters are those of all the pages, the last included, in
    the order received. *)
Theorem C7_pagination_collects_all_pages (c : Nexus.NexusClient)
  (repo : SDKRepository.t) (registry : Registry.t) (versionFilter : string)
  (pages : list Design.Page) (last : list NexusAsset.t)
  (extra : list Nexus.Exchange) :
  Forall (fun pg : Design.Page => pg.2 <> "") pages ->
  let apiURL := ReplaceAll (Registry.APIURL registry) "{repository}"
                  (SDKRepository.Repository repo) in
  let world := map Design.page_reply pages
                 ++ Nexus.Reply Nexus.StatusOK (Nexus.Listing last "") :: extra in
  Nexus.fetch_all repo registry world
  = Nexus.Fetched (Design.all_items pages last)
      (Design.page_requests registry apiURL pages) extra
  /\ Nexus.RequestURL (Nexus.build_request registry apiURL "") = apiURL
  /\ length (Design.page_requests registry apiURL pages) = S (length pages)
  /\ Nexus.GetAvailableVersions c repo registry versionFilter world
     = Some (Nexus.resolve c repo versionFilter (Design.all_items pages last)).
Proof.
  intros Hpages apiURL world.
  assert (Hfetch : Nexus.fetch_all repo registry world
                   = Nexus.Fetched (Design.all_items pages last)
                       (Design.page_requests registry apiURL pages) extra).
  { unfold Nexus.fetch_all, world. now rewrite fetch_pages_run. }
  repeat split.
  - exact Hfetch.
  - unfold Design.page_requests. cbn [length]. now rewrite length_map.
  - unfold Nexus.GetAvailableVersions. now rewrite Hfetch.
Qed.

End PaginationClaims.

Lemma C7_pagination_collects_all_pages_witness :
  Nexus.fetch_all Design.temurin_repo Design.nexus_registry Design.two_pages
  = Nexus.Fetched (Design.page_one.1 ++ Design.page_two)
      [ {| Nexus.RequestURL :=
             "http://nexus.example.com/service/rest/v1/assets?repository=raw";
           Nexus.BasicAuth := None |};
        {| Nexus.RequestURL :=
             "http://nexus.example.com/service/rest/v1/assets?repository=raw&continuationToken=token+1";
           Nexus.BasicAuth := None |} ]
      [].
Proof.
  apply (proj1 (@C7_pagination_collects_all_pages GoRegexp.engine Design.temurin_client
                  Design.temurin_repo Design.nexus_registry ""
                  [Design.page_one] Design.page_two []
                  ltac:(repeat constructor; discriminate))).
Defined.

(* ===================================================================== *)
(** ** The item loop, the filter and the sort                             *)
(* ===================================================================== *)

Section ScanFacts.
Context `{RegexpEngine}.
Variables (c : Nexus.NexusClient) (repo : SDKRepository.t).

Lemma scan_item_cases (st : Nexus.Scan) (item : NexusAsset.t) :
  Nexus.scan_item c repo (Nexus.path_prefix (SDKRepository.Path repo)) st item
  = match Design.extracted_version c repo item with
    | None => Nexus.ignore_file st (NexusAsset.Path item)
    | Some v =>
        if Nexus.seen (Nexus.seenVersions st) v then st
        else {| Nexus.sdkAssets := Nexus.sdkAssets st ++ [Design.asset_of v item];
                Nexus.ignoredFiles := Nexus.ignoredFiles st;
                Nexus.seenVersions := <[v := true]> (Nexus.seenVersions st) |}
    end.
Proof.
  unfold Nexus.scan_item, Design.extracted_version.
  destruct (Nexus.outside_prefix _ _ item); [reflexivity |].
  destruct (ExtractVersionByType _ _ _) as [[v name]|msg]; [| reflexivity].
  now destruct (Nexus.seen _ v).
Qed.

Lemma find_app {A} (f : A -> bool) (l k : list A) :
  List.find f (l ++ k)
  = match List.find f l with Some x => Some x | None => List.find f k end.
Proof.
  induction l as [|x l IH]; [reflexivity |]; cbn [app List.find].
  now destruct (f x).
Qed.

Lemma find_all_false {A} (f : A -> bool) (l : list A) :
  (forall x, x ∈ l -> f x = false) -> List.find f l = None.
Proof.
  induction l as [|x l IH]; intros Hl; [reflexivity |]; cbn [List.find].
  rewrite (Hl x) by left. apply IH. intros y Hy. apply Hl. now right.
Qed.

Lemma first_source_app_old (items : list NexusAsset.t) (x item : NexusAsset.t)
  (v : string) :
  Design.first_source c repo items v = Some item ->
  Design.first_source c repo (items ++ [x]) v = Some item.
Proof. unfold Design.first_source. intros Hf. now rewrite find_app, Hf. Qed.

Lemma yields_iff (v : string) (item : NexusAsset.t) :
  Design.yields c repo v item = true <-> Design.extracted_version c repo item = Some v.
Proof.
  unfold Design.yields. destruct (Design.extracted_version c repo item) as [v'|].
  - destruct (String.eqb_spec v' v) as [->|Hne]; split; congruence.
  - split; discriminate.
Qed.

Lemma scan_inv_start : Design.scan_inv c repo [] Nexus.scan_start.
Proof.
  split; cbn.
  - intros v. split; [discriminate | intros Hv; now apply elem_of_nil in Hv].
  - constructor.
  - intros a Ha. now apply elem_of_nil in Ha.
  - intros item v Hitem. now apply elem_of_nil in Hitem.
Qed.

Lemma scan_inv_step (items : list NexusAsset.t) (st : Nexus.Scan) (x : NexusAsset.t) :
  Design.scan_inv c repo items st ->
  Design.scan_inv c repo (items ++ [x])
    (Nexus.scan_item c repo (Nexus.path_prefix (SDKRepository.Path repo)) st x).
Proof.
  intros [Hseen Hnodup Hsource Hall]. rewrite scan_item_cases.
  destruct (Design.extracted_version c repo x) as [v|] eqn:Hx.
  - destruct (Nexus.seen (Nexus.seenVersions st) v) eqn:Hv.
    + split; auto.
      * intros a Ha. destruct (Hsource a Ha) as (item & Hitem & Heq).
        exists item. split; [now apply first_source_app_old | exact Heq].
      * intros item v' [Hin | ->%list_elem_of_singleton]%elem_of_app Hitem; eauto.
        rewrite Hx in Hitem. injection Hitem as <-. now apply Hseen.
    + assert (Hfresh : v ∉ SDKAsset.Version <$> Nexus.sdkAssets st).
      { intros Hin%Hseen. congruence. }
      split; cbn [Nexus.sdkAssets Nexus.seenVersions].
      * intros v'. rewrite fmap_app, elem_of_app. cbn [fmap list_fmap Design.asset_of SDKAsset.Version].
        rewrite list_elem_of_singleton. unfold Nexus.seen. rewrite lookup_insert.
        destruct (decide (v = v')) as [->|Hne]; cbn.
        -- split; auto.
        -- fold (Nexus.seen (Nexus.seenVersions st) v'). rewrite Hseen.
           split; [auto | intros [|]; congruence].
      * rewrite fmap_app. apply NoDup_app. split; [exact Hnodup |]. split.
        -- intros v' Hin ->%list_elem_of_singleton. contradiction.
        -- apply NoDup_singleton.
      * intros a [Ha | ->%list_elem_of_singleton]%elem_of_app.
        -- destruct (Hsource a Ha) as (item & Hitem & Heq).
           exists item. split; [now apply first_source_app_old | exact Heq].
        -- exists x. split; [| reflexivity].
           cbn [Design.asset_of SDKAsset.Version]. unfold Design.first_source.
           rewrite find_app, find_all_false.
           ++ cbn [List.find]. now rewrite (proj2 (yields_iff v x) Hx).
           ++ intros item Hitem. destruct (Design.yields c repo v item) eqn:Hy; [| reflexivity].
              apply yields_iff in Hy. elim Hfresh. eauto.
      * intros item v' [Hin | ->%list_elem_of_singleton]%elem_of_app Hitem;
          rewrite fmap_app, elem_of_app.
        -- left. eauto.
        -- right. rewrite Hx in Hitem. injection Hitem as <-.
           now apply list_elem_of_singleton.
  - split; cbn [Nexus.ignore_file Nexus.sdkAssets Nexus.seenVersions]; auto.
    + intros a Ha. destruct (Hsource a Ha) as (item & Hitem & Heq).
      exists item. split; [now apply first_source_app_old | exact Heq].
    + intros item v' [Hin | ->%list_elem_of_singleton]%elem_of_app Hitem; eauto.
      congruence.
Qed.

Lemma scan_items_inv (items : list NexusAsset.t) :
  Design.scan_inv c repo items (Nexus.scan_items c repo items).
Proof.
  unfold Nexus.scan_items.
  induction items as [|x items IH] using rev_ind; [exact scan_inv_start |].
  rewrite fold_left_app. cbn [fold_left]. now apply scan_inv_step.
Qed.

Lemma filter_versions_elem (versionFilter : string) (assets : list SDKAsset.t)
  (a : SDKAsset.t) :
  a ∈ Nexus.filter_versions versionFilter assets -> a ∈ assets.
Proof.
  unfold Nexus.filter_versions. destruct (negb _); [| auto].
  rewrite !list_elem_of_In, filter_In. tauto.
Qed.

Lemma filter_versions_NoDup (versionFilter : string) (assets : list SDKAsset.t) :
  NoDup (SDKAsset.Version <$> assets) ->
  NoDup (SDKAsset.Version <$> Nexus.filter_versions versionFilter assets).
Proof.
  unfold Nexus.filter_versions. destruct (negb _); [| auto].
  induction assets as [|a assets IH]; [auto |].
  cbn [fmap list_fmap List.filter]. intros [Hnotin Hnd]%NoDup_cons.
  destruct (Contains _ _); [| auto].
  cbn [fmap list_fmap]. apply NoDup_cons. split; [| auto].
  intros (b & Hb & Hin)%list_elem_of_fmap. apply Hnotin.
  apply list_elem_of_fmap. exists b. split; [exact Hb |].
  apply list_elem_of_In in Hin. apply filter_In in Hin as [Hin _].
  now apply list_elem_of_In.
Qed.

End ScanFacts.

Section SortFacts.
Context {A : Type} (less : A -> A -> bool).

Lemma sort_insert_perm (x : A) (l : list A) : Nexus.sort_insert less x l ≡ₚ x :: l.
Proof.
  induction l as [|y l IH]; [reflexivity |]; cbn [Nexus.sort_insert].
  destruct (less y x); [| reflexivity].
  rewrite IH. apply perm_swap.
Qed.

Lemma sort_slice_perm (l : list A) : Nexus.sort_slice less l ≡ₚ l.
Proof.
  induction l as [|x l IH]; [reflexivity |]; cbn [Nexus.sort_slice fold_right].
  rewrite sort_insert_perm. now apply perm_skip.
Qed.

End SortFacts.

Section VersionOrderFacts.

Lemma str_lt_trans (s1 s2 s3 : string) :
  str_lt s1 s2 = true -> str_lt s2 s3 = true -> str_lt s1 s3 = true.
Proof.
  rewrite !str_lt_compare. intros H12 H23.
  assert (L12 : String_as_OT.lt s1 s2).
  { apply String_as_OT.cmp_lt. unfold String_as_OT.cmp.
    now destruct (String.compare s1 s2). }
  assert (L23 : String_as_OT.lt s2 s3).
  { apply String_as_OT.cmp_lt. unfold String_as_OT.cmp.
    now destruct (String.compare s2 s3). }
  pose proof (String_as_OT.lt_trans _ _ _ L12 L23) as L13.
  apply String_as_OT.cmp_lt in L13. unfold String_as_OT.cmp in L13.
  now rewrite L13.
Qed.

Lemma str_lt_asym (s1 s2 : string) :
  str_lt s1 s2 = true -> str_lt s2 s1 = true -> False.
Proof.
  rewrite str_lt_compare, str_lt_compare_flip.
  now destruct (String.compare s1 s2).
Qed.

Lemma str_lt_total (s1 s2 : string) :
  s1 <> s2 -> str_lt s1 s2 = false -> str_lt s2 s1 = true.
Proof.
  rewrite str_lt_compare, str_lt_compare_flip. intros Hne.
  destruct (String.compare s1 s2) eqn:Hc; try congruence.
  now apply String.compare_eq_iff in Hc.
Qed.

Lemma sort_insert_sorted (x : SDKAsset.t) (l : list SDKAsset.t) :
  StronglySorted Design.goes_before l ->
  (forall y, y ∈ l -> SDKAsset.Version y <> SDKAsset.Version x) ->
  StronglySorted Design.goes_before (Nexus.sort_insert Nexus.version_desc x l).
Proof.
  induction 1 as [|y l Hl IH Hy]; intros Hx; cbn [Nexus.sort_insert].
  - repeat constructor.
  - destruct (Nexus.version_desc y x) eqn:Hyx.
    + constructor.
      * apply IH. intros z Hz. apply Hx. now right.
      * rewrite (sort_insert_perm Nexus.version_desc x l). now constructor.
    + assert (Hxy : Design.goes_before x y).
      { unfold Design.goes_before, Nexus.version_desc in *.
        apply str_lt_total; [| exact Hyx].
        intros Heq. apply (Hx y); [left | congruence]. }
      constructor; [now constructor |].
      constructor; [exact Hxy |].
      rewrite Forall_forall in Hy |- *. intros z Hz.
      unfold Design.goes_before, Nexus.version_desc in *.
      eapply str_lt_trans; [apply Hy, Hz | exact Hxy].
Qed.

Lemma sort_slice_sorted (l : list SDKAsset.t) :
  NoDup (SDKAsset.Version <$> l) ->
  StronglySorted Design.goes_before (Nexus.sort_slice Nexus.version_desc l).
Proof.
  induction l as [|x l IH]; cbn [fmap list_fmap Nexus.sort_slice fold_right].
  - constructor.
  - intros [Hx Hl]%NoDup_cons. apply sort_insert_sorted; [now apply IH |].
    intros y Hy Heq. apply Hx. rewrite <- Heq.
    apply list_elem_of_fmap. exists y. split; [reflexivity |].
    now rewrite <- (sort_slice_perm Nexus.version_desc l).
Qed.

(** Whatever procedure sorts assets with distinct versions into
    descending order, it returns what [sort_slice] returns. *)
Lemma sort_slice_unique (l sorted : list SDKAsset.t) :
  NoDup (SDKAsset.Version <$> l) ->
  sorted ≡ₚ l ->
  StronglySorted Design.goes_before sorted ->
  sorted = Nexus.sort_slice Nexus.version_desc l.
Proof.
  intros Hnd Hperm Hsorted.
  apply (StronglySorted_unique_strong Design.goes_before); auto.
  - intros a b _ _ Hab Hba. exfalso.
    unfold Design.goes_before, Nexus.version_desc in *.
    exact (str_lt_asym _ _ Hab Hba).
  - now apply sort_slice_sorted.
  - now rewrite sort_slice_perm.
Qed.

End VersionOrderFacts.

(* ===================================================================== *)
(** ** The path prefix                                                    *)
(* ===================================================================== *)

Section PrefixFacts.

Lemma substring_drop (s t : string) :
  String.substring (String.length s) (String.length t) (s +:+ t) = t.
Proof.
  induction s as [|c s IH]; [apply substring_all |].
  rewrite append_String. exact IH.
Qed.

Lemma HasPrefix_inv (s p : string) : HasPrefix s p = true -> exists t, s = p +:+ t.
Proof. apply prefix_true_inv. Qed.

Lemma TrimPrefix_append (p t : string) : TrimPrefix (p +:+ t) p = t.
Proof.
  unfold TrimPrefix, HasPrefix. rewrite prefix_append, length_append.
  replace (String.length p + String.length t - String.length p)%nat
    with (String.length t) by lia.
  apply substring_drop.
Qed.

Lemma HasSuffix_append (t suf : string) : HasSuffix (t +:+ suf) suf = true.
Proof.
  unfold HasSuffix. rewrite length_append.
  replace (String.length t + String.length suf - String.length suf)%nat
    with (String.length t) by lia.
  rewrite substring_drop, String.eqb_refl.
  apply andb_true_iff. split; [apply Nat.leb_le; lia | reflexivity].
Qed.

Lemma prefix_same_append (p a b : string) :
  String.prefix (p +:+ a) (p +:+ b) = String.prefix a b.
Proof.
  induction p as [|c p IH]; [reflexivity |].
  rewrite !append_String. cbn [String.prefix].
  destruct (ascii_dec c c); [exact IH | contradiction].
Qed.

(** The code's normalisation is the design's: a leading [/] and a
    trailing [/] are added when missing. *)
Lemma path_prefix_normalize (d : string) :
  Nexus.path_prefix d = Design.normalize_prefix d.
Proof.
  unfold Nexus.path_prefix, Design.normalize_prefix.
  assert (Hlead : "/" +:+ TrimPrefix d "/" = if HasPrefix d "/" then d else "/" +:+ d).
  { destruct (HasPrefix d "/") eqn:Hp.
    - destruct (HasPrefix_inv _ _ Hp) as [t ->]. now rewrite TrimPrefix_append.
    - unfold TrimPrefix. now rewrite Hp. }
  rewrite Hlead. now destruct (HasSuffix _ "/").
Qed.

Lemma normalize_prefix_slashes (d : string) :
  HasPrefix (Design.normalize_prefix d) "/" = true
  /\ HasSuffix (Design.normalize_prefix d) "/" = true.
Proof.
  unfold Design.normalize_prefix.
  set (lead := if HasPrefix d "/" then d else "/" +:+ d).
  assert (Hlead : exists t, lead = "/" +:+ t).
  { unfold lead. destruct (HasPrefix d "/") eqn:Hp; [now apply HasPrefix_inv | eauto]. }
  destruct Hlead as [t Hlead].
  destruct (HasSuffix lead "/") eqn:Hs; split; auto.
  - rewrite Hlead. apply prefix_append.
  - rewrite Hlead, append_assoc. apply prefix_append.
  - apply HasSuffix_append.
Qed.

(** A sibling whose name merely extends the last segment is outside. *)
Lemma sibling_not_prefixed (base tail : string) :
  HasPrefix tail "/" = false -> HasPrefix (base +:+ tail) (base +:+ "/") = false.
Proof. intros Ht. unfold HasPrefix in *. now rewrite prefix_same_append. Qed.

End PrefixFacts.

Section FilterFacts.
Context `{RegexpEngine}.
Variables (c : Nexus.NexusClient) (repo : SDKRepository.t).

Lemma scan_item_same (pathPrefix : string) (st1 st2 : Nexus.Scan) (item : NexusAsset.t) :
  Design.same_assets st1 st2 ->
  Design.same_assets (Nexus.scan_item c repo pathPrefix st1 item)
    (Nexus.scan_item c repo pathPrefix st2 item).
Proof.
  intros [Ha Hs]. unfold Nexus.scan_item.
  destruct (Nexus.outside_prefix _ _ item); [now split |].
  destruct (ExtractVersionByType _ _ _) as [[v name]|msg]; [| now split].
  rewrite Hs. destruct (Nexus.seen _ v); cbn [negb]; [now split |].
  split; cbn; congruence.
Qed.

Lemma scan_item_outside (pathPrefix : string) (st : Nexus.Scan) (item : NexusAsset.t) :
  Nexus.outside_prefix (SDKRepository.Path repo) pathPrefix item = true ->
  Nexus.scan_item c repo pathPrefix st item
  = Nexus.ignore_file st (NexusAsset.Path item).
Proof. intros Hout. unfold Nexus.scan_item. now rewrite Hout. Qed.

(** Items outside the prefix change nothing but [ignoredFiles]. *)
Lemma scan_filtered (pathPrefix : string) (items : list NexusAsset.t) :
  forall st1 st2,
    Design.same_assets st1 st2 ->
    Design.same_assets
      (fold_left (Nexus.scan_item c repo pathPrefix) items st1)
      (fold_left (Nexus.scan_item c repo pathPrefix)
         (List.filter
            (fun item => negb (Nexus.outside_prefix (SDKRepository.Path repo)
                                 pathPrefix item)) items) st2).
Proof.
  induction items as [|x items IH]; intros st1 st2 Hsame; [exact Hsame |].
  cbn [fold_left List.filter].
  destruct (Nexus.outside_prefix (SDKRepository.Path repo) pathPrefix x) eqn:Hout;
    cbn [negb fold_left].
  - apply IH. rewrite (scan_item_outside _ _ _ Hout).
    destruct Hsame; now split.
  - apply IH. now apply scan_item_same.
Qed.

Lemma outside_prefix_nonempty (d pathPrefix : string) (item : NexusAsset.t) :
  d <> "" ->
  Nexus.outside_prefix d pathPrefix item = negb (Design.has_prefix pathPrefix item).
Proof.
  intros Hd. unfold Nexus.outside_prefix, Design.has_prefix.
  now destruct (String.eqb_spec d "").
Qed.

Lemma resolve_filtered (versionFilter : string) (allItems : list NexusAsset.t) :
  SDKRepository.Path repo <> "" ->
  Nexus.resolve c repo versionFilter allItems
  = Nexus.resolve c repo versionFilter
      (List.filter (Design.has_prefix (Design.normalize_prefix (SDKRepository.Path repo)))
         allItems).
Proof.
  intros Hd. unfold Nexus.resolve, Nexus.scan_items.
  rewrite <- path_prefix_normalize.
  rewrite (filter_ext (Design.has_prefix (Nexus.path_prefix (SDKRepository.Path repo)))
             (fun item => negb (Nexus.outside_prefix (SDKRepository.Path repo)
                                  (Nexus.path_prefix (SDKRepository.Path repo)) item))).
  2:{ intros item. now rewrite (outside_prefix_nonempty _ _ _ Hd), negb_involutive. }
  destruct (scan_filtered (Nexus.path_prefix (SDKRepository.Path repo)) allItems
              Nexus.scan_start Nexus.scan_start) as [<- _]; [now split |].
  reflexivity.
Qed.

End FilterFacts.

(* ===================================================================== *)
(** ** [GetAvailableVersions]                                             *)
(* ===================================================================== *)

Section ResolverClaims.
Context `{RegexpEngine}.
Variables (c : Nexus.NexusClient) (repo : SDKRepository.t) (registry : Registry.t).

Lemma resolve_ok_inv (versionFilter : string) (allItems : list NexusAsset.t)
  (assets : list SDKAsset.t) :
  Nexus.resolve c repo versionFilter allItems = Ok assets ->
  assets ≡ₚ Nexus.filter_versions versionFilter
              (Nexus.sdkAssets (Nexus.scan_items c repo allItems))
  /\ assets <> [].
Proof.
  unfold Nexus.resolve.
  set (kept := Nexus.filter_versions _ _).
  destruct (Nat.eqb_spec (length kept) 0) as [Hlen|Hlen].
  - destruct (negb _); discriminate.
  - intros [= <-]. split; [apply sort_slice_perm |].
    intros Hnil. apply Hlen.
    now rewrite <- (Permutation_length (sort_slice_perm Nexus.version_desc kept)), Hnil.
Qed.

Lemma GetAvailableVersions_ok_inv (versionFilter : string)
  (world : list Nexus.Exchange) (assets : list SDKAsset.t) :
  Nexus.GetAvailableVersions c repo registry versionFilter world = Some (Ok assets) ->
  exists allItems sent unread,
    Nexus.fetch_all repo registry world = Nexus.Fetched allItems sent unread
    /\ Nexus.resolve c repo versionFilter allItems = Ok assets.
Proof.
  unfold Nexus.GetAvailableVersions.
  destruct (Nexus.fetch_all repo registry world) as [allItems sent unread| |];
    [| discriminate | discriminate].
  intros [= Hres]. eauto.
Qed.

(** Every returned asset is one the item loop built. *)
Lemma returned_asset_scanned (versionFilter : string) (allItems : list NexusAsset.t)
  (assets : list SDKAsset.t) (a : SDKAsset.t) :
  Nexus.resolve c repo versionFilter allItems = Ok assets ->
  a ∈ assets ->
  a ∈ Nexus.sdkAssets (Nexus.scan_items c repo allItems).
Proof.
  intros [Hperm _]%resolve_ok_inv Ha. rewrite Hperm in Ha.
  now apply filter_versions_elem in Ha.
Qed.

(** C2.  With a non-empty configured path, the prefix the items are
    tested against is the path with a leading and a trailing [/] added
    when missing; an item whose path does not start with it is ignored,
    so the result is that of the listing without such items; and an
    item whose path continues the prefix's last segment with anything
    but [/] is among those ignored. *)
Theorem C2_prefix_boundary (versionFilter : string) :
  SDKRepository.Path repo <> "" ->
  let pathPrefix := Design.normalize_prefix (SDKRepository.Path repo) in
  Nexus.path_prefix (SDKRepository.Path repo) = pathPrefix
  /\ HasPrefix pathPrefix "/" = true
  /\ HasSuffix pathPrefix "/" = true
  /\ (forall st item,
        HasPrefix (NexusAsset.Path item) pathPrefix = false ->
        Nexus.scan_item c repo (Nexus.path_prefix (SDKRepository.Path repo)) st item
        = Nexus.ignore_file st (NexusAsset.Path item))
  /\ (forall world allItems sent unread,
        Nexus.fetch_all repo registry world = Nexus.Fetched allItems sent unread ->
        Nexus.GetAvailableVersions c repo registry versionFilter world
        = Some (Nexus.resolve c repo versionFilter
                  (List.filter (Design.has_prefix pathPrefix) allItems)))
  /\ (forall base tail st item,
        pathPrefix = base +:+ "/" ->
        HasPrefix tail "/" = false ->
        NexusAsset.Path item = base +:+ tail ->
        Nexus.scan_item c repo (Nexus.path_prefix (SDKRepository.Path repo)) st item
        = Nexus.ignore_file st (NexusAsset.Path item)).
Proof.
  intros Hd pathPrefix. subst pathPrefix.
  assert (Hignored : forall st item,
             HasPrefix (NexusAsset.Path item)
               (Design.normalize_prefix (SDKRepository.Path repo)) = false ->
             Nexus.scan_item c repo (Nexus.path_prefix (SDKRepository.Path repo)) st item
             = Nexus.ignore_file st (NexusAsset.Path item)).
  { intros st item Hitem. apply scan_item_outside.
    rewrite (outside_prefix_nonempty _ _ _ Hd). unfold Design.has_prefix.
    now rewrite path_prefix_normalize, Hitem. }
  split; [apply path_prefix_normalize |].
  split; [apply normalize_prefix_slashes |].
  split; [apply normalize_prefix_slashes |].
  split; [exact Hignored |].
  split.
  - intros world allItems sent unread Hfetch.
    unfold Nexus.GetAvailableVersions. rewrite Hfetch.
    now rewrite (resolve_filtered c repo versionFilter allItems Hd).
  - intros base tail st item Hbase Htail Hitem. apply Hignored.
    rewrite Hitem, Hbase. now apply sibling_not_prefixed.
Qed.

(** C3.  In a successful result no two assets have the same version,
    and each asset carries the download URL of the first fetched item,
    in the order received, that passes the prefix filter and yields the
    asset's version. *)
Theorem C3_deduplication (versionFilter : string) (world : list Nexus.Exchange)
  (assets : list SDKAsset.t) :
  Nexus.GetAvailableVersions c repo registry versionFilter world = Some (Ok assets) ->
  NoDup (SDKAsset.Version <$> assets)
  /\ exists allItems sent unread,
       Nexus.fetch_all repo registry world = Nexus.Fetched allItems sent unread
       /\ forall a, a ∈ assets ->
            exists item,
              Design.first_source c repo allItems (SDKAsset.Version a) = Some item
              /\ SDKAsset.DownloadUrl a = NexusAsset.DownloadUrl item.
Proof.
  intros (allItems & sent & unread & Hfetch & Hres)%GetAvailableVersions_ok_inv.
  pose proof (scan_items_inv c repo allItems) as [_ Hnodup Hsource _].
  split.
  - destruct (resolve_ok_inv _ _ _ Hres) as [Hperm _]. rewrite Hperm.
    now apply filter_versions_NoDup.
  - exists allItems, sent, unread. split; [exact Hfetch |].
    intros a Ha. apply (returned_asset_scanned _ _ _ _ Hres) in Ha.
    destruct (Hsource a Ha) as (item & Hitem & Heq).
    exists item. split; [exact Hitem |]. now rewrite Heq.
Qed.

(** C8.  When the pages were fetched and no asset is left after the
    prefix filter, extraction, deduplication and the version filter,
    [GetAvailableVersions] returns the error "no version <filter> found
    for <path>" if a filter was given and "no versions found for <path>"
    otherwise; it never returns an empty list. *)
Theorem C8_empty_result_is_error (versionFilter : string)
  (world : list Nexus.Exchange) (allItems : list NexusAsset.t)
  (sent : list Nexus.Request) (unread : list Nexus.Exchange) :
  Nexus.fetch_all repo registry world = Nexus.Fetched allItems sent unread ->
  Nexus.filter_versions versionFilter
    (Nexus.sdkAssets (Nexus.scan_items c repo allItems)) = [] ->
  Nexus.GetAvailableVersions c repo registry versionFilter world
  = Some (Err (Design.empty_result_message versionFilter (SDKRepository.Path repo)))
  /\ Nexus.GetAvailableVersions c repo registry versionFilter world <> Some (Ok []).
Proof.
  intros Hfetch Hnone. split.
  - unfold Nexus.GetAvailableVersions, Nexus.resolve, Design.empty_result_message.
    rewrite Hfetch, Hnone. cbn [length Nat.eqb]. now destruct (negb _).
  - intros (? & ? & ? & _ & Hres)%GetAvailableVersions_ok_inv.
    now destruct (resolve_ok_inv _ _ _ Hres) as [_ Hne].
Qed.

(** An empty list is never returned, whatever the world does. *)
Lemma GetAvailableVersions_never_empty (versionFilter : string)
  (world : list Nexus.Exchange) :
  Nexus.GetAvailableVersions c repo registry versionFilter world <> Some (Ok []).
Proof.
  intros (? & ? & ? & _ & Hres)%GetAvailableVersions_ok_inv.
  now destruct (resolve_ok_inv _ _ _ Hres) as [_ Hne].
Qed.

(** C10.  In a successful result every asset has its [Filename] equal
    to its [Version] and a [Size] of zero; of the item it was built from
    it carries the download URL. *)
Theorem C10_asset_fields (versionFilter : string) (world : list Nexus.Exchange)
  (assets : list SDKAsset.t) :
  Nexus.GetAvailableVersions c repo registry versionFilter world = Some (Ok assets) ->
  forall a, a ∈ assets ->
    SDKAsset.Filename a = SDKAsset.Version a
    /\ SDKAsset.Size a = 0%Z
    /\ exists allItems sent unread item,
         Nexus.fetch_all repo registry world = Nexus.Fetched allItems sent unread
         /\ item ∈ allItems
         /\ SDKAsset.DownloadUrl a = NexusAsset.DownloadUrl item.
Proof.
  intros (allItems & sent & unread & Hfetch & Hres)%GetAvailableVersions_ok_inv a Ha.
  pose proof (scan_items_inv c repo allItems) as [_ _ Hsource _].
  apply (returned_asset_scanned _ _ _ _ Hres) in Ha.
  destruct (Hsource a Ha) as (item & Hitem & Heq).
  rewrite Heq. cbn [SDKAsset.Filename SDKAsset.Version SDKAsset.Size SDKAsset.DownloadUrl].
  repeat split. exists allItems, sent, unread, item. repeat split; auto.
  apply find_some in Hitem as [Hin _]. now apply list_elem_of_In.
Qed.

End ResolverClaims.

(* ===================================================================== *)
(** ** The claims on the design document's scenarios                      *)
(* ===================================================================== *)

(** From here on the regular expressions are run by the model of Go's
    matcher. *)
#[local] Existing Instance GoRegexp.engine.

(** Scenario E: an item of [/jdk/temurin-nightly/] is ignored when the
    configured path is [jdk/temurin]. *)
Lemma C2_prefix_boundary_witness :
  SDKRepository.Path Design.temurin_repo <> ""
  /\ Nexus.scan_item Design.temurin_client Design.temurin_repo
       (Nexus.path_prefix "jdk/temurin") Nexus.scan_start
       (Design.item "/jdk/temurin-nightly/jdk-23.0.1_1-linux.tar.gz")
     = Nexus.ignore_file Nexus.scan_start
         "/jdk/temurin-nightly/jdk-23.0.1_1-linux.tar.gz".
Proof.
  split; [discriminate |].
  pose proof (@C2_prefix_boundary GoRegexp.engine Design.temurin_client
                Design.temurin_repo Design.nexus_registry ""
                ltac:(discriminate)) as Hclaim.
  cbv zeta in Hclaim. destruct Hclaim as (_ & _ & _ & _ & _ & Hsibling).
  apply (Hsibling "/jdk/temurin" "-nightly/jdk-23.0.1_1-linux.tar.gz");
    vm_compute; reflexivity.
Defined.

(** Scenarios D and F: the archive and its checksum file yield the same
    version; one asset is returned for it. *)
Lemma C3_deduplication_witness :
  Nexus.GetAvailableVersions Design.temurin_client Design.temurin_repo
    Design.nexus_registry "" Design.two_pages = Some (Ok Design.two_pages_assets)
  /\ NoDup (SDKAsset.Version <$> Design.two_pages_assets).
Proof.
  assert (Hrun : Nexus.GetAvailableVersions Design.temurin_client Design.temurin_repo
                   Design.nexus_registry "" Design.two_pages
                 = Some (Ok Design.two_pages_assets)) by (vm_compute; reflexivity).
  split; [exact Hrun |].
  exact (proj1 (@C3_deduplication GoRegexp.engine Design.temurin_client
                  Design.temurin_repo Design.nexus_registry "" Design.two_pages
                  Design.two_pages_assets Hrun)).
Defined.

(** No version of the listing contains ["21"]. *)
Lemma C8_empty_result_is_error_witness :
  Nexus.GetAvailableVersions Design.temurin_client Design.temurin_repo
    Design.nexus_registry "21" Design.two_pages
  = Some (Err "no version 21 found for jdk/temurin").
Proof.
  exact (proj1 (@C8_empty_result_is_error GoRegexp.engine Design.temurin_client
                  Design.temurin_repo Design.nexus_registry "21" Design.two_pages
                  (Design.page_one.1 ++ Design.page_two)
                  (Design.page_requests Design.nexus_registry
                     "http://nexus.example.com/service/rest/v1/assets?repository=raw"
                     [Design.page_one])
                  []
                  ltac:(vm_compute; reflexivity) ltac:(vm_compute; reflexivity))).
Defined.

Lemma C10_asset_fields_witness :
  SDKAsset.Filename (Design.asset_of "17.0.15_6"
                       (Design.item "/jdk/temurin/jdk-17.0.15_6-linux.tar.gz"))
  = "17.0.15_6"
  /\ SDKAsset.Size (Design.asset_of "17.0.15_6"
                      (Design.item "/jdk/temurin/jdk-17.0.15_6-linux.tar.gz"))
     = 0%Z.
Proof.
  destruct (@C10_asset_fields GoRegexp.engine Design.temurin_client
              Design.temurin_repo Design.nexus_registry "" Design.two_pages
              Design.two_pages_assets ltac:(vm_compute; reflexivity)
              (Design.asset_of "17.0.15_6"
                 (Design.item "/jdk/temurin/jdk-17.0.15_6-linux.tar.gz"))
              ltac:(apply list_elem_of_here)) as (Hname & Hsize & _).
  split; [exact Hname | exact Hsize].
Defined.

(** Scenario A. *)
Example scenario_A :
  @ExtractVersion GoRegexp.engine Design.scenario_a "/jdk/t/jdk-11.0.24_8-linux.tar.gz"
  = Ok ("11.0.24_8", "t").
Proof. vm_compute; reflexivity. Qed.

(** The repository's fallback patterns on paths of its unit tests: the
    type filter skips the JDK PatternSets for a Node.js path, and the
    wildcard PatternSet applies whatever the requested type. *)
Example fallback_patterns_by_type :
  ExtractVersionByType Design.minimal_default_patterns
    "/jdk/OpenJDK11U-jdk_x64_linux_hotspot_11.0.26_4.tar.gz" "jdk"
  = Ok ("11.0.26_4", "temurin")
  /\ ExtractVersionByType Design.minimal_default_patterns
       "/node/nodejs/node-v22.13.1-linux-x64.tar.gz" "node"
     = Ok ("22.13.1", "generic-version")
  /\ ExtractVersionByType Design.minimal_default_patterns
       "/node/nodejs/node-v22.13.1-linux-x64.tar.gz" "jdk"
     = Ok ("22.13.1", "generic-version")
  /\ ExtractVersionByType Design.minimal_default_patterns "/jdk/random/file.txt" "jdk"
     = Err "no pattern matched for path: /jdk/random/file.txt (type: jdk)".
Proof. repeat split; vm_compute; reflexivity. Qed.

(** A transport failure on the second page aborts the call. *)
Example transport_failure_aborts :
  Nexus.GetAvailableVersions Design.temurin_client Design.temurin_repo
    Design.nexus_registry ""
    [Design.page_reply Design.page_one; Nexus.TransportFailure "connection reset"]
  = Some (Err "failed to query Nexus API: connection reset").
Proof. vm_compute; reflexivity. Qed.

(** A world that stops answering while a token is pending: no return. *)
Example unanswered_never_returns :
  Nexus.GetAvailableVersions Design.temurin_client Design.temurin_repo
    Design.nexus_registry "" [Design.page_reply Design.page_one] = None.
Proof. vm_compute; reflexivity. Qed.

(* ===================================================================== *)
(** ** Further properties: the pattern table                              *)
(* ===================================================================== *)

Section TableFacts.
Context `{RegexpEngine}.

Lemma try_regexes_name (name : string) (regexes : list string) (path : string)
  (v n : string) :
  try_regexes name regexes path = Some (v, n) -> n = name.
Proof.
  induction regexes as [|r regexes IH]; cbn [try_regexes]; [discriminate |].
  destruct (Compile r) as [re|]; [| exact IH].
  destruct (FindStringSubmatch re path) as [|whole [|version groups]]; auto.
  now intros [= _ <-].
Qed.

(** Where a result of the two loops comes from: the first PatternSet
    that passes the filter and matches. *)
Lemma try_patterns_Some_inv (keep : Pattern -> bool) (table : list Pattern)
  (path : string) (found : string * string) :
  try_patterns keep table path = Some found ->
  exists pre pattern post,
    table = pre ++ pattern :: post
    /\ keep pattern = true
    /\ Design.pattern_match path pattern = Some found
    /\ forall p0, p0 ∈ pre -> keep p0 = true -> Design.pattern_match path p0 = None.
Proof.
  induction table as [|p table IH]; cbn [try_patterns]; [discriminate |].
  destruct (keep p) eqn:Hk.
  - rewrite try_regexes_pattern_match.
    destruct (Design.pattern_match path p) as [f|] eqn:Hp.
    + intros [= <-]. exists [], p, table. repeat split; auto.
      intros p0 Hin. now apply elem_of_nil in Hin.
    + intros (pre & pattern & post & -> & Hkeep & Hm & Hpre)%IH.
      exists (p :: pre), pattern, post. repeat split; auto.
      intros p0 [-> | Hin]%elem_of_cons; auto.
  - intros (pre & pattern & post & -> & Hkeep & Hm & Hpre)%IH.
    exists (p :: pre), pattern, post. repeat split; auto.
    intros p0 [-> | Hin]%elem_of_cons; [congruence | auto].
Qed.

Lemma try_patterns_None_iff (keep : Pattern -> bool) (table : list Pattern)
  (path : string) :
  try_patterns keep table path = None
  <-> forall p0, p0 ∈ table -> keep p0 = true -> Design.pattern_match path p0 = None.
Proof.
  split; [| apply try_patterns_none].
  induction table as [|p table IH]; cbn [try_patterns].
  - intros _ p0 Hin. now apply elem_of_nil in Hin.
  - destruct (keep p) eqn:Hk.
    + rewrite try_regexes_pattern_match.
      destruct (Design.pattern_match path p) eqn:Hp; [discriminate |].
      intros Hnone p0 [-> | Hin]%elem_of_cons; auto.
    + intros Hnone p0 [-> | Hin]%elem_of_cons; [congruence | auto].
Qed.

Lemma try_patterns_filter (keep : Pattern -> bool) (table : list Pattern)
  (path : string) :
  try_patterns keep table path
  = try_patterns (fun _ => true) (List.filter keep table) path.
Proof.
  induction table as [|p table IH]; [reflexivity |].
  cbn [try_patterns List.filter]. destruct (keep p); [| exact IH].
  cbn [try_patterns]. now rewrite IH.
Qed.

Lemma pattern_match_name (path : string) (p : Pattern) (v n : string) :
  Design.pattern_match path p = Some (v, n) -> n = Name p.
Proof. rewrite <- try_regexes_pattern_match. apply try_regexes_name. Qed.

Lemma ExtractVersion_Ok_iff (p : Parser) (path : string) (found : string * string) :
  ExtractVersion p path = Ok found
  <-> try_patterns (fun _ => true) (patterns p) path = Some found.
Proof.
  unfold ExtractVersion. destruct (try_patterns _ _ _); split; congruence.
Qed.

Lemma ExtractVersionByType_Ok_iff (p : Parser) (path sdkType : string)
  (found : string * string) :
  ExtractVersionByType p path sdkType = Ok found
  <-> try_patterns (type_applies sdkType) (patterns p) path = Some found.
Proof.
  unfold ExtractVersionByType. destruct (try_patterns _ _ _); split; congruence.
Qed.

Lemma ExtractVersionByDistribution_Ok_iff (p : Parser) (path distribution : string)
  (found : string * string) :
  ExtractVersionByDistribution p path distribution = Ok found
  <-> try_patterns (fun pattern => String.eqb (Name pattern) distribution)
        (patterns p) path = Some found.
Proof.
  unfold ExtractVersionByDistribution. destruct (try_patterns _ _ _); split; congruence.
Qed.

Lemma type_applies_spec (sdkType : string) (pattern : Pattern) :
  type_applies sdkType pattern = true
  <-> Type_ pattern = sdkType \/ Type_ pattern = "*".
Proof.
  unfold type_applies.
  destruct (String.eqb_spec (Type_ pattern) sdkType),
           (String.eqb_spec (Type_ pattern) "*"); cbn; split;
    first [discriminate | tauto | reflexivity | (intros; auto)].
Qed.

(** X1.  When [ExtractVersionByDistribution] succeeds, the pattern name
    it returns is the distribution asked for, and the version is the
    match of the first PatternSet of that name that matches the path. *)
Theorem X1_by_distribution_sound (p : Parser) (path distribution v name : string) :
  ExtractVersionByDistribution p path distribution = Ok (v, name) ->
  name = distribution
  /\ exists pre pattern post,
       patterns p = pre ++ pattern :: post
       /\ Name pattern = distribution
       /\ Design.pattern_match path pattern = Some (v, distribution)
       /\ forall p0, p0 ∈ pre -> Name p0 = distribution ->
                     Design.pattern_match path p0 = None.
Proof.
  intros (pre & pattern & post & Htable & Hkeep & Hm & Hpre)%ExtractVersionByDistribution_Ok_iff%try_patterns_Some_inv.
  apply String.eqb_eq in Hkeep.
  pose proof (pattern_match_name _ _ _ _ Hm) as Hname.
  assert (name = distribution) as -> by congruence.
  split; [reflexivity |].
  exists pre, pattern, post. repeat split; auto.
  intros p0 Hin Hp0. apply Hpre; [exact Hin | now apply String.eqb_eq].
Qed.

(** X2.  When [ExtractVersionByType] succeeds, the result is the match
    of a PatternSet of the table whose type is the requested one or the
    wildcard, and the name returned is that PatternSet's: a PatternSet
    of another type never supplies the result. *)
Theorem X2_by_type_sound (p : Parser) (path sdkType v name : string) :
  ExtractVersionByType p path sdkType = Ok (v, name) ->
  exists pattern,
    pattern ∈ patterns p
    /\ (Type_ pattern = sdkType \/ Type_ pattern = "*")
    /\ Name pattern = name
    /\ Design.pattern_match path pattern = Some (v, name).
Proof.
  intros (pre & pattern & post & Htable & Hkeep & Hm & _)%ExtractVersionByType_Ok_iff%try_patterns_Some_inv.
  exists pattern. rewrite Htable. repeat split.
  - apply elem_of_app. right. left.
  - now apply type_applies_spec.
  - symmetry. exact (pattern_match_name _ _ _ _ Hm).
  - exact Hm.
Qed.

Lemma GetPatternsByType_filter (p : Parser) (sdkType : string) :
  GetPatternsByType p sdkType = List.filter (type_applies sdkType) (patterns p).
Proof.
  unfold GetPatternsByType. apply filter_ext. intros pattern. unfold type_applies.
  now destruct (String.eqb _ sdkType), (String.eqb _ "*").
Qed.

(** X3.  Extracting by type is extracting, without a filter, over the
    table [GetPatternsByType] returns: the two succeed on the same paths
    with the same result. *)
Theorem X3_by_type_is_extract_over_GetPatternsByType (p : Parser)
  (path sdkType : string) (found : string * string) :
  ExtractVersionByType p path sdkType = Ok found
  <-> ExtractVersion {| patterns := GetPatternsByType p sdkType |} path = Ok found.
Proof.
  rewrite ExtractVersionByType_Ok_iff, ExtractVersion_Ok_iff. cbn [patterns].
  now rewrite GetPatternsByType_filter, <- try_patterns_filter.
Qed.

Lemma GetPatternByName_Some (p : Parser) (name : string) (pattern : Pattern) :
  GetPatternByName p name = Some pattern ->
  exists pre post,
    patterns p = pre ++ pattern :: post
    /\ Name pattern = name
    /\ forall p0, p0 ∈ pre -> Name p0 <> name.
Proof.
  unfold GetPatternByName. induction (patterns p) as [|q table IH]; cbn [List.find];
    [discriminate |].
  destruct (String.eqb_spec (Name q) name) as [Hq|Hq].
  - intros [= <-]. exists [], table. repeat split; auto.
    intros p0 Hin. now apply elem_of_nil in Hin.
  - intros (pre & post & -> & Hn & Hpre)%IH. exists (q :: pre), post.
    repeat split; auto. intros p0 [-> | Hin]%elem_of_cons; auto.
Qed.

Lemma GetPatternByName_None (p : Parser) (name : string) :
  GetPatternByName p name = None <-> forall p0, p0 ∈ patterns p -> Name p0 <> name.
Proof.
  unfold GetPatternByName. induction (patterns p) as [|q table IH]; cbn [List.find].
  - split; [intros _ p0 Hin; now apply elem_of_nil in Hin | reflexivity].
  - destruct (String.eqb_spec (Name q) name) as [Hq|Hq].
    + split; [discriminate |]. intros Hall. elim (Hall q); [left | exact Hq].
    + rewrite IH. split.
      * intros Hall p0 [-> | Hin]%elem_of_cons; auto.
      * intros Hall p0 Hin. apply Hall. now right.
Qed.

(** X4.  For every table, [GetPatternByName] returns the first
    PatternSet of the table with that name and nil exactly when there is
    none, and when the PatternSet it returns matches the path,
    [ExtractVersionByDistribution] succeeds with its match.  When the
    names of the table are pairwise distinct the converse holds as well:
    [ExtractVersionByDistribution] succeeds only with the match of the
    PatternSet [GetPatternByName] returns. *)
Theorem X4_by_name (p : Parser) (path distribution : string) :
  (GetPatternByName p distribution = None
   <-> forall p0, p0 ∈ patterns p -> Name p0 <> distribution)
  /\ (forall pattern, GetPatternByName p distribution = Some pattern ->
        exists pre post,
          patterns p = pre ++ pattern :: post
          /\ Name pattern = distribution
          /\ forall p0, p0 ∈ pre -> Name p0 <> distribution)
  /\ (forall pattern found,
        GetPatternByName p distribution = Some pattern ->
        Design.pattern_match path pattern = Some found ->
        ExtractVersionByDistribution p path distribution = Ok found)
  /\ (NoDup (Name <$> patterns p) ->
      forall found,
        ExtractVersionByDistribution p path distribution = Ok found
        <-> exists pattern,
              GetPatternByName p distribution = Some pattern
              /\ Design.pattern_match path pattern = Some found).
Proof.
  assert (Hfirst : forall pattern found,
            GetPatternByName p distribution = Some pattern ->
            Design.pattern_match path pattern = Some found ->
            ExtractVersionByDistribution p path distribution = Ok found).
  { intros pattern found (pre & post & Htable & Hn & Hpre)%GetPatternByName_Some Hm.
    apply ExtractVersionByDistribution_Ok_iff. rewrite Htable.
    apply try_patterns_earliest; auto.
    - intros p0 Hin Hk%String.eqb_eq. now elim (Hpre p0 Hin).
    - now apply String.eqb_eq. }
  split; [apply GetPatternByName_None |]. split; [apply GetPatternByName_Some |].
  split; [exact Hfirst |].
  intros Hnd found. split; [| intros (pattern & Hq & Hm); eauto].
  rewrite ExtractVersionByDistribution_Ok_iff.
  intros (pre & pattern & post & Htable & Hkeep%String.eqb_eq & Hm & Hpre)%try_patterns_Some_inv.
  exists pattern. split; [| exact Hm].
  destruct (GetPatternByName p distribution) as [q|] eqn:Hq.
  - destruct (GetPatternByName_Some _ _ _ Hq) as (pre' & post' & Htable' & Hqn & _).
    f_equal. rewrite Htable in Hnd.
    assert (Hqin : q ∈ pre ++ pattern :: post).
    { rewrite <- Htable, Htable'. apply elem_of_app. right. left. }
    rewrite fmap_app, fmap_cons in Hnd.
    apply NoDup_app in Hnd as (_ & Hdisj & [Hnotin _]%NoDup_cons).
    apply elem_of_app in Hqin as [Hin | [->| Hin]%elem_of_cons]; [| reflexivity |].
    + exfalso. apply (Hdisj (Name q)).
      * apply list_elem_of_fmap. eauto.
      * rewrite Hqn, <- Hkeep. left.
    + exfalso. apply Hnotin. rewrite Hkeep, <- Hqn.
      apply list_elem_of_fmap. eauto.
  - exfalso. pose proof (proj1 (GetPatternByName_None _ _) Hq) as Hnone.
    apply (Hnone pattern); [| exact Hkeep].
    rewrite Htable. apply elem_of_app. right. left.
Qed.

(** X5.  A filter only removes candidates: when [ExtractVersion] finds
    no match for a path, neither [ExtractVersionByType] nor
    [ExtractVersionByDistribution] does, whatever the type or the
    distribution, and each fails with its own message. *)
Theorem X5_no_match_at_all (p : Parser) (path msg : string) :
  ExtractVersion p path = Err msg ->
  msg = "no pattern matched for path: " +:+ path
  /\ (forall sdkType,
        ExtractVersionByType p path sdkType
        = Err ("no pattern matched for path: " +:+ path +:+ " (type: "
               +:+ sdkType +:+ ")"))
  /\ (forall distribution,
        ExtractVersionByDistribution p path distribution
        = Err ("no pattern matched for path: " +:+ path +:+ " (distribution: "
               +:+ distribution +:+ ")")).
Proof.
  unfold ExtractVersion, ExtractVersionByType, ExtractVersionByDistribution.
  destruct (try_patterns (fun _ => true) (patterns p) path) eqn:Hall; [discriminate |].
  intros [= <-]. split; [reflexivity |].
  pose proof (proj1 (try_patterns_None_iff _ _ _) Hall) as Hnone.
  split; intros x.
  - rewrite (try_patterns_none (type_applies x) (patterns p) path); auto.
  - rewrite (try_patterns_none (fun pattern => String.eqb (Name pattern) x)
               (patterns p) path); auto.
Qed.

End TableFacts.

Section LoaderFacts.
Context `{RegexpEngine}.
Variable ReadFile : string -> Outcome string.
Variable Unmarshal : string -> Outcome (list Pattern).

(** X6.  A parser built by [NewParserWithCustomPatterns] consults the
    custom PatternSets first: its table is the custom PatternSets
    followed by the loaded ones, an extraction returns the custom
    tables' match when there is one and otherwise what the parser built
    by [NewParser] from the same file returns. *)
Theorem X6_custom_patterns_first (patternsPath : string)
  (customPatterns : list Pattern) (p : Parser) :
  NewParserWithCustomPatterns ReadFile Unmarshal patternsPath customPatterns = Ok p ->
  exists builtin,
    NewParser ReadFile Unmarshal patternsPath = Ok builtin
    /\ patterns p = customPatterns ++ patterns builtin
    /\ forall path,
         ExtractVersion p path
         = match ExtractVersion {| patterns := customPatterns |} path with
           | Ok found => Ok found
           | Err _ => ExtractVersion builtin path
           end.
Proof.
  unfold NewParserWithCustomPatterns.
  destruct (NewParser ReadFile Unmarshal patternsPath) as [builtin|err]; [| discriminate].
  intros [= <-]. exists builtin. repeat split.
  intros path. unfold ExtractVersion. cbn [patterns]. rewrite try_patterns_app.
  now destruct (try_patterns _ customPatterns path).
Qed.

End LoaderFacts.

(* ===================================================================== *)
(** ** Further properties: the comparator                                 *)
(* ===================================================================== *)

Section OrderFacts.

Lemma string_compare_refl (s : string) : String.compare s s = Eq.
Proof. now apply (proj2 (String_as_OT.cmp_eq s s)). Qed.

Lemma compare_part_Eq_iff (p q : string) :
  Design.compare_part p q = Eq <-> Props.same_part p q.
Proof.
  unfold Design.compare_part, Props.same_part. split.
  - destruct (Atoi p) as [n1|] eqn:Hp; [destruct (Atoi q) as [n2|] eqn:Hq |].
    + intros ->%Z.compare_eq_iff. right. eauto.
    + intros Heq%String.compare_eq_iff. now left.
    + intros Heq%String.compare_eq_iff. now left.
  - intros [-> | (n & -> & ->)].
    + destruct (Atoi q); [apply Z.compare_refl | apply string_compare_refl].
    + apply Z.compare_refl.
Qed.

Lemma first_difference_tie (l1 l2 : list string) :
  Design.first_difference l1 l2 = Eq /\ length l1 = length l2
  <-> Forall2 Props.same_part l1 l2.
Proof.
  revert l2; induction l1 as [|p l1 IH]; intros [|q l2]; cbn [Design.first_difference length].
  - split; [constructor | now split].
  - split; [intros [_ [=]] | intros Hf; inversion Hf].
  - split; [intros [_ [=]] | intros Hf; inversion Hf].
  - split.
    + intros [Hfd [= Hlen]]. destruct (Design.compare_part p q) eqn:Hc; try discriminate.
      constructor; [now apply compare_part_Eq_iff | apply IH; now split].
    + intros Hf. inversion Hf as [|? ? ? ? Hpq Hrest]; subst.
      apply compare_part_Eq_iff in Hpq. apply IH in Hrest as [Hfd Hlen].
      rewrite Hpq. split; [exact Hfd | now rewrite Hlen].
Qed.

Lemma Design_CompareVersions_cases (v1 v2 : string) :
  (Design.CompareVersions v1 v2 = true /\ Design.CompareVersions v2 v1 = false
   /\ ~ Props.same_age v1 v2)
  \/ (Design.CompareVersions v1 v2 = false /\ Design.CompareVersions v2 v1 = true
      /\ ~ Props.same_age v1 v2)
  \/ (Design.CompareVersions v1 v2 = false /\ Design.CompareVersions v2 v1 = false
      /\ Props.same_age v1 v2).
Proof.
  unfold Props.same_age. rewrite !version_parts_design.
  unfold Design.CompareVersions, Design.verdict.
  rewrite (first_difference_antisym (Design.parts v2) (Design.parts v1)).
  pose proof (first_difference_tie (Design.parts v1) (Design.parts v2)) as Htie.
  destruct (Design.first_difference (Design.parts v1) (Design.parts v2)); cbn [CompOpp].
  - destruct (Nat.lt_trichotomy (length (Design.parts v1)) (length (Design.parts v2)))
      as [Hlt | [Heq | Hgt]].
    + left. repeat split; [now apply Nat.ltb_lt | apply Nat.ltb_ge; lia |].
      intros [_ Hlen]%Htie. lia.
    + right; right. repeat split; [apply Nat.ltb_ge; lia | apply Nat.ltb_ge; lia |].
      now apply Htie.
    + right; left. repeat split; [apply Nat.ltb_ge; lia | now apply Nat.ltb_lt |].
      intros [_ Hlen]%Htie. lia.
  - left. repeat split. intros [Hfd _]%Htie. discriminate.
  - right; left. repeat split. intros [Hfd _]%Htie. discriminate.
Qed.

Lemma same_age_refl (v : string) : Props.same_age v v.
Proof.
  unfold Props.same_age. induction (Version.version_parts v); constructor; auto.
  now left.
Qed.

Lemma numeric_parts (v : string) :
  Props.numeric v = true ->
  Forall (fun part => exists n, Atoi part = Some n) (Design.parts v).
Proof.
  unfold Props.numeric. rewrite version_parts_design.
  induction (Design.parts v) as [|p l IH]; cbn [forallb]; [constructor |].
  intros [Hp Hl]%andb_true_iff. constructor; [| auto].
  destruct (Atoi p); [eauto | discriminate].
Qed.

(** On lists of numeric parts the verdict is the lexicographic order of
    the numbers, shorter first: it is transitive. *)
Lemma verdict_numeric_trans (l1 l2 l3 : list string) :
  Forall (fun part => exists n, Atoi part = Some n) l1 ->
  Forall (fun part => exists n, Atoi part = Some n) l2 ->
  Forall (fun part => exists n, Atoi part = Some n) l3 ->
  Design.verdict l1 l2 (length l1) (length l2) = true ->
  Design.verdict l2 l3 (length l2) (length l3) = true ->
  Design.verdict l1 l3 (length l1) (length l3) = true.
Proof.
  intros H1; revert l2 l3; induction H1 as [|p l1 [n1 Hp] _ IH];
    intros l2 l3 H2 H3; destruct H2 as [|q l2 [n2 Hq] H2]; destruct H3 as [|r l3 [n3 Hr] H3];
    unfold Design.verdict; cbn [Design.first_difference length].
  all: try (intros Hv12 Hv23; first [discriminate Hv12 | discriminate Hv23 | reflexivity]).
  unfold Design.compare_part. rewrite Hp, Hq, Hr.
  destruct (Z.compare_spec n1 n2) as [->|Hlt12|Hgt12]; [| | discriminate];
    destruct (Z.compare_spec n2 n3) as [->|Hlt23|Hgt23]; try discriminate;
    intros Hv12 Hv23; try reflexivity.
  - rewrite ?Z.compare_refl. exact (IH l2 l3 H2 H3 Hv12 Hv23).
  - rewrite ?(proj2 (Z.compare_lt_iff n1 n3) Hlt12). reflexivity.
  - rewrite (proj2 (Z.compare_lt_iff n1 n3)); [reflexivity | lia].
Qed.

End OrderFacts.

(** X7.  Of two versions exactly one holds: the first is older, the
    second is older, or neither is and they have the same number of
    parts, each part equal to its counterpart as text or as the number
    [strconv.Atoi] reads; in particular no version is older than
    itself. *)
Theorem X7_CompareVersions_trichotomy :
  (forall v1 v2 : string,
     (Version.CompareVersions v1 v2 = Some true
      /\ Version.CompareVersions v2 v1 = Some false /\ ~ Props.same_age v1 v2)
     \/ (Version.CompareVersions v1 v2 = Some false
         /\ Version.CompareVersions v2 v1 = Some true /\ ~ Props.same_age v1 v2)
     \/ (Version.CompareVersions v1 v2 = Some false
         /\ Version.CompareVersions v2 v1 = Some false /\ Props.same_age v1 v2))
  /\ (forall v : string, Version.CompareVersions v v = Some false).
Proof.
  assert (Hcases : forall v1 v2 : string,
     (Version.CompareVersions v1 v2 = Some true
      /\ Version.CompareVersions v2 v1 = Some false /\ ~ Props.same_age v1 v2)
     \/ (Version.CompareVersions v1 v2 = Some false
         /\ Version.CompareVersions v2 v1 = Some true /\ ~ Props.same_age v1 v2)
     \/ (Version.CompareVersions v1 v2 = Some false
         /\ Version.CompareVersions v2 v1 = Some false /\ Props.same_age v1 v2)).
  { intros v1 v2. rewrite !CompareVersions_design.
    destruct (Design_CompareVersions_cases v1 v2)
      as [(-> & -> & Hn) | [(-> & -> & Hn) | (-> & -> & Hs)]]; auto. }
  split; [exact Hcases |].
  intros v. destruct (Hcases v v) as [(_ & _ & Hn) | [(_ & _ & Hn) | (Hv & _)]];
    [elim Hn; apply same_age_refl | elim Hn; apply same_age_refl | exact Hv].
Qed.

(** X8.  [CompareVersions] is not transitive: ["2"] is older than
    ["10"] (as numbers), ["10"] older than ["1a"] and ["1a"] older than
    ["2"] (as text). *)
Theorem X8_CompareVersions_not_transitive :
  ~ (forall a b c : string,
       Version.CompareVersions a b = Some true ->
       Version.CompareVersions b c = Some true ->
       Version.CompareVersions a c = Some true).
Proof.
  intros Htrans.
  specialize (Htrans "2" "10" "1a" eq_refl eq_refl). discriminate.
Qed.

(** X9.  On versions all of whose parts [strconv.Atoi] accepts,
    [CompareVersions] is transitive. *)
Theorem X9_CompareVersions_numeric_transitive (a b c : string) :
  Props.numeric a = true -> Props.numeric b = true -> Props.numeric c = true ->
  Version.CompareVersions a b = Some true ->
  Version.CompareVersions b c = Some true ->
  Version.CompareVersions a c = Some true.
Proof.
  intros Ha%numeric_parts Hb%numeric_parts Hc%numeric_parts.
  rewrite !CompareVersions_design. unfold Design.CompareVersions.
  intros [= Hab] [= Hbc]. f_equal.
  exact (verdict_numeric_trans _ _ _ Ha Hb Hc Hab Hbc).
Qed.

Lemma X9_CompareVersions_numeric_transitive_witness :
  Version.CompareVersions "11.0.26_4" "21.0.6_7" = Some true.
Proof.
  apply (X9_CompareVersions_numeric_transitive "11.0.26_4" "17.0.11_10" "21.0.6_7");
    vm_compute; reflexivity.
Defined.

(* ===================================================================== *)
(** ** Further properties: the major version                              *)
(* ===================================================================== *)

Section MajorShapeFacts.

Lemma Atoi_cases (s : string) :
  Atoi s
  = let '(neg, body) :=
      match s with
      | String c rest =>
          if Ascii.eqb c "-" then (true, rest)
          else if Ascii.eqb c "+" then (false, rest)
          else (false, s)
      | EmptyString => (false, s)
      end in
    match body with
    | EmptyString => None
    | _ =>
        match digits_value body 0 with
        | None => None
        | Some n =>
            let v := if neg then (- n)%Z else n in
            if (min_int <=? v)%Z && (v <=? max_int)%Z then Some v else None
        end
    end.
Proof.
  destruct s as [|c rest]; [reflexivity |].
  destruct c as [[] [] [] [] [] [] [] []]; reflexivity.
Qed.

Lemma digits_value_all_digits (s : string) (acc n : Z) :
  digits_value s acc = Some n -> Props.all_bytes is_digit s = true.
Proof.
  revert acc; induction s as [|c s IH]; intros acc; cbn [digits_value Props.all_bytes];
    [reflexivity |].
  destruct (is_digit c); [| discriminate]. exact (IH _).
Qed.

(** What [strconv.Atoi] accepts: a non-empty run of digits, with at most
    a sign before it. *)
Lemma Atoi_Some_shape (s : string) (n : Z) :
  Atoi s = Some n ->
  exists body,
    Props.digit_string body
    /\ (s = body \/ s = String "+" body \/ s = String "-" body).
Proof.
  rewrite Atoi_cases. destruct s as [|c rest]; [discriminate |].
  destruct (Ascii.eqb_spec c "-") as [->|Hminus];
    [| destruct (Ascii.eqb_spec c "+") as [->|Hplus]].
  - destruct rest as [|d rest]; [discriminate |].
    destruct (digits_value (String d rest) 0) eqn:Hd; [| discriminate].
    intros _. exists (String d rest). split; [| auto].
    split; [discriminate | exact (digits_value_all_digits _ _ _ Hd)].
  - destruct rest as [|d rest]; [discriminate |].
    destruct (digits_value (String d rest) 0) eqn:Hd; [| discriminate].
    intros _. exists (String d rest). split; [| auto].
    split; [discriminate | exact (digits_value_all_digits _ _ _ Hd)].
  - destruct (digits_value (String c rest) 0) eqn:Hd; [| discriminate].
    intros _. exists (String c rest). split; [| auto].
    split; [discriminate | exact (digits_value_all_digits _ _ _ Hd)].
Qed.

Lemma take_while_all (f : ascii -> bool) (s : string) :
  Props.all_bytes f (take_while f s) = true.
Proof.
  induction s as [|c s IH]; [reflexivity |]; cbn [take_while].
  destruct (f c) eqn:Hc; [| reflexivity]. cbn [Props.all_bytes]. now rewrite Hc.
Qed.

Lemma before_separator_prefix (s : string) :
  String.prefix (Design.before_separator s) s = true.
Proof.
  induction s as [|c s IH]; [reflexivity |]; cbn [Design.before_separator].
  destruct (Design.is_separator c); [reflexivity |].
  cbn [String.prefix]. destruct (ascii_dec c c); [exact IH | contradiction].
Qed.

Lemma TrimLeft_head (s cutset : string) (c : ascii) (rest : string) :
  TrimLeft s cutset = String c rest -> in_cutset c cutset = false.
Proof.
  induction s as [|d s IH]; cbn [TrimLeft]; [discriminate |].
  destruct (in_cutset d cutset) eqn:Hd; [exact IH |].
  now intros [= <- _].
Qed.

End MajorShapeFacts.

(** X10.  What [ExtractMajor] returns is a prefix of its argument once
    the leading letters, [-] and [_] are stripped, and it is either
    empty or a non-empty run of decimal digits, with a [+] before it at
    most: never a [.], a [u], a letter or a minus sign. *)
Theorem X10_ExtractMajor_shape (v r : string) :
  Version.ExtractMajor v = Some r ->
  HasPrefix (Design.strip_prefix v) r = true
  /\ (r = ""
      \/ exists digits,
           Props.digit_string digits /\ (r = digits \/ r = String "+" digits)).
Proof.
  rewrite ExtractMajor_equation. intros [= <-].
  destruct (Design.leading_integer v) as [d0|] eqn:Hv.
  - destruct (leading_integer_shape _ _ Hv)
      as (d & ds & sep & rest & Hdig & Hd & Hsep & Hs & Htake).
    split.
    + rewrite Hs at 1. rewrite Hdig, append_String, (digit_not_stripped d _ Hd).
      rewrite <- append_String, <- Hdig. apply prefix_append.
    + right. exists d0. split; [| now left].
      split; [rewrite Hdig; discriminate |].
      rewrite <- Htake. apply take_while_all.
  - unfold Design.major_of_remainder.
    destruct (Design.has_separator (Design.strip_prefix v));
      [| split; [apply prefix_nil | now left]].
    destruct (Atoi (Design.before_separator (Design.strip_prefix v))) as [n|] eqn:Hn;
      [| split; [apply prefix_nil | now left]].
    pose proof (before_separator_prefix (Design.strip_prefix v)) as Hpre.
    split; [exact Hpre |].
    destruct (Atoi_Some_shape _ _ Hn) as (body & Hbody & [Hr | [Hr | Hr]]).
    + right. exists body. split; [exact Hbody | now left].
    + right. exists body. split; [exact Hbody | now right].
    + exfalso. rewrite Hr in Hpre.
      destruct (Design.strip_prefix v) as [|c rest] eqn:Hclean; [discriminate |].
      cbn [String.prefix] in Hpre. destruct (ascii_dec "-" c) as [<-|]; [| discriminate].
      apply TrimLeft_head in Hclean. vm_compute in Hclean. discriminate.
Qed.

Lemma X10_ExtractMajor_shape_witness :
  HasPrefix (Design.strip_prefix "jdk-17.0.11") "17" = true
  /\ ("17" = ""
      \/ exists digits,
           Props.digit_string digits /\ ("17" = digits \/ "17" = String "+" digits)).
Proof.
  apply (X10_ExtractMajor_shape "jdk-17.0.11" "17"). vm_compute; reflexivity.
Defined.

(* ===================================================================== *)
(** ** Further properties: the pagination loop                            *)
(* ===================================================================== *)

Section LoopFacts.
Variables (registry : Registry.t) (repoPath apiURL : string).

Lemma status_ok_eqb : (Nexus.StatusOK =? Nexus.StatusOK)%Z = true.
Proof. reflexivity. Qed.

(** A failing exchange after pages that carry a token ends the loop with
    its error, and nothing further is read. *)
Lemma fetch_pages_fails (pages : list Design.Page) (exchange : Nexus.Exchange)
  (extra : list Nexus.Exchange) (msg : string) :
  Forall (fun pg : Design.Page => pg.2 <> "") pages ->
  Props.exchange_error repoPath exchange = Some msg ->
  forall token allItems sent,
    exists sent',
      Nexus.fetch_pages registry repoPath apiURL
        (map Design.page_reply pages ++ exchange :: extra) token allItems sent
      = Nexus.FetchFailed msg sent' extra.
Proof.
  intros Hpages Herr. induction Hpages as [|[items tok] pages Htok _ IH];
    intros token allItems sent.
  - cbn [map app Nexus.fetch_pages]. destruct exchange as [err|err|status body];
      cbn [Props.exchange_error] in Herr.
    + injection Herr as <-. eauto.
    + injection Herr as <-. eauto.
    + destruct (negb (status =? Nexus.StatusOK)%Z); [injection Herr as <-; eauto |].
      destruct body as [err|items tok]; [injection Herr as <-; eauto | discriminate].
  - cbn [map app Design.page_reply fst snd Nexus.fetch_pages].
    rewrite status_ok_eqb. cbn [negb]. cbn [fst snd] in Htok.
    rewrite (token_present tok Htok). apply IH.
Qed.

(** The loop runs dry exactly when every exchange is a page with a
    token. *)
Lemma fetch_pages_unanswered (world : list Nexus.Exchange) :
  forall token allItems sent,
    (exists sent', Nexus.fetch_pages registry repoPath apiURL world token allItems sent
                   = Nexus.Unanswered sent')
    <-> forallb Props.more_pages world = true.
Proof.
  induction world as [|exchange world IH]; intros token allItems sent;
    cbn [Nexus.fetch_pages forallb].
  - split; eauto.
  - destruct exchange as [err|err|status body]; cbn [Props.more_pages andb].
    + split; [intros [? [=]] | discriminate].
    + split; [intros [? [=]] | discriminate].
    + destruct (status =? Nexus.StatusOK)%Z; cbn [negb andb];
        [| destruct body; split; try discriminate; intros [? [=]]].
      destruct body as [err|items tok]; [split; [intros [? [=]] | discriminate] |].
      destruct (negb (String.eqb tok "")); cbn [andb]; [apply IH |].
      split; [intros [? [=]] | discriminate].
Qed.


End LoopFacts.

Section EscapeFacts.

Lemma hex_digits_safe (c : ascii) :
  Props.query_safe (Nexus.hex_digit (N_of_ascii c / 16)) = true
  /\ Props.query_safe (Nexus.hex_digit (N_of_ascii c mod 16)) = true.
Proof. destruct c as [[] [] [] [] [] [] [] []]; split; vm_compute; reflexivity. Qed.

Lemma QueryEscape_safe (s : string) :
  Props.all_bytes Props.query_safe (Nexus.QueryEscape s) = true.
Proof.
  induction s as [|c s IH]; [reflexivity |]; cbn [Nexus.QueryEscape].
  destruct (Nexus.unreserved c) eqn:Hc.
  - cbn [Props.all_bytes]. unfold Props.query_safe at 1. now rewrite Hc, IH.
  - destruct (Ascii.eqb c " "); cbn [Props.all_bytes]; rewrite IH.
    + reflexivity.
    + destruct (hex_digits_safe c) as [-> ->]. reflexivity.
Qed.

Lemma all_bytes_not_Contains (f : ascii -> bool) (s : string) (c : ascii) :
  Props.all_bytes f s = true -> f c = false -> Contains s (String c "") = false.
Proof.
  intros Hs Hc. induction s as [|d s IH]; [reflexivity |].
  cbn [Props.all_bytes] in Hs. apply andb_true_iff in Hs as [Hd Hs].
  rewrite Contains_byte_cons, (IH Hs).
  destruct (Ascii.eqb_spec d c) as [->|]; [congruence | reflexivity].
Qed.

End EscapeFacts.

(** X17.  The continuation token is query-escaped before it goes into
    the request URL: what follows [&continuationToken=] consists of
    letters, digits, [-], [_], [.], [~], [+] and [%] only, so that a
    token can add neither a parameter nor a path to the request. *)
Theorem X17_token_escaped (registry : Registry.t) (apiURL token : string) :
  token <> "" ->
  Nexus.RequestURL (Nexus.build_request registry apiURL token)
  = apiURL +:+ "&continuationToken=" +:+ Nexus.QueryEscape token
  /\ Props.all_bytes Props.query_safe (Nexus.QueryEscape token) = true
  /\ Contains (Nexus.QueryEscape token) "&" = false
  /\ Contains (Nexus.QueryEscape token) "=" = false
  /\ Contains (Nexus.QueryEscape token) "?" = false
  /\ Contains (Nexus.QueryEscape token) "#" = false
  /\ Contains (Nexus.QueryEscape token) "/" = false
  /\ Contains (Nexus.QueryEscape token) " " = false.
Proof.
  intros Htoken. split.
  - cbn [Nexus.build_request Nexus.RequestURL]. now rewrite (token_present token Htoken).
  - pose proof (QueryEscape_safe token) as Hsafe. split; [exact Hsafe |].
    repeat split; apply (all_bytes_not_Contains _ _ _ Hsafe); reflexivity.
Qed.

Lemma X17_token_escaped_witness :
  Nexus.RequestURL (Nexus.build_request Design.nexus_registry "http://nexus/assets?repository=raw"
                      "a&path=/etc")
  = "http://nexus/assets?repository=raw&continuationToken=a%26path%3D%2Fetc".
Proof.
  exact (proj1 (X17_token_escaped Design.nexus_registry "http://nexus/assets?repository=raw"
                  "a&path=/etc" ltac:(discriminate))).
Defined.

(* ===================================================================== *)
(** ** Further properties: [GetAvailableVersions]                         *)
(* ===================================================================== *)

Section ResolverFacts.
Context `{RegexpEngine}.
Variables (c : Nexus.NexusClient) (repo : SDKRepository.t) (registry : Registry.t).

Lemma filter_versions_elem_iff (versionFilter : string) (assets : list SDKAsset.t)
  (a : SDKAsset.t) :
  a ∈ Nexus.filter_versions versionFilter assets
  <-> a ∈ assets
      /\ (versionFilter = "" \/ Contains (SDKAsset.Version a) versionFilter = true).
Proof.
  unfold Nexus.filter_versions.
  destruct (String.eqb_spec versionFilter "") as [->|Hne]; cbn [negb].
  - tauto.
  - rewrite !list_elem_of_In, filter_In. tauto.
Qed.

Lemma scanned_versions (allItems : list NexusAsset.t) (v : string) :
  v ∈ SDKAsset.Version <$> Nexus.sdkAssets (Nexus.scan_items c repo allItems)
  <-> exists item, item ∈ allItems /\ Design.extracted_version c repo item = Some v.
Proof.
  pose proof (scan_items_inv c repo allItems) as [_ _ Hsource Hall]. split.
  - intros (a & -> & Ha)%list_elem_of_fmap.
    destruct (Hsource a Ha) as (item & Hitem & _).
    apply find_some in Hitem as [Hin Hy]. exists item.
    split; [now apply list_elem_of_In | now apply yields_iff].
  - intros (item & Hin & Hv). eauto.
Qed.

Lemma returned_versions (versionFilter : string) (allItems : list NexusAsset.t)
  (assets : list SDKAsset.t) (v : string) :
  Nexus.resolve c repo versionFilter allItems = Ok assets ->
  v ∈ SDKAsset.Version <$> assets
  <-> (exists item, item ∈ allItems /\ Design.extracted_version c repo item = Some v)
      /\ (versionFilter = "" \/ Contains v versionFilter = true).
Proof.
  intros [Hperm _]%resolve_ok_inv. rewrite Hperm, <- scanned_versions. split.
  - intros (a & -> & [Ha Hf]%filter_versions_elem_iff)%list_elem_of_fmap.
    split; [apply list_elem_of_fmap; eauto | exact Hf].
  - intros [(a & -> & Ha)%list_elem_of_fmap Hf].
    apply list_elem_of_fmap. exists a. split; [reflexivity |].
    now apply filter_versions_elem_iff.
Qed.

Lemma resolve_sorted (versionFilter : string) (allItems : list NexusAsset.t)
  (assets : list SDKAsset.t) :
  Nexus.resolve c repo versionFilter allItems = Ok assets ->
  StronglySorted Design.goes_before assets.
Proof.
  unfold Nexus.resolve. destruct (_ =? 0)%nat; [destruct (negb _); discriminate |].
  intros [= <-]. apply sort_slice_sorted, filter_versions_NoDup.
  apply (scan_items_inv c repo allItems).
Qed.

End ResolverFacts.

Section ResolverExtras.
Context `{RegexpEngine}.
Variables (c : Nexus.NexusClient) (repo : SDKRepository.t) (registry : Registry.t).

(** X11.  A page fetch that fails aborts the call: after any number of
    pages that carried a token, a request that cannot be built, a
    transport failure, a status other than 200 or a body that does not
    decode makes [GetAvailableVersions] return the corresponding error,
    without reading further and without any of the items fetched so
    far. *)
Theorem X11_fetch_failure_aborts (versionFilter : string)
  (pages : list Design.Page) (exchange : Nexus.Exchange)
  (extra : list Nexus.Exchange) (msg : string) :
  Forall (fun pg : Design.Page => pg.2 <> "") pages ->
  Props.exchange_error (SDKRepository.Path repo) exchange = Some msg ->
  (exists sent,
     Nexus.fetch_all repo registry (map Design.page_reply pages ++ exchange :: extra)
     = Nexus.FetchFailed msg sent extra)
  /\ Nexus.GetAvailableVersions c repo registry versionFilter
       (map Design.page_reply pages ++ exchange :: extra)
     = Some (Err msg).
Proof.
  intros Hpages Herr.
  destruct (fetch_pages_fails registry (SDKRepository.Path repo)
              (ReplaceAll (Registry.APIURL registry) "{repository}"
                 (SDKRepository.Repository repo))
              pages exchange extra msg Hpages Herr "" [] []) as [sent Hfetch].
  split; [exists sent; exact Hfetch |].
  unfold Nexus.GetAvailableVersions, Nexus.fetch_all. now rewrite Hfetch.
Qed.

(** X12.  [GetAvailableVersions] fails to return exactly when every
    exchange the world offers is a page with a continuation token: as
    soon as the world offers a page without a token or a failure, the
    call returns. *)
Theorem X12_returns_unless_all_pages_have_tokens (versionFilter : string)
  (world : list Nexus.Exchange) :
  Nexus.GetAvailableVersions c repo registry versionFilter world = None
  <-> forallb Props.more_pages world = true.
Proof.
  rewrite <- (fetch_pages_unanswered registry (SDKRepository.Path repo)
                (ReplaceAll (Registry.APIURL registry) "{repository}"
                   (SDKRepository.Repository repo)) world "" [] []).
  unfold Nexus.GetAvailableVersions, Nexus.fetch_all.
  destruct (Nexus.fetch_pages _ _ _ world "" [] []) as [items sent unread|msg sent unread|sent].
  - split; [discriminate | intros [? [=]]].
  - split; [discriminate | intros [? [=]]].
  - split; eauto.
Qed.


(** X14.  A successful result is in strictly descending order of the
    version strings compared byte by byte. *)
Theorem X14_result_sorted (versionFilter : string) (world : list Nexus.Exchange)
  (assets : list SDKAsset.t) :
  Nexus.GetAvailableVersions c repo registry versionFilter world = Some (Ok assets) ->
  StronglySorted
    (fun a b => str_lt (SDKAsset.Version b) (SDKAsset.Version a) = true) assets.
Proof.
  intros (allItems & sent & unread & _ & Hres)%GetAvailableVersions_ok_inv.
  exact (resolve_sorted c repo versionFilter allItems assets Hres).
Qed.

(** X15.  A successful result holds exactly the versions that some
    fetched item yields, after the prefix filter and by extraction for
    the repository's type, and that contain the version filter when one
    is given: none is lost and none is invented. *)
Theorem X15_result_versions (versionFilter : string) (world : list Nexus.Exchange)
  (assets : list SDKAsset.t) :
  Nexus.GetAvailableVersions c repo registry versionFilter world = Some (Ok assets) ->
  exists allItems sent unread,
    Nexus.fetch_all repo registry world = Nexus.Fetched allItems sent unread
    /\ forall v,
         v ∈ SDKAsset.Version <$> assets
         <-> (exists item, item ∈ allItems
                           /\ Design.extracted_version c repo item = Some v)
             /\ (versionFilter = "" \/ Contains v versionFilter = true).
Proof.
  intros (allItems & sent & unread & Hfetch & Hres)%GetAvailableVersions_ok_inv.
  exists allItems, sent, unread. split; [exact Hfetch |].
  intros v. exact (returned_versions c repo versionFilter allItems assets v Hres).
Qed.

(** X16.  With an empty configured path nothing is filtered by prefix:
    every fetched item whose path the extractor accepts for the
    repository's type contributes its version, wherever it lies. *)
Theorem X16_empty_path_keeps_all (versionFilter : string)
  (world : list Nexus.Exchange) (assets : list SDKAsset.t) :
  SDKRepository.Path repo = "" ->
  Nexus.GetAvailableVersions c repo registry versionFilter world = Some (Ok assets) ->
  exists allItems sent unread,
    Nexus.fetch_all repo registry world = Nexus.Fetched allItems sent unread
    /\ forall item v name,
         item ∈ allItems ->
         ExtractVersionByType (Nexus.parser c) (NexusAsset.Path item)
           (SDKRepository.Type_ repo) = Ok (v, name) ->
         versionFilter = "" \/ Contains v versionFilter = true ->
         v ∈ SDKAsset.Version <$> assets.
Proof.
  intros Hpath (allItems & sent & unread & Hfetch & Hres)%GetAvailableVersions_ok_inv.
  exists allItems, sent, unread. split; [exact Hfetch |].
  intros item v name Hin Hex Hf.
  apply (returned_versions c repo versionFilter allItems assets v Hres).
  split; [| exact Hf].
  exists item. split; [exact Hin |].
  unfold Design.extracted_version, Nexus.outside_prefix.
  now rewrite Hpath, Hex.
Qed.

End ResolverExtras.

Section FilterCommutes.

Lemma Permutation_filter {A} (f : A -> bool) (l l' : list A) :
  l ≡ₚ l' -> List.filter f l ≡ₚ List.filter f l'.
Proof.
  induction 1 as [|x l l' _ IH|x y l|l l' l'' _ IH1 _ IH2]; cbn [List.filter].
  - reflexivity.
  - destruct (f x); [now apply perm_skip | exact IH].
  - destruct (f x), (f y); try reflexivity. apply perm_swap.
  - now rewrite IH1.
Qed.

Lemma StronglySorted_filter {A} (R : A -> A -> Prop) (f : A -> bool) (l : list A) :
  StronglySorted R l -> StronglySorted R (List.filter f l).
Proof.
  induction 1 as [|x l _ IH Hx]; cbn [List.filter]; [constructor |].
  destruct (f x); [| exact IH]. constructor; [exact IH |].
  rewrite Forall_forall in Hx |- *. intros y Hy%list_elem_of_In%filter_In.
  apply Hx. now apply list_elem_of_In.
Qed.

Lemma NoDup_versions_filter (f : SDKAsset.t -> bool) (l : list SDKAsset.t) :
  NoDup (SDKAsset.Version <$> l) -> NoDup (SDKAsset.Version <$> List.filter f l).
Proof.
  induction l as [|a l IH]; [auto |].
  cbn [fmap list_fmap List.filter]. intros [Hnotin Hnd]%NoDup_cons.
  destruct (f a); [| auto].
  cbn [fmap list_fmap]. apply NoDup_cons. split; [| auto].
  intros (b & Hb & Hin)%list_elem_of_fmap. apply Hnotin.
  apply list_elem_of_fmap. exists b. split; [exact Hb |].
  apply list_elem_of_In in Hin. apply filter_In in Hin as [Hin _].
  now apply list_elem_of_In.
Qed.

(** With distinct versions, sorting what a filter keeps is keeping what
    the filter keeps of the sorted list. *)
Lemma sort_filter_commute (f : SDKAsset.t -> bool) (l : list SDKAsset.t) :
  NoDup (SDKAsset.Version <$> l) ->
  Nexus.sort_slice Nexus.version_desc (List.filter f l)
  = List.filter f (Nexus.sort_slice Nexus.version_desc l).
Proof.
  intros Hnd. symmetry. apply sort_slice_unique.
  - now apply NoDup_versions_filter.
  - apply Permutation_filter, sort_slice_perm.
  - apply StronglySorted_filter. now apply sort_slice_sorted.
Qed.

End FilterCommutes.

Section FilterExtras.
Context `{RegexpEngine}.
Variables (c : Nexus.NexusClient) (repo : SDKRepository.t) (registry : Registry.t).

(** X18.  Asking for a version filter is the same as filtering the
    unfiltered result afterwards: what the call returns with a filter is
    the unfiltered result restricted to the versions containing the
    filter, in the same order, or the empty-result error when none
    does. *)
Theorem X18_filter_afterwards (versionFilter : string)
  (world : list Nexus.Exchange) (all : list SDKAsset.t) :
  versionFilter <> "" ->
  Nexus.GetAvailableVersions c repo registry "" world = Some (Ok all) ->
  Nexus.GetAvailableVersions c repo registry versionFilter world
  = Some match List.filter
                 (fun asset => Contains (SDKAsset.Version asset) versionFilter) all with
         | [] => Err (Design.empty_result_message versionFilter (SDKRepository.Path repo))
         | kept => Ok kept
         end.
Proof.
  intros Hvf. unfold Nexus.GetAvailableVersions.
  destruct (Nexus.fetch_all repo registry world) as [allItems sent unread| |];
    [| discriminate | discriminate].
  unfold Nexus.resolve, Nexus.filter_versions, Design.empty_result_message.
  rewrite (token_present versionFilter Hvf). cbn [String.eqb negb].
  set (scanned := Nexus.sdkAssets (Nexus.scan_items c repo allItems)).
  assert (Hnd : NoDup (SDKAsset.Version <$> scanned))
    by apply (scan_items_inv c repo allItems).
  destruct (length scanned =? 0)%nat; [discriminate |].
  intros [= <-]. f_equal.
  rewrite <- (sort_filter_commute _ scanned Hnd).
  set (kept := List.filter _ scanned).
  pose proof (sort_slice_perm Nexus.version_desc kept) as Hperm.
  destruct kept as [|a kept'] eqn:Hkept; [reflexivity |].
  cbn [length Nat.eqb].
  destruct (Nexus.sort_slice Nexus.version_desc (a :: kept')) eqn:Hsorted;
    [| reflexivity].
  apply Permutation_nil in Hperm. discriminate.
Qed.

End FilterExtras.

Lemma X18_filter_afterwards_witness :
  Nexus.GetAvailableVersions Design.temurin_client Design.temurin_repo
    Design.nexus_registry "17" Design.two_pages
  = Some (Ok [ Design.asset_of "17.0.15_6"
                 (Design.item "/jdk/temurin/jdk-17.0.15_6-linux.tar.gz") ]).
Proof.
  exact (@X18_filter_afterwards GoRegexp.engine Design.temurin_client Design.temurin_repo
           Design.nexus_registry "17" Design.two_pages Design.two_pages_assets
           ltac:(discriminate) ltac:(vm_compute; reflexivity)).
Defined.

(* ===================================================================== *)
(** ** Further properties: the fetcher and the install handler            *)
(* ===================================================================== *)

Section FetcherFacts.
Context `{RegexpEngine}.
Variable ReadFile : string -> Outcome string.
Variable Unmarshal : string -> Outcome (list Pattern).

Lemma FetchAvailableVersions_Ok_inv (repo : SDKRepository.t) (registry : Registry.t)
  (versionFilter : string) (opts : list Opt) (world : list Nexus.Exchange)
  (fetched : Repository.Fetched) (assets : list SDKAsset.t) :
  Repository.FetchAvailableVersions ReadFile Unmarshal repo registry versionFilter
    opts world = Some fetched ->
  Repository.returned fetched = Ok assets ->
  Registry.Type_ registry = "nexus"
  /\ Repository.displayed fetched
     = (if negb (Repository.json_output opts) then Some assets else None)
  /\ exists parser,
       NewParser ReadFile Unmarshal (Repository.patterns_file_path opts) = Ok parser
       /\ Nexus.GetAvailableVersions {| Nexus.parser := parser |} repo registry
            versionFilter world = Some (Ok assets).
Proof.
  unfold Repository.FetchAvailableVersions, Repository.NewNexusClientWithConfig.
  destruct (String.eqb_spec (Registry.Type_ registry) "nexus") as [Htype|Htype].
  - destruct (NewParser ReadFile Unmarshal _) as [parser|err].
    + destruct (Nexus.GetAvailableVersions _ repo registry versionFilter world)
        as [[got|err]|] eqn:Hget; [| |discriminate].
      * intros [= <-] [= <-]. cbn [Repository.displayed]. eauto.
      * intros [= <-]. discriminate.
    + intros [= <-]. discriminate.
  - intros [= <-]. discriminate.
Qed.

(** X19.  [FetchAvailableVersions] fails without issuing a request, in
    the same way whatever the registry would answer, when the registry's
    type is not ["nexus"] and when no patterns path is given as second
    option; [NewNexusClient], which passes no path, fails on every file
    system. *)
Theorem X19_fails_before_any_request (repo : SDKRepository.t) (registry : Registry.t)
  (versionFilter : string) (opts : list Opt) :
  Registry.Type_ registry <> "nexus" \/ Repository.patterns_file_path opts = "" ->
  (forall world,
     Repository.FetchAvailableVersions ReadFile Unmarshal repo registry versionFilter
       opts world
     = Some {| Repository.returned :=
                 Err (if String.eqb (Registry.Type_ registry) "nexus"
                      then "failed to initialize Nexus client: failed to initialize version parser: patterns file path not configured. Please set 'patterns_file' in strigo.toml, use --patterns flag, or set STRIGO_PATTERNS_PATH environment variable"
                      else "unsupported repository type: " +:+ Registry.Type_ registry);
               Repository.displayed := None |})
  /\ Repository.NewNexusClient ReadFile Unmarshal
     = Err "failed to initialize version parser: patterns file path not configured. Please set 'patterns_file' in strigo.toml, use --patterns flag, or set STRIGO_PATTERNS_PATH environment variable".
Proof.
  intros Hcause. split; [| reflexivity].
  intros world. unfold Repository.FetchAvailableVersions.
  destruct (String.eqb_spec (Registry.Type_ registry) "nexus") as [Htype|Htype];
    [| reflexivity].
  destruct Hcause as [Hne | Hpath]; [contradiction |].
  unfold Repository.NewNexusClientWithConfig, NewParser. now rewrite Hpath.
Qed.

(** X20.  [FetchAvailableVersions] displays versions only when it
    succeeds and its first option is not the bool [true]; what it then
    displays is the list it returns, and that list is never empty. *)
Theorem X20_display_only_on_success (repo : SDKRepository.t) (registry : Registry.t)
  (versionFilter : string) (opts : list Opt) (world : list Nexus.Exchange)
  (fetched : Repository.Fetched) :
  Repository.FetchAvailableVersions ReadFile Unmarshal repo registry versionFilter
    opts world = Some fetched ->
  Repository.returned fetched <> Ok []
  /\ (forall shown,
        Repository.displayed fetched = Some shown
        <-> Repository.returned fetched = Ok shown
            /\ Repository.json_output opts = false).
Proof.
  intros Hcall. split.
  - intros Hempty.
    destruct (FetchAvailableVersions_Ok_inv _ _ _ _ _ _ _ Hcall Hempty)
      as (_ & _ & parser & _ & Hget).
    exact (GetAvailableVersions_never_empty _ _ _ _ _ Hget).
  - intros shown. destruct (Repository.returned fetched) as [assets|err] eqn:Hret.
    + destruct (FetchAvailableVersions_Ok_inv _ _ _ _ _ _ _ Hcall Hret) as (_ & -> & _).
      destruct (Repository.json_output opts); cbn [negb].
      * split; [discriminate | intros [_ [=]]].
      * split; [intros [= ->]; auto | intros [[= ->] _]; reflexivity].
    + split; [| intros [[=] _]].
      revert Hcall Hret. unfold Repository.FetchAvailableVersions.
      destruct (String.eqb _ "nexus");
        [destruct (Repository.NewNexusClientWithConfig _ _ _) as [client|e];
         [destruct (Nexus.GetAvailableVersions _ _ _ _ _) as [[got|e]|] |] |];
        try discriminate; intros [= <-]; cbn; try discriminate.
Qed.

End FetcherFacts.

Section InstallFacts.
Context `{RegexpEngine}.
Variable ReadFile : string -> Outcome string.
Variable Unmarshal : string -> Outcome (list Pattern).

Lemma prefix_refl (s : string) : String.prefix s s = true.
Proof. rewrite <- (append_nil_r s) at 2. apply prefix_append. Qed.

Lemma Contains_refl (s : string) : Contains s s = true.
Proof. destruct s; cbn [Contains]; now rewrite prefix_refl. Qed.

Lemma matched_asset_Some (assets : list SDKAsset.t) (version : string) (a : SDKAsset.t) :
  Cmd.matched_asset assets version = Some a ->
  a ∈ assets /\ SDKAsset.Version a = version.
Proof.
  intros [Hin Hv%String.eqb_eq]%find_some. split; [now apply list_elem_of_In | exact Hv].
Qed.

Lemma matched_asset_exists (assets : list SDKAsset.t) (version : string) :
  version ∈ SDKAsset.Version <$> assets ->
  exists a, Cmd.matched_asset assets version = Some a.
Proof.
  intros (b & Hb & Hin)%list_elem_of_fmap. unfold Cmd.matched_asset.
  destruct (List.find _ assets) as [a|] eqn:Hfind; [eauto |].
  apply list_elem_of_In in Hin.
  pose proof (find_none _ _ Hfind b Hin) as Hnone. cbn in Hnone.
  rewrite <- Hb, String.eqb_refl in Hnone. discriminate.
Qed.

(** An asset of a successful result with a given version is the one
    built from the first item that yields this version. *)
Lemma returned_asset_source (c : Nexus.NexusClient) (repo : SDKRepository.t)
  (versionFilter : string) (allItems : list NexusAsset.t)
  (assets : list SDKAsset.t) (a : SDKAsset.t) :
  Nexus.resolve c repo versionFilter allItems = Ok assets ->
  a ∈ assets ->
  exists item,
    Design.first_source c repo allItems (SDKAsset.Version a) = Some item
    /\ a = Design.asset_of (SDKAsset.Version a) item.
Proof.
  intros Hres Ha. apply (returned_asset_scanned c repo _ _ _ _ Hres) in Ha.
  pose proof (scan_items_inv c repo allItems) as [_ _ Hsource _].
  exact (Hsource a Ha).
Qed.

(** X21.  When [handleInstall] settles on an asset, the asset's version
    is exactly the version asked for, not one that merely contains it,
    and its download URL is that of the first item of the listing, under
    the distribution's path, from which the extractor reads this
    version. *)
Theorem X21_install_exact_version (cfg : Config.t)
  (patternsFilePath sdkType distribution version : string)
  (world : list Nexus.Exchange) (asset : SDKAsset.t) :
  Cmd.handleInstall_asset ReadFile Unmarshal cfg patternsFilePath sdkType
    distribution version world = Some (Ok asset) ->
  SDKAsset.Version asset = version
  /\ exists sdkRepo registry parser allItems sent unread item,
       Config.SDKRepositories cfg !! distribution = Some sdkRepo
       /\ Config.Registries cfg !! SDKRepository.Registry sdkRepo = Some registry
       /\ NewParser ReadFile Unmarshal patternsFilePath = Ok parser
       /\ Nexus.fetch_all sdkRepo registry world = Nexus.Fetched allItems sent unread
       /\ Design.first_source {| Nexus.parser := parser |} sdkRepo allItems version
          = Some item
       /\ asset = Design.asset_of version item.
Proof.
  unfold Cmd.handleInstall_asset.
  destruct (Config.SDKTypes cfg !! sdkType) as [sdkTypeConfig|]; [| discriminate].
  destruct (Config.SDKRepositories cfg !! distribution) as [sdkRepo|] eqn:Hrepo;
    [| discriminate].
  destruct (negb _); [discriminate |].
  destruct (Config.Registries cfg !! SDKRepository.Registry sdkRepo) as [registry|]
    eqn:Hreg; [| discriminate].
  destruct (Repository.FetchAvailableVersions _ _ _ _ _ _ _) as [fetched|] eqn:Hcall;
    [| discriminate].
  destruct (Repository.returned fetched) as [assets|err] eqn:Hret; [| discriminate].
  destruct (Cmd.matched_asset assets version) as [a|] eqn:Hfind; [| discriminate].
  intros [= ->].
  destruct (matched_asset_Some _ _ _ Hfind) as [Hin Hv].
  split; [exact Hv |].
  destruct (FetchAvailableVersions_Ok_inv _ _ _ _ _ _ _ _ _ Hcall Hret)
    as (_ & _ & parser & Hparser & Hget).
  cbn [Repository.patterns_file_path] in Hparser.
  apply GetAvailableVersions_ok_inv in Hget
    as (allItems & sent & unread & Hfetch & Hres).
  destruct (returned_asset_source _ _ _ _ _ _ Hres Hin) as (item & Hitem & Heq).
  rewrite Hv in Hitem, Heq.
  exists sdkRepo, registry, parser, allItems, sent, unread, item. auto 10.
Qed.

(** X22.  Conversely, when the configuration names the type, the
    distribution and a nexus registry, the patterns load and the listing
    is fetched, [handleInstall] settles on an asset as soon as some item
    under the distribution's path yields exactly the version asked for:
    the asset built from the first such item. *)
Theorem X22_install_finds_version (cfg : Config.t)
  (patternsFilePath sdkType distribution version : string)
  (world : list Nexus.Exchange)
  (sdkTypeConfig : SDKType.t) (sdkRepo : SDKRepository.t) (registry : Registry.t)
  (parser : Parser) (allItems : list NexusAsset.t) (sent : list Nexus.Request)
  (unread : list Nexus.Exchange) (item : NexusAsset.t) :
  Config.SDKTypes cfg !! sdkType = Some sdkTypeConfig ->
  Config.SDKRepositories cfg !! distribution = Some sdkRepo ->
  SDKRepository.Type_ sdkRepo = SDKType.Type_ sdkTypeConfig ->
  Config.Registries cfg !! SDKRepository.Registry sdkRepo = Some registry ->
  Registry.Type_ registry = "nexus" ->
  NewParser ReadFile Unmarshal patternsFilePath = Ok parser ->
  Nexus.fetch_all sdkRepo registry world = Nexus.Fetched allItems sent unread ->
  Design.first_source {| Nexus.parser := parser |} sdkRepo allItems version = Some item ->
  Cmd.handleInstall_asset ReadFile Unmarshal cfg patternsFilePath sdkType
    distribution version world
  = Some (Ok (Design.asset_of version item)).
Proof.
  intros Htype Hrepo Hsame Hreg Hnexus Hparser Hfetch Hitem.
  set (client := {| Nexus.parser := parser |}) in *.
  assert (Hyield : Design.extracted_version client sdkRepo item = Some version
                   /\ item ∈ allItems).
  { apply find_some in Hitem as [Hin Hy]. split;
      [now apply yields_iff | now apply list_elem_of_In]. }
  destruct Hyield as [Hyield Hin].
  destruct (Nexus.resolve client sdkRepo version allItems) as [assets|err] eqn:Hres.
  - assert (Hv : version ∈ SDKAsset.Version <$> assets).
    { apply (returned_versions client sdkRepo version allItems assets version Hres).
      split; [eauto | right; apply Contains_refl]. }
    destruct (matched_asset_exists _ _ Hv) as [a Hfind].
    destruct (matched_asset_Some _ _ _ Hfind) as [Ha Hav].
    destruct (returned_asset_source _ _ _ _ _ _ Hres Ha) as (item' & Hitem' & Heq).
    rewrite Hav in Hitem', Heq. rewrite Hitem in Hitem'. injection Hitem' as <-.
    unfold Cmd.handleInstall_asset, Repository.FetchAvailableVersions,
      Repository.NewNexusClientWithConfig, Nexus.GetAvailableVersions.
    cbn [Repository.patterns_file_path].
    rewrite Htype, Hrepo, Hsame, String.eqb_refl, Hreg, Hnexus, String.eqb_refl,
      Hparser, Hfetch.
    cbn [negb]. fold client. rewrite Hres.
    cbn [Repository.returned]. now rewrite Hfind, Heq.
  - exfalso. revert Hres. unfold Nexus.resolve.
    set (kept := Nexus.filter_versions version _).
    assert (Hkept : exists a, a ∈ kept).
    { assert (Hs : version ∈ SDKAsset.Version <$>
                     Nexus.sdkAssets (Nexus.scan_items client sdkRepo allItems))
        by (apply scanned_versions; eauto).
      apply list_elem_of_fmap in Hs as (a & Ha & Hina). exists a.
      apply filter_versions_elem_iff. split; [exact Hina |].
      right. rewrite <- Ha. apply Contains_refl. }
    destruct Hkept as [a Ha]. destruct kept; [now apply elem_of_nil in Ha |].
    discriminate.
Qed.

End InstallFacts.

(* ===================================================================== *)
(** ** The further properties on the example listing                      *)
(* ===================================================================== *)

Lemma X1_by_distribution_sound_witness :
  "temurin" = "temurin"
  /\ exists pre pattern post,
       patterns Design.minimal_default_patterns = pre ++ pattern :: post
       /\ Name pattern = "temurin"
       /\ Design.pattern_match "/jdk/temurin/jdk-11.0.24_8-linux.tar.gz" pattern
          = Some ("11.0.24_8", "temurin")
       /\ forall p0, p0 ∈ pre -> Name p0 = "temurin" ->
                     Design.pattern_match "/jdk/temurin/jdk-11.0.24_8-linux.tar.gz" p0
                     = None.
Proof.
  apply (@X1_by_distribution_sound GoRegexp.engine Design.minimal_default_patterns
           "/jdk/temurin/jdk-11.0.24_8-linux.tar.gz" "temurin" "11.0.24_8" "temurin").
  vm_compute; reflexivity.
Defined.

Lemma X2_by_type_sound_witness :
  exists pattern,
    pattern ∈ patterns Design.minimal_default_patterns
    /\ (Type_ pattern = "node" \/ Type_ pattern = "*")
    /\ Name pattern = "generic-version"
    /\ Design.pattern_match "/node/node-v22.13.1-linux-x64.tar.xz" pattern
       = Some ("22.13.1", "generic-version").
Proof.
  apply (@X2_by_type_sound GoRegexp.engine Design.minimal_default_patterns
           "/node/node-v22.13.1-linux-x64.tar.xz" "node" "22.13.1" "generic-version").
  vm_compute; reflexivity.
Defined.

Lemma X4_by_name_witness :
  ExtractVersionByDistribution Examples.named_table
    "/jdk/temurin/jdk-11.0.24_8-linux.tar.gz" "t" = Ok ("11.0.24_8", "t")
  <-> exists pattern,
        GetPatternByName Examples.named_table "t" = Some pattern
        /\ Design.pattern_match "/jdk/temurin/jdk-11.0.24_8-linux.tar.gz" pattern
           = Some ("11.0.24_8", "t").
Proof.
  refine (proj2 (proj2 (proj2 (@X4_by_name GoRegexp.engine Examples.named_table
                                 "/jdk/temurin/jdk-11.0.24_8-linux.tar.gz" "t")))
            _ ("11.0.24_8", "t")).
  cbn. repeat constructor; rewrite ?elem_of_cons, ?elem_of_nil; intuition discriminate.
Defined.

Lemma X5_no_match_at_all_witness :
  ExtractVersionByType Design.scenario_a "/jdk/temurin/README.txt" "jdk"
  = Err "no pattern matched for path: /jdk/temurin/README.txt (type: jdk)".
Proof.
  refine (proj1 (proj2 (@X5_no_match_at_all GoRegexp.engine Design.scenario_a
                          "/jdk/temurin/README.txt"
                          "no pattern matched for path: /jdk/temurin/README.txt" _))
            "jdk").
  vm_compute; reflexivity.
Defined.

Lemma X6_custom_patterns_first_witness :
  exists builtin,
    NewParser Examples.read_file Examples.unmarshal "strigopatterns.toml" = Ok builtin
    /\ patterns {| patterns := Examples.custom_patterns
                               ++ patterns Design.minimal_default_patterns |}
       = Examples.custom_patterns ++ patterns builtin
    /\ forall path,
         ExtractVersion {| patterns := Examples.custom_patterns
                                       ++ patterns Design.minimal_default_patterns |} path
         = match ExtractVersion {| patterns := Examples.custom_patterns |} path with
           | Ok found => Ok found
           | Err _ => ExtractVersion builtin path
           end.
Proof.
  apply (@X6_custom_patterns_first GoRegexp.engine Examples.read_file Examples.unmarshal
           "strigopatterns.toml" Examples.custom_patterns).
  vm_compute; reflexivity.
Defined.

Lemma X11_fetch_failure_aborts_witness :
  Nexus.GetAvailableVersions Design.temurin_client Design.temurin_repo
    Design.nexus_registry ""
    (map Design.page_reply [Design.page_one]
     ++ Nexus.Reply 503 (Nexus.Listing Design.page_two "") :: Design.two_pages)
  = Some (Err "nexus API returned 503: Check if the path jdk/temurin exists in Nexus").
Proof.
  apply (@X11_fetch_failure_aborts GoRegexp.engine Design.temurin_client
           Design.temurin_repo Design.nexus_registry "" [Design.page_one]
           (Nexus.Reply 503 (Nexus.Listing Design.page_two "")) Design.two_pages).
  - repeat constructor. discriminate.
  - vm_compute; reflexivity.
Defined.

Lemma X14_result_sorted_witness :
  StronglySorted
    (fun a b => str_lt (SDKAsset.Version b) (SDKAsset.Version a) = true)
    Design.two_pages_assets.
Proof.
  apply (@X14_result_sorted GoRegexp.engine Design.temurin_client Design.temurin_repo
           Design.nexus_registry "" Design.two_pages).
  vm_compute; reflexivity.
Defined.

Lemma X15_result_versions_witness :
  exists allItems sent unread,
    Nexus.fetch_all Design.temurin_repo Design.nexus_registry Design.two_pages
    = Nexus.Fetched allItems sent unread
    /\ forall v,
         v ∈ SDKAsset.Version <$> Design.two_pages_assets
         <-> (exists item,
                item ∈ allItems
                /\ Design.extracted_version Design.temurin_client Design.temurin_repo item
                   = Some v)
             /\ ("" = "" \/ Contains v "" = true).
Proof.
  apply (@X15_result_versions GoRegexp.engine Design.temurin_client Design.temurin_repo
           Design.nexus_registry "" Design.two_pages).
  vm_compute; reflexivity.
Defined.

Lemma X16_empty_path_keeps_all_witness :
  exists allItems sent unread,
    Nexus.fetch_all Examples.whole_repo Design.nexus_registry Design.two_pages
    = Nexus.Fetched allItems sent unread
    /\ forall item v name,
         item ∈ allItems ->
         ExtractVersionByType (Nexus.parser Design.temurin_client) (NexusAsset.Path item)
           (SDKRepository.Type_ Examples.whole_repo) = Ok (v, name) ->
         "" = "" \/ Contains v "" = true ->
         v ∈ SDKAsset.Version
               <$> [ Design.asset_of "23.0.1_1"
                       (Design.item "/jdk/temurin-nightly/jdk-23.0.1_1-linux.tar.gz");
                     Design.asset_of "17.0.15_6"
                       (Design.item "/jdk/temurin/jdk-17.0.15_6-linux.tar.gz");
                     Design.asset_of "11.0.24_8"
                       (Design.item "/jdk/temurin/jdk-11.0.24_8-linux.tar.gz") ].
Proof.
  apply (@X16_empty_path_keeps_all GoRegexp.engine Design.temurin_client
           Examples.whole_repo Design.nexus_registry "" Design.two_pages).
  - reflexivity.
  - vm_compute; reflexivity.
Defined.

Lemma X19_fails_before_any_request_witness :
  Repository.FetchAvailableVersions Examples.read_file Examples.unmarshal
      Design.temurin_repo Design.nexus_registry "17" [OptBool true] Design.two_pages
    = Some {| Repository.returned :=
                Err "failed to initialize Nexus client: failed to initialize version parser: patterns file path not configured. Please set 'patterns_file' in strigo.toml, use --patterns flag, or set STRIGO_PATTERNS_PATH environment variable";
              Repository.displayed := None |}.
Proof.
  refine (proj1 (@X19_fails_before_any_request GoRegexp.engine Examples.read_file
                   Examples.unmarshal Design.temurin_repo Design.nexus_registry "17"
                   [OptBool true] _) Design.two_pages).
  right. reflexivity.
Defined.

Lemma X20_display_only_on_success_witness :
  Repository.displayed
    {| Repository.returned := Ok Design.two_pages_assets;
       Repository.displayed := Some Design.two_pages_assets |}
  = Some Design.two_pages_assets
  <-> Repository.returned
        {| Repository.returned := Ok Design.two_pages_assets;
           Repository.displayed := Some Design.two_pages_assets |}
      = Ok Design.two_pages_assets
      /\ Repository.json_output [OptBool false; OptString "strigopatterns.toml"] = false.
Proof.
  refine (proj2 (@X20_display_only_on_success GoRegexp.engine Examples.read_file
                   Examples.unmarshal Design.temurin_repo Design.nexus_registry ""
                   [OptBool false; OptString "strigopatterns.toml"] Design.two_pages
                   {| Repository.returned := Ok Design.two_pages_assets;
                      Repository.displayed := Some Design.two_pages_assets |} _)
            Design.two_pages_assets).
  vm_compute; reflexivity.
Defined.

Lemma X21_install_exact_version_witness :
  SDKAsset.Version
    (Design.asset_of "17.0.15_6" (Design.item "/jdk/temurin/jdk-17.0.15_6-linux.tar.gz"))
  = "17.0.15_6".
Proof.
  apply (@X21_install_exact_version GoRegexp.engine Examples.read_file Examples.unmarshal
           Examples.config "strigopatterns.toml" "jdk" "temurin" "17.0.15_6"
           Design.two_pages).
  vm_compute; reflexivity.
Defined.

Lemma X22_install_finds_version_witness :
  Cmd.handleInstall_asset Examples.read_file Examples.unmarshal Examples.config
    "strigopatterns.toml" "jdk" "temurin" "11.0.24_8" Design.two_pages
  = Some (Ok (Design.asset_of "11.0.24_8"
                (Design.item "/jdk/temurin/jdk-11.0.24_8-linux.tar.gz"))).
Proof.
  apply (@X22_install_finds_version GoRegexp.engine Examples.read_file Examples.unmarshal
           Examples.config "strigopatterns.toml" "jdk" "temurin" "11.0.24_8"
           Design.two_pages
           {| SDKType.Type_ := "jdk"; SDKType.InstallDir := "jdks" |}
           Design.temurin_repo Design.nexus_registry Design.minimal_default_patterns
           (Design.page_one.1 ++ Design.page_two)
           (Props.requests_of
              (Nexus.fetch_all Design.temurin_repo Design.nexus_registry Design.two_pages))
           []); vm_compute; reflexivity.
Defined.


(* ===================================================================== *)
(** ** Further properties: what the commands display                      *)
(* ===================================================================== *)

Section ItoaFacts.

Lemma digits_value_uint_pos (d : Decimal.uint) (p : positive) :
  digits_value (NilEmpty.string_of_uint d) (Z.pos p)
  = Some (Z.pos (Pos.of_uint_acc d p)).
Proof.
  revert p; induction d as [|d IH|d IH|d IH|d IH|d IH|d IH|d IH|d IH|d IH|d IH];
    intros p; cbn [NilEmpty.string_of_uint digits_value Pos.of_uint_acc];
    [reflexivity | ..];
    (match goal with
     | |- context [is_digit ?c] => change (is_digit c) with true
     end; cbv iota;
     match goal with
     | |- digits_value _ ?acc = Some (Z.pos (Pos.of_uint_acc _ ?q)) =>
         replace acc with (Z.pos q) by (unfold digit_value; cbn; lia)
     end; apply IH).
Qed.

Lemma digits_value_uint (d : Decimal.uint) :
  digits_value (NilEmpty.string_of_uint d) 0 = Some (Z.of_N (Pos.of_uint d)).
Proof.
  induction d as [|d IH|d IH|d IH|d IH|d IH|d IH|d IH|d IH|d IH|d IH];
    cbn [NilEmpty.string_of_uint digits_value Pos.of_uint];
    [reflexivity | exact IH | ..];
    (match goal with
     | |- context [is_digit ?c] => change (is_digit c) with true
     end; cbv iota;
     match goal with
     | |- digits_value _ ?acc = Some (Z.of_N (N.pos (Pos.of_uint_acc _ ?q))) =>
         replace acc with (Z.pos q) by (unfold digit_value; cbn; lia)
     end; apply digits_value_uint_pos).
Qed.

Lemma to_uint_nonnil (p : positive) : Pos.to_uint p <> Decimal.Nil.
Proof.
  intros Hnil. pose proof (DecimalPos.Unsigned.of_to p) as Hp.
  rewrite Hnil in Hp. discriminate.
Qed.

(** A decimal numeral starts with a digit. *)
Lemma string_of_uint_head (d : Decimal.uint) :
  d <> Decimal.Nil ->
  exists c rest,
    NilEmpty.string_of_uint d = String c rest
    /\ Ascii.eqb c "-" = false /\ Ascii.eqb c "+" = false.
Proof.
  destruct d; [congruence | ..]; intros _; cbn [NilEmpty.string_of_uint];
    eexists _, _; (split; [reflexivity | split; reflexivity]).
Qed.

Lemma Atoi_digits (s : string) (n : Z) :
  (exists c rest, s = String c rest
                  /\ Ascii.eqb c "-" = false /\ Ascii.eqb c "+" = false) ->
  digits_value s 0 = Some n ->
  (n <= max_int)%Z ->
  (0 <= n)%Z ->
  Atoi s = Some n.
Proof.
  intros (c & rest & -> & Hm & Hp) Hd Hmax Hpos. rewrite Atoi_cases, Hm, Hp.
  assert (H1 : (min_int <=? n)%Z = true) by (apply Z.leb_le; unfold min_int; lia).
  assert (H2 : (n <=? max_int)%Z = true) by now apply Z.leb_le.
  cbv iota beta. rewrite Hd. cbv zeta. now rewrite H1, H2.
Qed.

(** [strconv.Atoi] reads back what [strconv.Itoa] writes. *)
Lemma Atoi_itoa (n : Z) :
  (min_int <= n <= max_int)%Z -> Atoi (Nexus.itoa n) = Some n.
Proof.
  intros [Hmin Hmax]. unfold Nexus.itoa. destruct n as [|p|p]; cbn [Z.to_int].
  - reflexivity.
  - cbn [NilZero.string_of_int]. unfold NilZero.string_of_uint.
    pose proof (to_uint_nonnil p) as Hnil.
    destruct (Pos.to_uint p) as [|d|d|d|d|d|d|d|d|d|d] eqn:Hd; [congruence | ..];
      rewrite <- Hd in *;
      (apply Atoi_digits; [now apply string_of_uint_head | | exact Hmax | lia];
       now rewrite digits_value_uint, DecimalPos.Unsigned.of_to).
  - cbn [NilZero.string_of_int]. unfold NilZero.string_of_uint.
    pose proof (to_uint_nonnil p) as Hnil.
    assert (Hs : (match Pos.to_uint p with
                  | Decimal.Nil => "0"
                  | _ => NilEmpty.string_of_uint (Pos.to_uint p)
                  end) = NilEmpty.string_of_uint (Pos.to_uint p))
      by (destruct (Pos.to_uint p); congruence).
    rewrite Hs, Atoi_cases, Ascii.eqb_refl. cbv iota beta.
    destruct (string_of_uint_head _ Hnil) as (c & rest & Hc & _ & _).
    pose proof (digits_value_uint (Pos.to_uint p)) as Hv.
    rewrite DecimalPos.Unsigned.of_to in Hv. rewrite Hc in Hv |- *. rewrite Hv.
    assert (H1 : (min_int <=? Z.neg p)%Z = true) by now apply Z.leb_le.
    assert (H2 : (Z.neg p <=? max_int)%Z = true)
      by (apply Z.leb_le; unfold max_int; lia).
    cbv beta iota zeta. cbn [Z.of_N]. change (- Z.pos p)%Z with (Z.neg p). now rewrite H1, H2.
Qed.

Lemma Atoi_body_range (neg : bool) (body : string) (n : Z) :
  match body with
  | EmptyString => None
  | _ =>
      match digits_value body 0 with
      | None => None
      | Some n =>
          let v := if neg then (- n)%Z else n in
          if (min_int <=? v)%Z && (v <=? max_int)%Z then Some v else None
      end
  end = Some n ->
  (min_int <= n <= max_int)%Z.
Proof.
  destruct body as [|c rest]; [discriminate |].
  destruct (digits_value (String c rest) 0) as [m|]; [| discriminate]. cbv zeta.
  destruct (_ && _) eqn:Ht; [| discriminate]. intros [= <-].
  apply andb_true_iff in Ht as [H1%Z.leb_le H2%Z.leb_le]. lia.
Qed.

Lemma Atoi_range (s : string) (n : Z) :
  Atoi s = Some n -> (min_int <= n <= max_int)%Z.
Proof.
  rewrite Atoi_cases. destruct s as [|c rest]; [discriminate |].
  destruct (Ascii.eqb c "-");
    [exact (Atoi_body_range true rest n) | destruct (Ascii.eqb c "+")];
    [exact (Atoi_body_range false rest n) | exact (Atoi_body_range false (String c rest) n)].
Qed.

End ItoaFacts.

Section InsertionSortFacts.
Context {A : Type} (less : A -> A -> option bool).

Lemma insert_sorted_perm (x : A) (l inserted : list A) :
  Examples.insert_sorted less x l = Some inserted -> inserted ≡ₚ x :: l.
Proof.
  revert inserted; induction l as [|y l IH]; intros inserted;
    cbn [Examples.insert_sorted].
  - now intros [= <-].
  - destruct (less y x) as [[|]|]; [| now intros [= <-] | discriminate].
    destruct (Examples.insert_sorted less x l) as [rest|]; [| discriminate].
    intros [= <-]. rewrite (IH rest eq_refl). apply perm_swap.
Qed.

Lemma insertion_sort_perm (l sorted : list A) :
  Examples.insertion_sort A less l = Some sorted -> sorted ≡ₚ l.
Proof.
  revert sorted; induction l as [|x l IH]; intros sorted;
    cbn [Examples.insertion_sort].
  - now intros [= <-].
  - destruct (Examples.insertion_sort A less l) as [rest|]; [| discriminate].
    intros Hins%insert_sorted_perm. rewrite Hins. now rewrite (IH rest eq_refl).
Qed.

Lemma insert_sorted_total (x : A) (l : list A) :
  (forall b, b ∈ l -> is_Some (less b x)) ->
  is_Some (Examples.insert_sorted less x l).
Proof.
  induction l as [|y l IH]; intros Hless; cbn [Examples.insert_sorted]; [eauto |].
  destruct (Hless y) as [[|] ->]; [left | | eauto].
  destruct IH as [rest ->]; [| eauto].
  intros b Hb. apply Hless. now right.
Qed.

Lemma insertion_sort_total (l : list A) :
  (forall a b, a ∈ l -> b ∈ l -> is_Some (less a b)) ->
  is_Some (Examples.insertion_sort A less l).
Proof.
  induction l as [|x l IH]; intros Hless; cbn [Examples.insertion_sort]; [eauto |].
  destruct IH as [rest Hrest].
  { intros a b Ha Hb. apply Hless; now right. }
  rewrite Hrest. apply insert_sorted_total.
  intros b Hb. apply Hless; [right | left].
  now rewrite <- (insertion_sort_perm _ _ Hrest).
Qed.

End InsertionSortFacts.

Lemma insertion_sort_sorts : Listing.sorts Examples.insertion_sort.
Proof.
  split.
  - intros A less l sorted. apply insertion_sort_perm.
  - intros A less l. apply insertion_sort_total.
Qed.

Section GroupFacts.

Lemma ExtractMajor_total (v : string) : exists m, Version.ExtractMajor v = Some m.
Proof. rewrite ExtractMajor_equation. eauto. Qed.

Lemma ExtractMajorVersion_total (v : string) :
  exists m, Repository.ExtractMajorVersion v = Some m.
Proof.
  unfold Repository.ExtractMajorVersion.
  destruct (ExtractMajor_total v) as [m ->]. destruct (String.eqb m ""); eauto.
Qed.

Lemma CompareVersions_total (a b : string) : is_Some (Repository.CompareVersions a b).
Proof. unfold Repository.CompareVersions. rewrite CompareVersions_design. eauto. Qed.

Lemma keys_elem {V : Type} (g : gmap string V) (k : string) :
  k ∈ map fst (map_to_list g) <-> is_Some (g !! k).
Proof.
  rewrite list_elem_of_In, in_map_iff. split.
  - intros ([k' l] & <- & Hin%list_elem_of_In%elem_of_map_to_list). cbn. eauto.
  - intros [l Hl]. exists (k, l). split; [reflexivity |].
    now apply list_elem_of_In, elem_of_map_to_list.
Qed.

Lemma sorted_majors_elem (keys : list string) (n : Z) :
  n ∈ Repository.sorted_majors keys <-> exists k, k ∈ keys /\ Atoi k = Some n.
Proof.
  unfold Repository.sorted_majors. rewrite sort_slice_perm. apply list_elem_of_omap.
Qed.

Lemma group_append_elem (g : gmap string (list string)) (major version m v : string) :
  v ∈ default [] (<[major := default [] (g !! major) ++ [version]]> g !! m)
  <-> v ∈ default [] (g !! m) \/ (m = major /\ v = version).
Proof.
  destruct (decide (m = major)) as [->|Hne].
  - rewrite lookup_insert_eq. cbn [from_option id]. rewrite elem_of_app, list_elem_of_singleton.
    intuition.
  - rewrite lookup_insert_ne by congruence. intuition.
Qed.

Lemma group_append_key (g : gmap string (list string)) (major m : string)
  (l : list string) :
  is_Some (<[major := l]> g !! m) <-> is_Some (g !! m) \/ m = major.
Proof.
  destruct (decide (m = major)) as [->|Hne].
  - rewrite lookup_insert_eq. split; eauto.
  - rewrite lookup_insert_ne by congruence. intuition.
Qed.

(** The grouping loop of package [repository]. *)
Lemma group_versions_spec (assets : list SDKAsset.t) :
  forall g, exists g',
    Repository.group_versions assets g = Some g'
    /\ (forall m v,
          v ∈ default [] (g' !! m)
          <-> v ∈ default [] (g !! m)
              \/ exists asset, asset ∈ assets /\ SDKAsset.Version asset = v
                               /\ Repository.ExtractMajorVersion v = Some m)
    /\ (forall m,
          is_Some (g' !! m)
          <-> is_Some (g !! m)
              \/ exists asset, asset ∈ assets
                   /\ Repository.ExtractMajorVersion (SDKAsset.Version asset) = Some m).
Proof.
  induction assets as [|asset assets IH]; intros g; cbn [Repository.group_versions].
  - exists g. split; [reflexivity |].
    split; intros; split; auto; intros [? | (a & []%elem_of_nil & _)]; auto.
  - destruct (ExtractMajorVersion_total (SDKAsset.Version asset)) as [major Hmajor].
    rewrite Hmajor.
    destruct (IH (<[major := default [] (g !! major) ++ [SDKAsset.Version asset]]> g))
      as (g' & -> & Helem & Hkey).
    exists g'. split; [reflexivity |]. split.
    + intros m v. rewrite Helem, group_append_elem. split.
      * intros [[? | [-> ->]] | (a & Ha & Hv & Hm)]; [auto | right | right].
        -- exists asset. split; [left | auto].
        -- exists a. split; [now right | auto].
      * intros [? | (a & [-> | Ha]%elem_of_cons & Hv & Hm)]; [auto | | right; eauto].
        left. right. subst v. rewrite Hmajor in Hm. now injection Hm as ->.
    + intros m. rewrite Hkey, group_append_key. split.
      * intros [[? | ->] | (a & Ha & Hm)]; [auto | right | right].
        -- exists asset. split; [left | auto].
        -- exists a. split; [now right | auto].
      * intros [? | (a & [-> | Ha]%elem_of_cons & Hm)]; [auto | | right; eauto].
        left. right. rewrite Hmajor in Hm. now injection Hm as ->.
Qed.

(** The grouping loop of package [cmd]. *)
Lemma cmd_group_versions_spec (versions : list SDKAsset.t) :
  forall g all, exists g' all',
    Cmd.group_versions versions g all = Some (g', all')
    /\ (forall m v,
          v ∈ default [] (g' !! m)
          <-> v ∈ default [] (g !! m)
              \/ exists asset, asset ∈ versions /\ SDKAsset.Version asset = v
                               /\ Cmd.ExtractMajorVersion v = Some m /\ m <> "")
    /\ (forall m,
          is_Some (g' !! m)
          <-> is_Some (g !! m)
              \/ exists asset, asset ∈ versions
                   /\ Cmd.ExtractMajorVersion (SDKAsset.Version asset) = Some m
                   /\ m <> "")
    /\ (forall m,
          m ∈ all'
          <-> m ∈ all
              \/ exists asset, asset ∈ versions
                   /\ Cmd.ExtractMajorVersion (SDKAsset.Version asset) = Some m
                   /\ m <> "").
Proof.
  induction versions as [|asset versions IH]; intros g all;
    cbn [Cmd.group_versions].
  - exists g, all. split; [reflexivity |].
    repeat split; auto; intros [? | (a & []%elem_of_nil & _)]; auto.
  - destruct (ExtractMajor_total (SDKAsset.Version asset)) as [major Hmajor].
    unfold Cmd.ExtractMajorVersion in *. rewrite Hmajor.
    destruct (String.eqb_spec major "") as [Hempty|Hne]; cbn [negb].
    + destruct (IH g all) as (g' & all' & -> & Helem & Hkey & Hall).
      exists g', all'. split; [reflexivity |].
      assert (Hskip : forall m, m <> "" ->
                Version.ExtractMajor (SDKAsset.Version asset) = Some m -> False)
        by (intros m Hm Heq; rewrite Hmajor in Heq; congruence).
      repeat split.
      * rewrite Helem. intros [? | (a & Ha & ?)]; [auto | right; exists a].
        split; [now right | auto].
      * rewrite Helem.
        intros [? | (a & [-> | Ha]%elem_of_cons & Hv & Hm & Hm0)]; [auto | | right; eauto].
        subst v. exfalso; eauto.
      * rewrite Hkey. intros [? | (a & Ha & ?)]; [auto | right; exists a].
        split; [now right | auto].
      * rewrite Hkey.
        intros [? | (a & [-> | Ha]%elem_of_cons & Hm & Hm0)]; [auto | | right; eauto].
        exfalso; eauto.
      * rewrite Hall. intros [? | (a & Ha & ?)]; [auto | right; exists a].
        split; [now right | auto].
      * rewrite Hall.
        intros [? | (a & [-> | Ha]%elem_of_cons & Hm & Hm0)]; [auto | | right; eauto].
        exfalso; eauto.
    + destruct (IH (<[major := default [] (g !! major) ++ [SDKAsset.Version asset]]> g)
                   ({[ major ]} ∪ all))
        as (g' & all' & -> & Helem & Hkey & Hall).
      exists g', all'. split; [reflexivity |]. repeat split.
      * rewrite Helem, group_append_elem.
        intros [[? | [-> ->]] | (a & Ha & ?)]; [auto | right | right].
        -- exists asset. split; [left | auto].
        -- exists a. split; [now right | auto].
      * rewrite Helem, group_append_elem.
        intros [? | (a & [-> | Ha]%elem_of_cons & Hv & Hm & Hm0)]; [auto | | right; eauto].
        left. right. subst v. rewrite Hmajor in Hm. now injection Hm as ->.
      * rewrite Hkey, group_append_key.
        intros [[? | ->] | (a & Ha & ?)]; [auto | right | right].
        -- exists asset. split; [left | auto].
        -- exists a. split; [now right | auto].
      * rewrite Hkey, group_append_key.
        intros [? | (a & [-> | Ha]%elem_of_cons & Hm & Hm0)]; [auto | | right; eauto].
        left. right. rewrite Hmajor in Hm. now injection Hm as ->.
      * rewrite Hall, elem_of_union, elem_of_singleton.
        intros [[-> | ?] | (a & Ha & ?)]; [right | auto | right].
        -- exists asset. split; [left | auto].
        -- exists a. split; [now right | auto].
      * rewrite Hall, elem_of_union, elem_of_singleton.
        intros [? | (a & [-> | Ha]%elem_of_cons & Hm & Hm0)]; [auto | | right; eauto].
        left. left. rewrite Hmajor in Hm. now injection Hm as ->.
Qed.

End GroupFacts.

Section DisplayFacts.
Variable sortSlice : forall A : Type, (A -> A -> option bool) -> list A -> option (list A).
Hypothesis sortSlice_sorts : Listing.sorts sortSlice.

Lemma alter_sorted_lookup (groups : gmap string (list string)) (major k : string)
  (sorted : list string) :
  sorted ≡ₚ default [] (groups !! major) ->
  default [] (alter (fun _ => sorted) major groups !! k) ≡ₚ default [] (groups !! k).
Proof.
  intros Hperm. destruct (decide (k = major)) as [->|Hne].
  - rewrite lookup_alter_eq. destruct (groups !! major); [exact Hperm | reflexivity].
  - rewrite lookup_alter_ne by congruence. reflexivity.
Qed.

Lemma sort_group_total (versions : list string) :
  exists sorted,
    sortSlice string Repository.CompareVersions versions = Some sorted
    /\ sorted ≡ₚ versions.
Proof.
  destruct sortSlice_sorts as [Hperm Htotal].
  destruct (Htotal string Repository.CompareVersions versions) as [sorted Hsorted].
  { intros a b _ _. apply CompareVersions_total. }
  exists sorted. split; [exact Hsorted | exact (Hperm _ _ _ _ Hsorted)].
Qed.

Section Groups.
Variables (heading : Z -> Logging.Call) (footer : list Logging.Call).

(** The loop over the major versions prints, group by group, a
    heading, the versions of the group and the footer. *)
Lemma display_groups_spec (majorVersions : list Z) :
  forall groups, exists calls,
    Repository.display_groups sortSlice heading footer majorVersions groups = Some calls
    /\ (forall call,
          call ∈ calls ->
          (exists n, call = heading n) \/ call ∈ footer
          \/ exists n v, n ∈ majorVersions
                         /\ v ∈ default [] (groups !! Nexus.itoa n)
                         /\ call = Listing.entry v)
    /\ (forall n v,
          n ∈ majorVersions -> v ∈ default [] (groups !! Nexus.itoa n) ->
          Listing.entry v ∈ calls).
Proof.
  induction majorVersions as [|majorNum rest IH]; intros groups;
    cbn [Repository.display_groups].
  - exists []. split; [reflexivity |].
    split; [intros call []%elem_of_nil | intros n v []%elem_of_nil].
  - destruct (sort_group_total (default [] (groups !! Nexus.itoa majorNum)))
      as (sorted & -> & Hperm).
    destruct (IH (alter (fun _ => sorted) (Nexus.itoa majorNum) groups))
      as (calls & -> & Hshape & Hlisted).
    eexists. split; [reflexivity |]. split.
    + intros call [-> | [Hin | [Hin | Hin]%elem_of_app]%elem_of_app]%elem_of_cons.
      * left. eauto.
      * right. right. apply list_elem_of_In, in_map_iff in Hin as (v & <- & Hv).
        exists majorNum, v. split; [left |].
        split; [| reflexivity]. rewrite <- Hperm. now apply list_elem_of_In.
      * auto.
      * destruct (Hshape call Hin) as [? | [? | (n & v & Hn & Hv & ->)]]; auto.
        right. right. exists n, v. split; [now right |]. split; [| reflexivity].
        now rewrite (alter_sorted_lookup groups (Nexus.itoa majorNum) _ sorted Hperm)
          in Hv.
    + intros n v [-> | Hn]%elem_of_cons Hv.
      * right. apply elem_of_app. left. apply list_elem_of_In, in_map_iff.
        exists v. split; [reflexivity |]. apply list_elem_of_In. now rewrite Hperm.
      * right. apply elem_of_app. right. apply elem_of_app. right.
        apply (Hlisted n v Hn).
        now rewrite (alter_sorted_lookup groups (Nexus.itoa majorNum) _ sorted Hperm).
Qed.

End Groups.

Lemma entry_inj (v v' : string) : Listing.entry v = Listing.entry v' -> v = v'.
Proof. now intros [= ->]. Qed.

(** No [int] is written as ["unknown"] or as the empty text. *)
Lemma itoa_not_unknown (n : Z) :
  (min_int <= n <= max_int)%Z -> Nexus.itoa n <> "unknown" /\ Nexus.itoa n <> "".
Proof.
  intros Hn%Atoi_itoa. split; intros Heq; rewrite Heq in Hn; discriminate.
Qed.

(** X23.  [displayVersions] of package [repository] returns, and it
    lists a version exactly when the version is one of the assets' and
    its major version is the decimal text of an [int]: a version
    without a major version (group ["unknown"]), or one whose major
    version is not what [strconv.Itoa] writes for the number
    [strconv.Atoi] reads from it, is never listed. *)
Theorem X23_displayVersions_lists_canonical_majors (assets : list SDKAsset.t) :
  exists calls,
    Repository.displayVersions sortSlice assets = Some calls
    /\ (forall v,
          Listing.entry v ∈ calls
          <-> (exists asset, asset ∈ assets /\ SDKAsset.Version asset = v)
              /\ Listing.canonical_major Repository.ExtractMajorVersion v)
    /\ (forall v major,
          Repository.ExtractMajorVersion v = Some major ->
          (forall n, Atoi major = Some n -> Nexus.itoa n <> major) ->
          Listing.entry v ∉ calls).
Proof.
  unfold Repository.displayVersions.
  destruct (group_versions_spec assets ∅) as (groups & -> & Helem & Hkey).
  set (heading := fun majorNum : Z =>
                    Logging.LogOutput "  - %s:" [Logging.AString (Nexus.itoa majorNum)]).
  destruct (display_groups_spec heading []
              (Repository.sorted_majors (map fst (map_to_list groups))) groups)
    as (calls & -> & Hshape & Hlisted).
  eexists. split; [reflexivity |].
  assert (Hiff : forall v,
            Listing.entry v
              ∈ Logging.LogOutput "🔹 Available versions:" []
                :: calls
                   ++ [ Logging.LogOutput
                          (String (ascii_of_N 10) "💡 To install a specific version:") [];
                        Logging.LogOutput "   strigo install jdk [distribution] [version]"
                          [] ]
            <-> (exists asset, asset ∈ assets /\ SDKAsset.Version asset = v)
                /\ Listing.canonical_major Repository.ExtractMajorVersion v).
  { intros v. split.
    - intros [[=] | [Hin | Hin]%elem_of_app]%elem_of_cons.
      + destruct (Hshape _ Hin) as [[n [=]] | [[]%elem_of_nil | (n & v' & Hn & Hv & Heq)]].
        apply entry_inj in Heq as <-.
        apply Helem in Hv as [[]%elem_of_nil | (asset & Ha & Hv & Hm)].
        split; [eauto |]. exists n. split; [| exact Hm].
        apply sorted_majors_elem in Hn as (k & _ & Hk). exact (Atoi_range _ _ Hk).
      + apply elem_of_cons in Hin as [[=] | Hin].
        apply list_elem_of_singleton in Hin as [=].
    - intros [(asset & Ha & Hv) (n & Hn & Hm)]. right. apply elem_of_app. left.
      apply (Hlisted n v).
      + apply sorted_majors_elem. exists (Nexus.itoa n).
        split; [| now apply Atoi_itoa].
        apply keys_elem, Hkey. right. exists asset. split; [exact Ha | now rewrite Hv].
      + apply Helem. right. eauto. }
  split; [exact Hiff |].
  intros v major Hmajor Hother Hin. apply Hiff in Hin as [_ (n & Hn & Hm)].
  rewrite Hmajor in Hm. injection Hm as ->.
  exact (Hother n (Atoi_itoa n Hn) eq_refl).
Qed.

Lemma cmd_displayVersions_total (versions : list SDKAsset.t)
  (sdkType distribution : string) :
  is_Some (Cmd.displayVersions sortSlice versions sdkType distribution).
Proof.
  unfold Cmd.displayVersions.
  destruct (cmd_group_versions_spec versions ∅ ∅) as (groups & all & -> & _).
  destruct (length _ =? 0)%nat; [eauto |].
  destruct (display_groups_spec
              (fun majorNum => Logging.LogOutput "-%d :" [Logging.AInt majorNum])
              [Logging.LogOutput "" []]
              (Repository.sorted_majors (map fst (map_to_list groups))) groups)
    as (calls & -> & _).
  eauto.
Qed.

(** X26.  [displayVersions] of package [cmd] returns; it lists a version
    exactly when the version is one of the assets' and its major version
    is the decimal text of an [int]; and when it announces the major
    versions there are, which it does when it has no group to show, the
    list it announces is empty. *)
Theorem X26_cmd_displayVersions (versions : list SDKAsset.t)
  (sdkType distribution : string) :
  exists calls,
    Cmd.displayVersions sortSlice versions sdkType distribution = Some calls
    /\ (forall v,
          Listing.entry v ∈ calls
          <-> (exists asset, asset ∈ versions /\ SDKAsset.Version asset = v)
              /\ Listing.canonical_major Cmd.ExtractMajorVersion v)
    /\ (forall majors, Listing.announcement majors ∈ calls -> majors = "").
Proof.
  unfold Cmd.displayVersions.
  destruct (cmd_group_versions_spec versions ∅ ∅)
    as (groups & all & -> & Helem & Hkey & Hall).
  set (majorVersions := Repository.sorted_majors (map fst (map_to_list groups))).
  assert (Hmajors : forall n,
            n ∈ majorVersions
            <-> exists asset major,
                  asset ∈ versions
                  /\ Cmd.ExtractMajorVersion (SDKAsset.Version asset) = Some major
                  /\ major <> "" /\ Atoi major = Some n).
  { intros n. unfold majorVersions. rewrite sorted_majors_elem. split.
    - intros (k & [[? []%lookup_empty_Some] | (asset & Ha & Hm & Hne)]%keys_elem%Hkey
                & Hk).
      eauto 10.
    - intros (asset & major & Ha & Hm & Hne & Hk). exists major. split; [| exact Hk].
      apply keys_elem, Hkey. right. eauto. }
  assert (Hcanon : forall v,
            (exists asset, asset ∈ versions /\ SDKAsset.Version asset = v)
            /\ Listing.canonical_major Cmd.ExtractMajorVersion v ->
            exists n, n ∈ majorVersions /\ v ∈ default [] (groups !! Nexus.itoa n)).
  { intros v [(asset & Ha & Hv) (n & Hn & Hm)]. exists n.
    destruct (itoa_not_unknown n Hn) as [_ Hne]. split.
    - apply Hmajors. exists asset, (Nexus.itoa n). rewrite Hv.
      split; [exact Ha |]. split; [exact Hm |]. split; [exact Hne | now apply Atoi_itoa].
    - apply Helem. right. exists asset. auto. }
  destruct (Nat.eqb_spec (length majorVersions) 0) as [Hlen|Hlen].
  - apply length_zero_iff_nil in Hlen. eexists. split; [reflexivity |]. split.
    + intros v. split.
      * intros Hin. repeat (apply elem_of_cons in Hin as [[=] | Hin]).
        now apply elem_of_nil in Hin.
      * intros (n & Hn & _)%Hcanon. rewrite Hlen in Hn. now apply elem_of_nil in Hn.
    + assert (Hnone : Repository.sorted_majors (elements all) = []).
      { destruct (Repository.sorted_majors (elements all)) as [|n l] eqn:Hl;
          [reflexivity |].
        assert (Hn : n ∈ Repository.sorted_majors (elements all))
          by (rewrite Hl; left).
        apply sorted_majors_elem in Hn as (k & Hk%elem_of_elements%Hall & Hatoi).
        destruct Hk as [[]%elem_of_empty | (asset & Ha & Hm & Hne)].
        assert (Hin : n ∈ majorVersions) by (apply Hmajors; eauto 10).
        rewrite Hlen in Hin. now apply elem_of_nil in Hin. }
      rewrite Hnone. cbn [map String.concat]. intros majors Hin.
      repeat (apply elem_of_cons in Hin as [Heq | Hin]; [try discriminate Heq |]).
      * now injection Heq as ->.
      * now apply elem_of_nil in Hin.
  - destruct (display_groups_spec
                (fun majorNum => Logging.LogOutput "-%d :" [Logging.AInt majorNum])
                [Logging.LogOutput "" []] majorVersions groups)
      as (calls & -> & Hshape & Hlisted).
    eexists. split; [reflexivity |]. split.
    + intros v. split.
      * intros [Hin | [Hin | Hin]%elem_of_app]%elem_of_app.
        -- repeat (apply elem_of_cons in Hin as [[=] | Hin]).
           now apply elem_of_nil in Hin.
        -- destruct (Hshape _ Hin)
             as [[n [=]] | [[[=] | []%elem_of_nil]%elem_of_cons
                           | (n & v' & Hn & Hv & Heq)]].
           apply entry_inj in Heq as <-.
           apply Helem in Hv as [[]%elem_of_nil | (asset & Ha & Hv & Hm & Hne)].
           split; [eauto |]. exists n. split; [| exact Hm].
           apply Hmajors in Hn as (a & major & _ & _ & _ & Hk).
           exact (Atoi_range _ _ Hk).
        -- repeat (apply elem_of_cons in Hin as [[=] | Hin]).
           now apply elem_of_nil in Hin.
      * intros (n & Hn & Hv)%Hcanon. apply elem_of_app. right. apply elem_of_app. left.
        exact (Hlisted n v Hn Hv).
    + intros majors [Hin | [Hin | Hin]%elem_of_app]%elem_of_app; exfalso.
      * repeat (apply elem_of_cons in Hin as [[=] | Hin]).
        now apply elem_of_nil in Hin.
      * destruct (Hshape _ Hin)
          as [[n [=]] | [[[=] | []%elem_of_nil]%elem_of_cons | (n & v & _ & _ & [=])]].
      * repeat (apply elem_of_cons in Hin as [[=] | Hin]).
        now apply elem_of_nil in Hin.
Qed.

End DisplayFacts.

Section ValidNames.

Lemma contains_elem (slice : list string) (str : string) :
  Cmd.contains slice str = true <-> str ∈ slice.
Proof.
  induction slice as [|s slice IH]; cbn [Cmd.contains].
  - split; [discriminate | intros []%elem_of_nil].
  - rewrite elem_of_cons. destruct (String.eqb_spec s str) as [->|Hne].
    + split; auto.
    + rewrite IH. split; [auto | intros [? | ?]; congruence].
Qed.

Lemma sort_insert_strings (x : string) (l : list string) :
  StronglySorted (fun a b => str_lt a b = true) l ->
  x ∉ l ->
  StronglySorted (fun a b => str_lt a b = true) (Nexus.sort_insert str_lt x l).
Proof.
  induction 1 as [|y l Hl IH Hy]; intros Hx; cbn [Nexus.sort_insert].
  - repeat constructor.
  - apply not_elem_of_cons in Hx as [Hxy Hx]. destruct (str_lt y x) eqn:Hyx.
    + constructor; [now apply IH |].
      rewrite (sort_insert_perm str_lt x l). now constructor.
    + assert (Hlt : str_lt x y = true) by (apply str_lt_total; [congruence | exact Hyx]).
      constructor; [now constructor |]. constructor; [exact Hlt |].
      rewrite Forall_forall in Hy |- *. intros z Hz.
      eapply str_lt_trans; [exact Hlt | now apply Hy].
Qed.

Lemma sort_slice_strings (l : list string) :
  NoDup l -> StronglySorted (fun a b => str_lt a b = true) (Nexus.sort_slice str_lt l).
Proof.
  induction 1 as [|x l Hx Hl IH]; cbn [Nexus.sort_slice fold_right]; [constructor |].
  apply sort_insert_strings; [exact IH |].
  now rewrite (sort_slice_perm str_lt l).
Qed.

Lemma keys_filter_NoDup {V : Type} (keep : string * V -> bool) (g : gmap string V) :
  NoDup (map fst (List.filter keep (map_to_list g))).
Proof.
  pose proof (NoDup_fst_map_to_list g) as Hnd.
  induction (map_to_list g) as [|[k v] l IH]; cbn [List.filter map]; [constructor |].
  apply NoDup_cons in Hnd as [Hk Hnd]. destruct (keep (k, v)); [| now apply IH].
  cbn [map fst]. constructor; [| now apply IH].
  intros Hin. apply Hk. apply list_elem_of_In, in_map_iff in Hin as ([k' v'] & Heq & Hin).
  apply filter_In in Hin as [Hin _]. apply list_elem_of_fmap. exists (k', v').
  split; [now rewrite <- Heq | now apply list_elem_of_In].
Qed.

Lemma filter_all {V : Type} (l : list V) : List.filter (fun _ => true) l = l.
Proof. induction l as [|x l IH]; cbn; congruence. Qed.

(** X24.  The names [strigo available] accepts: [getValidSDKTypes]
    holds exactly the keys of the configured SDK types and
    [getValidDistributions] exactly the names of the configured
    repositories of the type, each in strictly ascending order, so that
    [contains] answers whether the configuration has the name. *)
Theorem X24_valid_names (cfg : Config.t) (sdkType distribution : string) :
  (Cmd.contains (Cmd.getValidSDKTypes (Some cfg)) sdkType = true
   <-> is_Some (Config.SDKTypes cfg !! sdkType))
  /\ (Cmd.contains (Cmd.getValidDistributions (Some cfg) sdkType) distribution = true
      <-> exists sdkRepo,
            Config.SDKRepositories cfg !! distribution = Some sdkRepo
            /\ SDKRepository.Type_ sdkRepo = sdkType)
  /\ StronglySorted (fun a b => str_lt a b = true) (Cmd.getValidSDKTypes (Some cfg))
  /\ StronglySorted (fun a b => str_lt a b = true)
       (Cmd.getValidDistributions (Some cfg) sdkType).
Proof.
  unfold Cmd.getValidSDKTypes, Cmd.getValidDistributions. repeat split.
  - rewrite contains_elem, sort_slice_perm. apply keys_elem.
  - rewrite contains_elem, sort_slice_perm. apply keys_elem.
  - rewrite contains_elem, sort_slice_perm, list_elem_of_In, in_map_iff.
    intros ([name sdkRepo] & <- & [Hin Hty]%filter_In). exists sdkRepo.
    split; [now apply elem_of_map_to_list, list_elem_of_In |].
    now apply String.eqb_eq.
  - intros (sdkRepo & Hrepo & Hty).
    rewrite contains_elem, sort_slice_perm, list_elem_of_In, in_map_iff.
    exists (distribution, sdkRepo). split; [reflexivity |]. apply filter_In.
    split; [now apply list_elem_of_In, elem_of_map_to_list |].
    now apply String.eqb_eq.
  - apply sort_slice_strings.
    rewrite <- (filter_all (map_to_list (Config.SDKTypes cfg))).
    apply keys_filter_NoDup.
  - apply sort_slice_strings, keys_filter_NoDup.
Qed.

End ValidNames.

Section AvailableFacts.
Context `{RegexpEngine}.
Variable ReadFile : string -> Outcome string.
Variable Unmarshal : string -> Outcome (list Pattern).
Variable sortSlice : forall A : Type, (A -> A -> option bool) -> list A -> option (list A).
Hypothesis sortSlice_sorts : Listing.sorts sortSlice.

Lemma filter_major_spec (versions : list SDKAsset.t) (versionFilter : string) :
  Cmd.filter_major versions versionFilter
  = Some (List.filter (Listing.has_major versionFilter) versions).
Proof.
  induction versions as [|v versions IH]; cbn [Cmd.filter_major List.filter];
    [reflexivity |].
  unfold Listing.has_major at 1.
  destruct (ExtractMajor_total (SDKAsset.Version v)) as [major Hmajor].
  unfold Cmd.ExtractMajorVersion. now rewrite Hmajor, IH.
Qed.

Lemma collect_majors_spec (versions : list SDKAsset.t) :
  forall all, exists all',
    Cmd.collect_majors versions all = Some all'
    /\ forall m,
         m ∈ all'
         <-> m ∈ all
             \/ exists asset, asset ∈ versions
                  /\ Cmd.ExtractMajorVersion (SDKAsset.Version asset) = Some m
                  /\ m <> "".
Proof.
  induction versions as [|v versions IH]; intros all; cbn [Cmd.collect_majors].
  - exists all. split; [reflexivity |]. intros m.
    split; [auto | intros [? | (a & []%elem_of_nil & _)]; auto].
  - destruct (ExtractMajor_total (SDKAsset.Version v)) as [major Hmajor].
    unfold Cmd.ExtractMajorVersion in *. rewrite Hmajor.
    destruct (IH (if negb (String.eqb major "") then {[ major ]} ∪ all else all))
      as (all' & -> & Hall).
    exists all'. split; [reflexivity |]. intros m. rewrite Hall.
    destruct (String.eqb_spec major "") as [Hempty|Hne]; cbn [negb].
    + split.
      * intros [? | (a & Ha & ?)]; [auto | right; exists a]. split; [now right | auto].
      * intros [? | (a & [-> | Ha]%elem_of_cons & Hm & Hm0)]; [auto | | right; eauto].
        rewrite Hmajor in Hm. congruence.
    + rewrite elem_of_union, elem_of_singleton. split.
      * intros [[-> | ?] | (a & Ha & ?)]; [right | auto | right].
        -- exists v. split; [left | auto].
        -- exists a. split; [now right | auto].
      * intros [? | (a & [-> | Ha]%elem_of_cons & Hm & Hm0)]; [auto | | right; eauto].
        left. left. rewrite Hmajor in Hm. now injection Hm as ->.
Qed.

Lemma available_majors (versions : list SDKAsset.t) (all : gset string) :
  (forall m,
     m ∈ all
     <-> (m ∈ (∅ : gset string))
         \/ exists asset, asset ∈ versions
              /\ Cmd.ExtractMajorVersion (SDKAsset.Version asset) = Some m
              /\ m <> "") ->
  forall n,
    n ∈ Repository.sorted_majors (elements all) <-> Listing.major_number versions n.
Proof.
  intros Hall n. rewrite sorted_majors_elem. unfold Listing.major_number. split.
  - intros (k & Hk%elem_of_elements%Hall & Hatoi).
    destruct Hk as [[]%elem_of_empty | (asset & Ha & Hm & _)]. eauto.
  - intros (asset & major & Ha & Hm & Hatoi). exists major. split; [| exact Hatoi].
    apply elem_of_elements, Hall. right. exists asset.
    split; [exact Ha |]. split; [exact Hm |]. intros ->. discriminate.
Qed.

Lemma sort_assets_total (versions : list SDKAsset.t) :
  exists sorted,
    sortSlice SDKAsset.t
      (fun a b => Repository.CompareVersions (SDKAsset.Version a) (SDKAsset.Version b))
      versions = Some sorted
    /\ sorted ≡ₚ versions.
Proof.
  destruct sortSlice_sorts as [Hperm Htotal].
  destruct (Htotal SDKAsset.t
              (fun a b => Repository.CompareVersions (SDKAsset.Version a)
                            (SDKAsset.Version b)) versions) as [sorted Hsorted].
  { intros a b _ _. apply CompareVersions_total. }
  exists sorted. split; [exact Hsorted | exact (Hperm _ _ _ _ Hsorted)].
Qed.

(** X25.  Once the listing is fetched, [handleFullCommand] returns.
    Without a filter it puts all fetched assets into the output; with a
    filter it puts there the assets whose major version is the filter,
    not those that contain it, in an order [sort.Slice] chose, and
    displays them; when no asset has that major version the output is
    left as it was and the major versions that some asset has are
    announced.  The fetcher itself displays nothing. *)
Theorem X25_available_filters_by_major (cfg : Config.t)
  (patternsFilePath sdkType distribution versionFilter : string)
  (out : Cmd.AvailableOutput) (world : list Nexus.Exchange)
  (sdkRepo : SDKRepository.t) (registry : Registry.t)
  (fetched : Repository.Fetched) (versions : list SDKAsset.t) :
  Config.SDKRepositories cfg !! distribution = Some sdkRepo ->
  Config.Registries cfg !! SDKRepository.Registry sdkRepo = Some registry ->
  Repository.FetchAvailableVersions ReadFile Unmarshal sdkRepo registry ""
    [OptBool true; OptString patternsFilePath] world = Some fetched ->
  Repository.returned fetched = Ok versions ->
  exists ran,
    Cmd.handleFullCommand ReadFile Unmarshal sortSlice cfg patternsFilePath sdkType
      distribution versionFilter out world = Some ran
    /\ match (if String.eqb versionFilter "" then versions
              else List.filter (Listing.has_major versionFilter) versions) with
       | [] =>
           Cmd.output ran = out
           /\ exists majors,
                Cmd.printed ran
                = [ Logging.LogOutput "❌ No version found matching major version %s"
                      [Logging.AString versionFilter];
                    Logging.LogOutput "" [];
                    Listing.announcement (Cmd.joinInts majors) ]
                /\ forall n, n ∈ majors <-> Listing.major_number versions n
       | kept =>
           Cmd.Versions (Cmd.output ran) ≡ₚ kept
           /\ Cmd.Types (Cmd.output ran) = Cmd.Types out
           /\ Cmd.Distributions (Cmd.output ran) = Cmd.Distributions out
           /\ Cmd.Error (Cmd.output ran) = Cmd.Error out
           /\ Cmd.displayVersions sortSlice (Cmd.Versions (Cmd.output ran)) sdkType
                distribution = Some (Cmd.printed ran)
       end.
Proof.
  intros Hrepo Hreg Hcall Hret.
  destruct (FetchAvailableVersions_Ok_inv _ _ _ _ _ _ _ _ _ Hcall Hret)
    as (_ & Hdisp & parser & _ & Hget).
  cbn [Repository.json_output negb] in Hdisp.
  assert (Hne : versions <> [])
    by (intros ->; exact (GetAvailableVersions_never_empty _ _ _ _ _ Hget)).
  unfold Cmd.handleFullCommand, Repository.printed.
  rewrite Hrepo, Hreg, Hcall, Hdisp, Hret.
  destruct (collect_majors_spec versions ∅) as (all & -> & Hall).
  assert (Hshow : forall kept : list SDKAsset.t,
            exists sorted calls,
              sortSlice SDKAsset.t
                (fun a b => Repository.CompareVersions (SDKAsset.Version a)
                              (SDKAsset.Version b)) kept = Some sorted
              /\ sorted ≡ₚ kept
              /\ Cmd.displayVersions sortSlice sorted sdkType distribution = Some calls).
  { intros kept. destruct (sort_assets_total kept) as (sorted & Hsorted & Hperm).
    destruct (cmd_displayVersions_total sortSlice sortSlice_sorts sorted sdkType
                distribution) as [calls Hcalls].
    eauto. }
  destruct (String.eqb_spec versionFilter "") as [Hempty|Hfilter]; cbn [negb andb].
  - destruct (Hshow versions) as (sorted & calls & -> & Hperm & Hcalls).
    rewrite Hcalls. eexists. split; [reflexivity |].
    destruct versions as [|v versions]; [congruence |].
    cbn [Cmd.output Cmd.printed Cmd.Versions Cmd.Types Cmd.Distributions Cmd.Error app].
    auto.
  - rewrite filter_major_spec.
    destruct (List.filter (Listing.has_major versionFilter) versions) as [|v kept].
    + cbn [length Nat.eqb]. eexists. split; [reflexivity |].
      cbn [Cmd.output Cmd.printed app]. split; [reflexivity |].
      exists (Repository.sorted_majors (elements all)). split; [reflexivity |].
      now apply available_majors.
    + cbn [length Nat.eqb].
      destruct (Hshow (v :: kept)) as (sorted & calls & -> & Hperm & Hcalls).
      rewrite Hcalls. eexists. split; [reflexivity |].
      cbn [Cmd.output Cmd.printed Cmd.Versions Cmd.Types Cmd.Distributions Cmd.Error app].
      auto.
Qed.

End AvailableFacts.

Section PatternsPathFacts.
Context `{RegexpEngine}.
Variable ReadFile : string -> Outcome string.
Variable Unmarshal : string -> Outcome (list Pattern).
Variable sortSlice : forall A : Type, (A -> A -> option bool) -> list A -> option (list A).

(** X27.  [GetPatternsFilePath] is empty only when the flag, the
    environment variable and the configured value all are; then, even
    with a configuration that names the type, the distribution and a
    nexus registry, and whatever the registry would answer and the file
    system holds, [handleInstall] returns, before any request, the
    parser's error wrapped three times, and [handleFullCommand] makes no
    call of [LogOutput] and leaves the output as it was: all it shows of
    the failure are two calls of [LogError], the one
    [FetchAvailableVersions] makes and its own, with the error wrapped
    once and twice. *)
Theorem X27_no_patterns_path (cfg : Config.t)
  (patternsFile envPath configured sdkType distribution version versionFilter : string)
  (out : Cmd.AvailableOutput) (world : list Nexus.Exchange)
  (sdkTypeConfig : SDKType.t) (sdkRepo : SDKRepository.t) (registry : Registry.t) :
  Cmd.GetPatternsFilePath patternsFile envPath configured = "" ->
  Config.SDKTypes cfg !! sdkType = Some sdkTypeConfig ->
  Config.SDKRepositories cfg !! distribution = Some sdkRepo ->
  SDKRepository.Type_ sdkRepo = SDKType.Type_ sdkTypeConfig ->
  Config.Registries cfg !! SDKRepository.Registry sdkRepo = Some registry ->
  Registry.Type_ registry = "nexus" ->
  (patternsFile = "" /\ envPath = "" /\ configured = "")
  /\ Cmd.handleInstall_asset ReadFile Unmarshal cfg
       (Cmd.GetPatternsFilePath patternsFile envPath configured) sdkType distribution
       version world
     = Some (Err "failed to fetch versions: failed to initialize Nexus client: failed to initialize version parser: patterns file path not configured. Please set 'patterns_file' in strigo.toml, use --patterns flag, or set STRIGO_PATTERNS_PATH environment variable")
  /\ Cmd.handleFullCommand ReadFile Unmarshal sortSlice cfg
       (Cmd.GetPatternsFilePath patternsFile envPath configured) sdkType distribution
       versionFilter out world
     = Some {| Cmd.output := out; Cmd.printed := [] |}
  /\ Cmd.handleFullCommand_errors ReadFile Unmarshal cfg
       (Cmd.GetPatternsFilePath patternsFile envPath configured) distribution world
     = Some [ Logging.LogError "❌ Failed to initialize Nexus client: %v"
                [Logging.AString "failed to initialize version parser: patterns file path not configured. Please set 'patterns_file' in strigo.toml, use --patterns flag, or set STRIGO_PATTERNS_PATH environment variable"];
              Logging.LogError "❌ %v"
                [Logging.AString "failed to initialize Nexus client: failed to initialize version parser: patterns file path not configured. Please set 'patterns_file' in strigo.toml, use --patterns flag, or set STRIGO_PATTERNS_PATH environment variable"] ].
Proof.
  intros Hpath Htype Hrepo Hsame Hreg Hnexus. split.
  - revert Hpath. unfold Cmd.GetPatternsFilePath.
    destruct (String.eqb_spec patternsFile "") as [->|Hflag]; cbn [negb];
      [| intros ->; congruence].
    destruct (String.eqb_spec envPath "") as [->|Henv]; cbn [negb];
      [| intros ->; congruence].
    auto.
  - rewrite Hpath.
    unfold Cmd.handleInstall_asset, Cmd.handleFullCommand, Cmd.handleFullCommand_errors,
      Repository.FetchAvailableVersions_errors,
      Repository.FetchAvailableVersions, Repository.NewNexusClientWithConfig,
      Repository.printed, NewParser.
    cbn [Repository.patterns_file_path Repository.json_output].
    rewrite Htype, Hrepo, Hsame, String.eqb_refl, Hreg, Hnexus, String.eqb_refl.
    cbn [negb]. repeat split; reflexivity.
Qed.

End PatternsPathFacts.

(* ===================================================================== *)
(** ** What the commands display, on the example listing                  *)
(* ===================================================================== *)

Lemma X23_displayVersions_lists_canonical_majors_witness :
  exists calls,
    Repository.displayVersions Examples.insertion_sort Examples.mixed_assets = Some calls
    /\ (forall v,
          Listing.entry v ∈ calls
          <-> (exists asset, asset ∈ Examples.mixed_assets /\ SDKAsset.Version asset = v)
              /\ Listing.canonical_major Repository.ExtractMajorVersion v)
    /\ (forall v major,
          Repository.ExtractMajorVersion v = Some major ->
          (forall n, Atoi major = Some n -> Nexus.itoa n <> major) ->
          Listing.entry v ∉ calls).
Proof.
  exact (X23_displayVersions_lists_canonical_majors Examples.insertion_sort
           insertion_sort_sorts Examples.mixed_assets).
Defined.

Lemma X25_available_filters_by_major_witness :
  exists ran,
    Cmd.handleFullCommand Examples.read_file Examples.unmarshal Examples.insertion_sort
      Examples.config "strigopatterns.toml" "jdk" "temurin" "17"
      {| Cmd.Types := []; Cmd.Distributions := []; Cmd.Versions := []; Cmd.Error := "" |}
      Design.two_pages = Some ran
    /\ Cmd.Versions (Cmd.output ran)
       ≡ₚ [ Design.asset_of "17.0.15_6"
              (Design.item "/jdk/temurin/jdk-17.0.15_6-linux.tar.gz") ].
Proof.
  destruct (@X25_available_filters_by_major GoRegexp.engine Examples.read_file
              Examples.unmarshal Examples.insertion_sort insertion_sort_sorts
              Examples.config "strigopatterns.toml" "jdk" "temurin" "17"
              {| Cmd.Types := []; Cmd.Distributions := []; Cmd.Versions := [];
                 Cmd.Error := "" |}
              Design.two_pages Design.temurin_repo Design.nexus_registry
              {| Repository.returned := Ok Design.two_pages_assets;
                 Repository.displayed := None |}
              Design.two_pages_assets)
    as (ran & Hran & Hkept & _); [vm_compute; reflexivity .. |].
  exists ran. split; [exact Hran | exact Hkept].
Defined.

Lemma X26_cmd_displayVersions_witness :
  exists calls,
    Cmd.displayVersions Examples.insertion_sort Examples.mixed_assets "jdk" "temurin"
    = Some calls
    /\ (forall v,
          Listing.entry v ∈ calls
          <-> (exists asset, asset ∈ Examples.mixed_assets /\ SDKAsset.Version asset = v)
              /\ Listing.canonical_major Cmd.ExtractMajorVersion v)
    /\ (forall majors, Listing.announcement majors ∈ calls -> majors = "").
Proof.
  exact (X26_cmd_displayVersions Examples.insertion_sort insertion_sort_sorts
           Examples.mixed_assets "jdk" "temurin").
Defined.

Lemma X27_no_patterns_path_witness :
  Cmd.handleFullCommand Examples.read_file Examples.unmarshal Examples.insertion_sort
    Examples.config (Cmd.GetPatternsFilePath "" "" "") "jdk" "temurin" "17"
    {| Cmd.Types := []; Cmd.Distributions := []; Cmd.Versions := []; Cmd.Error := "" |}
    Design.two_pages
  = Some {| Cmd.output :=
              {| Cmd.Types := []; Cmd.Distributions := []; Cmd.Versions := [];
                 Cmd.Error := "" |};
            Cmd.printed := [] |}
  /\ Cmd.handleFullCommand_errors Examples.read_file Examples.unmarshal Examples.config
       (Cmd.GetPatternsFilePath "" "" "") "temurin" Design.two_pages
     = Some [ Logging.LogError "❌ Failed to initialize Nexus client: %v"
                [Logging.AString "failed to initialize version parser: patterns file path not configured. Please set 'patterns_file' in strigo.toml, use --patterns flag, or set STRIGO_PATTERNS_PATH environment variable"];
              Logging.LogError "❌ %v"
                [Logging.AString "failed to initialize Nexus client: failed to initialize version parser: patterns file path not configured. Please set 'patterns_file' in strigo.toml, use --patterns flag, or set STRIGO_PATTERNS_PATH environment variable"] ].
Proof.
  refine (proj2 (proj2 (@X27_no_patterns_path GoRegexp.engine Examples.read_file
                          Examples.unmarshal Examples.insertion_sort Examples.config
                          "" "" "" "jdk" "temurin" "17.0.15_6" "17"
                          {| Cmd.Types := []; Cmd.Distributions := []; Cmd.Versions := [];
                             Cmd.Error := "" |}
                          Design.two_pages
                          {| SDKType.Type_ := "jdk"; SDKType.InstallDir := "jdks" |}
                          Design.temurin_repo Design.nexus_registry _ _ _ _ _ _)));
    vm_compute; reflexivity.
Defined.
